(** * GenVideo-Studio: the timeline editor and its two export strategies

    A shallow embedding of [src/components/TimelineEditor.tsx] and
    [src/services/timelineExport.ts].

    JavaScript numbers are modelled as exact rationals [Q]: every time on the
    timeline is a finite quantity of seconds, and [NaN], the infinities and
    binary rounding are left out.  Three places of the source let the last
    bits of a double decide a count or a digit: the playback clock and the
    frame time of the export, which accumulate a rounded sum, and the clock
    display, which takes the floor of a rounded product.  Statements about a
    run of ticks or of frames, or about the digits shown, are therefore given
    with a margin and name no exact count, so that they hold of the rounded
    values as well.  [Math.max()] of no argument, which yields
    [-Infinity] in the source, is the one place where an extended value is
    kept ([JSMax]).  React state is a record that the handlers transform;
    calls on the preview [<video>] element are recorded as a trace. *)

From Stdlib Require Import QArith Qround Qminmax Lqa.
From Stdlib Require Import List Bool ZArith Lia String Ascii DecimalString.
From Stdlib Require Import Sorted Permutation.
From Stdlib Require DecimalNat.
From stdpp Require Import gmap strings.
Import ListNotations.

Local Open Scope Q_scope.

(** ** Numbers *)

Module JSNumber.

(** [a < b] on numbers, as a boolean. *)
Definition Qlt_bool (a b : Q) : bool := negb (Qle_bool b a).

(** [Math.round(x)]: the nearest integer, a tie going up. *)
Definition Math_round (x : Q) : Q := inject_Z (Qfloor (x + (1 # 2))).

(** [d || dflt] for an optional number: [undefined] and [0] are falsy. *)
Definition or_default (d : option Q) (dflt : Q) : Q :=
  match d with
  | Some v => if Qeq_bool v 0 then dflt else v
  | None => dflt
  end.

(** [Math.max(...xs, last)]: the spread arguments followed by a constant. *)
Definition Math_max_with (xs : list Q) (last : Q) : Q :=
  List.fold_right Qmax last xs.

(** The result of [Math.max(...xs)] with nothing appended. *)
Inductive JSMax := NegInfinity | Finite (q : Q).

Definition Math_max (xs : list Q) : JSMax :=
  match xs with
  | [] => NegInfinity
  | x :: rest => Finite (List.fold_right Qmax x rest)
  end.

(** [a >= m] where [m] may be [-Infinity]. *)
Definition ge_max (a : Q) (m : JSMax) : bool :=
  match m with
  | NegInfinity => true
  | Finite q => Qle_bool q a
  end.

End JSNumber.
Import JSNumber.

(** ** Arrays *)

Module JSArray.
Section Sort.
Context {A : Type}.
Variable cmp : A -> A -> Q.

(** [Array.prototype.sort(cmp)] is stable.  It is modelled as the stable
    insertion sort: an element is placed before the first element it does
    not compare greater than, so equal elements keep their order. *)
Fixpoint sort_insert (x : A) (l : list A) : list A :=
  match l with
  | [] => [x]
  | y :: ys =>
      if Qle_bool (cmp x y) 0 then x :: y :: ys else y :: sort_insert x ys
  end.

Definition sort (l : list A) : list A := List.fold_right sort_insert [] l.

End Sort.

(** The order a comparator induces: [x] may stand before [y]. *)
Definition cmp_le {A : Type} (cmp : A -> A -> Q) (x y : A) : Prop := cmp x y <= 0.

End JSArray.

(** ** Data model ([src/types.ts], [TimelineEditor.tsx]) *)

Inductive ClipType := subject | stock | upload.

Module VideoClip.
Record t := mk {
  id : string;
  url : string;
  thumbnail : option string;
  prompt : string;
  duration : option Q;
  type : ClipType;
  scriptSegment : option string;
  createdAt : Q
}.
End VideoClip.

Inductive Track := a_roll | b_roll.

Definition Track_eqb (x y : Track) : bool :=
  match x, y with
  | a_roll, a_roll | b_roll, b_roll => true
  | _, _ => false
  end.

Module TimelineClip.
Record t := mk {
  id : string;
  videoClip : VideoClip.t;
  startTime : Q;
  duration : Q;
  track : Track
}.

(** [{ ...clip, startTime: s }] *)
Definition with_startTime (s : Q) (clip : t) : t :=
  mk (id clip) (videoClip clip) s (duration clip) (track clip).
End TimelineClip.

(** [c.startTime + c.duration], the expression every duration bound maps
    over the clips. *)
Definition clipEnd (c : TimelineClip.t) : Q :=
  TimelineClip.startTime c + TimelineClip.duration c.

(** [currentTime >= clip.startTime && currentTime < clip.startTime + clip.duration] *)
Definition isActiveAt (currentTime : Q) (clip : TimelineClip.t) : bool :=
  Qle_bool (TimelineClip.startTime clip) currentTime
  && Qlt_bool currentTime (TimelineClip.startTime clip + TimelineClip.duration clip).

(** [c.track === tr] *)
Definition onTrack (tr : Track) (c : TimelineClip.t) : bool :=
  Track_eqb (TimelineClip.track c) tr.

(** The source URL a placement shows. *)
Definition clipUrl (c : TimelineClip.t) : string :=
  VideoClip.url (TimelineClip.videoClip c).

(** ** Derived total duration ([TimelineEditor.tsx], lines 590-593) *)

(** [Math.max(...timelineClips.map((c) => c.startTime + c.duration), 45)] *)
Definition totalDuration (timelineClips : list TimelineClip.t) : Q :=
  Math_max_with (List.map clipEnd timelineClips) 45.

(** ** Editor state ([TimelineEditor.tsx], the [useState] hooks) *)

Record EditorState := mkEditorState {
  timelineClips : list TimelineClip.t;
  bRolls : list VideoClip.t;
  currentTime : Q;
  isPlaying : bool;
  zoom : Q;
  selectedClip : option string;
  isDragging : bool;
  draggedClip : option VideoClip.t;
  isDraggingPlayhead : bool;
  isDraggingTimelineClip : bool;
  draggingClipId : option string;
  dragOffset : Q
}.

(** The state after the first render, given the [bRolls] prop. *)
Definition initialState (initialBRolls : list VideoClip.t) : EditorState :=
  mkEditorState [] initialBRolls 0 false 1 None false None false false None 0.

Definition setTimelineClips (v : list TimelineClip.t) (s : EditorState) :=
  mkEditorState v (bRolls s) (currentTime s) (isPlaying s) (zoom s)
    (selectedClip s) (isDragging s) (draggedClip s) (isDraggingPlayhead s)
    (isDraggingTimelineClip s) (draggingClipId s) (dragOffset s).

Definition setBRolls (v : list VideoClip.t) (s : EditorState) :=
  mkEditorState (timelineClips s) v (currentTime s) (isPlaying s) (zoom s)
    (selectedClip s) (isDragging s) (draggedClip s) (isDraggingPlayhead s)
    (isDraggingTimelineClip s) (draggingClipId s) (dragOffset s).

Definition setCurrentTime (v : Q) (s : EditorState) :=
  mkEditorState (timelineClips s) (bRolls s) v (isPlaying s) (zoom s)
    (selectedClip s) (isDragging s) (draggedClip s) (isDraggingPlayhead s)
    (isDraggingTimelineClip s) (draggingClipId s) (dragOffset s).

Definition setIsPlaying (v : bool) (s : EditorState) :=
  mkEditorState (timelineClips s) (bRolls s) (currentTime s) v (zoom s)
    (selectedClip s) (isDragging s) (draggedClip s) (isDraggingPlayhead s)
    (isDraggingTimelineClip s) (draggingClipId s) (dragOffset s).

Definition setZoom (v : Q) (s : EditorState) :=
  mkEditorState (timelineClips s) (bRolls s) (currentTime s) (isPlaying s) v
    (selectedClip s) (isDragging s) (draggedClip s) (isDraggingPlayhead s)
    (isDraggingTimelineClip s) (draggingClipId s) (dragOffset s).

Definition setSelectedClip (v : option string) (s : EditorState) :=
  mkEditorState (timelineClips s) (bRolls s) (currentTime s) (isPlaying s) (zoom s)
    v (isDragging s) (draggedClip s) (isDraggingPlayhead s)
    (isDraggingTimelineClip s) (draggingClipId s) (dragOffset s).

Definition setIsDragging (v : bool) (s : EditorState) :=
  mkEditorState (timelineClips s) (bRolls s) (currentTime s) (isPlaying s) (zoom s)
    (selectedClip s) v (draggedClip s) (isDraggingPlayhead s)
    (isDraggingTimelineClip s) (draggingClipId s) (dragOffset s).

Definition setDraggedClip (v : option VideoClip.t) (s : EditorState) :=
  mkEditorState (timelineClips s) (bRolls s) (currentTime s) (isPlaying s) (zoom s)
    (selectedClip s) (isDragging s) v (isDraggingPlayhead s)
    (isDraggingTimelineClip s) (draggingClipId s) (dragOffset s).

Definition setIsDraggingPlayhead (v : bool) (s : EditorState) :=
  mkEditorState (timelineClips s) (bRolls s) (currentTime s) (isPlaying s) (zoom s)
    (selectedClip s) (isDragging s) (draggedClip s) v
    (isDraggingTimelineClip s) (draggingClipId s) (dragOffset s).

Definition setIsDraggingTimelineClip (v : bool) (s : EditorState) :=
  mkEditorState (timelineClips s) (bRolls s) (currentTime s) (isPlaying s) (zoom s)
    (selectedClip s) (isDragging s) (draggedClip s) (isDraggingPlayhead s)
    v (draggingClipId s) (dragOffset s).

Definition setDraggingClipId (v : option string) (s : EditorState) :=
  mkEditorState (timelineClips s) (bRolls s) (currentTime s) (isPlaying s) (zoom s)
    (selectedClip s) (isDragging s) (draggedClip s) (isDraggingPlayhead s)
    (isDraggingTimelineClip s) v (dragOffset s).

Definition setDragOffset (v : Q) (s : EditorState) :=
  mkEditorState (timelineClips s) (bRolls s) (currentTime s) (isPlaying s) (zoom s)
    (selectedClip s) (isDragging s) (draggedClip s) (isDraggingPlayhead s)
    (isDraggingTimelineClip s) (draggingClipId s) v.

(** ** Pointer geometry *)

(** [const PIXEL_PER_SECOND = 50 * zoom] *)
Definition PIXEL_PER_SECOND (s : EditorState) : Q := 50 * zoom s.

Definition TRACK_LABEL_WIDTH : Q := 80.

(** What a handler reads from [timelineRef.current]: the left edge of its
    bounding rectangle and the scroll position of its parent, if any. *)
Record TimelineRef := mkTimelineRef {
  rect_left : Q;
  parent_scrollLeft : option Q
}.

(** [timelineRef.current.parentElement?.scrollLeft || 0] *)
Definition scrollLeftOf (r : TimelineRef) : Q := or_default (parent_scrollLeft r) 0.

(** ** Transport ([TimelineEditor.tsx], lines 116-134) *)

(** The updater the 100 ms interval passes to [setCurrentTime]; it runs
    only while [isPlaying].  [prev + 0.1] is the exact sum here; the source
    adds the double nearest to 0.1 and rounds, so over many ticks its clock
    drifts from the multiples of a tenth by some units in the last place. *)
Definition tick (s : EditorState) : EditorState :=
  let prev := currentTime s in
  let maxTime := Math_max_with (List.map clipEnd (timelineClips s)) 0 in
  if Qle_bool maxTime prev
  then setCurrentTime 0 (setIsPlaying false s)
  else setCurrentTime (prev + (1 # 10)) s.

(** The effect that seeds the timeline from the [aRoll] prop (lines 103-114). *)
Definition aRollEffect (aRoll : option VideoClip.t) (uuid : string)
    (s : EditorState) : EditorState :=
  match aRoll, timelineClips s with
  | Some v, [] =>
      let aRollClip :=
        TimelineClip.mk uuid v 0 (or_default (VideoClip.duration v) 45) a_roll in
      setTimelineClips [aRollClip] s
  | _, _ => s
  end.

(** ** Library drop, placement drag, seeking *)

(** [useEffect(() => setBRolls(initialBRolls), [initialBRolls])] *)
Definition bRollsEffect (initialBRolls : list VideoClip.t) (s : EditorState) : EditorState :=
  setBRolls initialBRolls s.

(** [handleFileUpload], once every file has been probed: the new clips join
    the library. *)
Definition handleFileUpload (newClips : list VideoClip.t) (s : EditorState) : EditorState :=
  setBRolls (bRolls s ++ newClips) s.

Definition handleRemoveBRoll (clipId : string) (s : EditorState) : EditorState :=
  setTimelineClips
    (List.filter (fun c => negb (String.eqb (VideoClip.id (TimelineClip.videoClip c)) clipId))
       (timelineClips s))
    (setBRolls (List.filter (fun c => negb (String.eqb (VideoClip.id c) clipId)) (bRolls s)) s).

Definition handleDragStart (clip : VideoClip.t) (s : EditorState) : EditorState :=
  setIsDragging true (setDraggedClip (Some clip) s).

(** The local [startTime] of [handleDrop], before rounding. *)
Definition dropTime (r : TimelineRef) (clientX : Q) (s : EditorState) : Q :=
  let x := clientX - rect_left r + scrollLeftOf r - TRACK_LABEL_WIDTH in
  Qmax 0 (x / PIXEL_PER_SECOND s).

Definition handleDrop (ref : option TimelineRef) (clientX : Q) (tr : Track)
    (uuid : string) (s : EditorState) : EditorState :=
  match draggedClip s, ref with
  | Some dragged, Some r =>
      let startTime := dropTime r clientX s in
      let newClip :=
        TimelineClip.mk uuid dragged (Math_round (startTime * 10) / 10)
          (or_default (VideoClip.duration dragged) 3) tr in
      setIsDragging false
        (setDraggedClip None (setTimelineClips (timelineClips s ++ [newClip]) s))
  | _, _ => setDraggedClip None (setIsDragging false s)
  end.

(** [timelineClips.find((c) => c.id === clipId)] *)
Definition findClip (clipId : string) (clips : list TimelineClip.t) : option TimelineClip.t :=
  List.find (fun c => String.eqb (TimelineClip.id c) clipId) clips.

(** [handleClipClick] is defined in the component, but no element of the
    JSX calls it: a placement has [onMouseDown] only.  It stays among the
    events, which can only widen the set of reachable states. *)
Definition handleClipClick (clipId : string) (s : EditorState) : EditorState :=
  let s' := setSelectedClip (Some clipId) s in
  match findClip clipId (timelineClips s) with
  | Some clip => setCurrentTime (TimelineClip.startTime clip) s'
  | None => s'
  end.

Definition handleClipMouseDown (ref : option TimelineRef) (clientX : Q)
    (clipId : string) (clipStartTime : Q) (s : EditorState) : EditorState :=
  match ref with
  | None => s
  | Some r =>
      let clickX := clientX - rect_left r + scrollLeftOf r - TRACK_LABEL_WIDTH in
      let clipPixelPosition := clipStartTime * PIXEL_PER_SECOND s in
      setIsPlaying false
        (setSelectedClip (Some clipId)
           (setDraggingClipId (Some clipId)
              (setIsDraggingTimelineClip true
                 (setDragOffset (clickX - clipPixelPosition) s))))
  end.

(** [!!id] for an id that may be [null]: [null] and the empty string are
    falsy. *)
Definition truthy (o : option string) : bool :=
  match o with
  | Some v => negb (String.eqb v "")
  | None => false
  end.

(** The local [newStartTime] of the placement-drag [mousemove] handler. *)
Definition dragTime (r : TimelineRef) (clientX : Q) (s : EditorState) : Q :=
  let x := clientX - rect_left r + scrollLeftOf r - TRACK_LABEL_WIDTH - dragOffset s in
  Qmax 0 (x / PIXEL_PER_SECOND s).

(** The [mousemove] handler of the placement drag (lines 318-335); the
    effect installs it only while a placement is being dragged. *)
Definition clipDragMove (ref : option TimelineRef) (clientX : Q)
    (s : EditorState) : EditorState :=
  if negb (isDraggingTimelineClip s) || negb (truthy (draggingClipId s)) then s
  else
    match draggingClipId s, ref with
    | Some dragging, Some r =>
        let newStartTime := dragTime r clientX s in
        setTimelineClips
          (List.map
             (fun clip =>
                if String.eqb (TimelineClip.id clip) dragging
                then TimelineClip.with_startTime (Math_round (newStartTime * 10) / 10) clip
                else clip)
             (timelineClips s))
          s
    | _, _ => s
    end.

(** The [mouseup] handler the same effect installs. *)
Definition clipDragUp (s : EditorState) : EditorState :=
  if negb (isDraggingTimelineClip s) || negb (truthy (draggingClipId s)) then s
  else setDragOffset 0 (setDraggingClipId None (setIsDraggingTimelineClip false s)).

Definition handleDeleteClip (clipId : string) (s : EditorState) : EditorState :=
  let s' :=
    setTimelineClips
      (List.filter (fun c => negb (String.eqb (TimelineClip.id c) clipId)) (timelineClips s)) s in
  match selectedClip s with
  | Some sel => if String.eqb sel clipId then setSelectedClip None s' else s'
  | None => s'
  end.

(** The local [time] of [handleTimelineClick] and of the playhead drag. *)
Definition clickTime (r : TimelineRef) (clientX : Q) (s : EditorState) : Q :=
  let x := clientX - rect_left r + scrollLeftOf r - TRACK_LABEL_WIDTH in
  Qmax 0 (x / PIXEL_PER_SECOND s).

Definition handleTimelineClick (ref : option TimelineRef) (clientX : Q)
    (s : EditorState) : EditorState :=
  if isDraggingPlayhead s || isDraggingTimelineClip s then s
  else
    match ref with
    | None => s
    | Some r => setIsPlaying false (setCurrentTime (clickTime r clientX s) s)
    end.

Definition handlePlayheadMouseDown (s : EditorState) : EditorState :=
  setIsPlaying false (setIsDraggingPlayhead true s).

(** The [mousemove] handler of the playhead drag (lines 389-404). *)
Definition playheadMove (ref : option TimelineRef) (clientX : Q)
    (s : EditorState) : EditorState :=
  match isDraggingPlayhead s, ref with
  | true, Some r =>
      let time := clickTime r clientX s in
      let maxTime := Math_max_with (List.map clipEnd (timelineClips s)) 45 in
      setCurrentTime (Qmin time maxTime) s
  | _, _ => s
  end.

Definition playheadUp (s : EditorState) : EditorState :=
  if isDraggingPlayhead s then setIsDraggingPlayhead false s else s.

Definition togglePlayPause (s : EditorState) : EditorState :=
  setIsPlaying (negb (isPlaying s)) s.

Definition handleZoomIn (s : EditorState) : EditorState :=
  setZoom (Qmin (zoom s + (1 # 4)) 3) s.

Definition handleZoomOut (s : EditorState) : EditorState :=
  setZoom (Qmax (zoom s - (1 # 4)) (1 # 2)) s.

(** [onClick={() => setCurrentTime(Math.max(0, currentTime - 5))}] *)
Definition skipBack (s : EditorState) : EditorState :=
  setCurrentTime (Qmax 0 (currentTime s - 5)) s.

(** [onClick={() => setCurrentTime(currentTime + 5)}] *)
Definition skipForward (s : EditorState) : EditorState :=
  setCurrentTime (currentTime s + 5) s.

(** Everything that can happen to the editor between two renders. *)
Inductive Event :=
| Tick
| ARollProp (aRoll : option VideoClip.t) (uuid : string)
| BRollsProp (initialBRolls : list VideoClip.t)
| FileUpload (newClips : list VideoClip.t)
| RemoveBRoll (clipId : string)
| DragStart (clip : VideoClip.t)
| Drop (ref : option TimelineRef) (clientX : Q) (tr : Track) (uuid : string)
| ClipClick (clipId : string)
| ClipMouseDown (ref : option TimelineRef) (clientX : Q) (clipId : string) (clipStartTime : Q)
| ClipDragMove (ref : option TimelineRef) (clientX : Q)
| ClipDragUp
| DeleteClip (clipId : string)
| TimelineClick (ref : option TimelineRef) (clientX : Q)
| PlayheadMouseDown
| PlayheadMove (ref : option TimelineRef) (clientX : Q)
| PlayheadUp
| TogglePlayPause
| ZoomIn
| ZoomOut
| SkipBack
| SkipForward.

Definition step (s : EditorState) (ev : Event) : EditorState :=
  match ev with
  | Tick => if isPlaying s then tick s else s
  | ARollProp aRoll uuid => aRollEffect aRoll uuid s
  | BRollsProp initialBRolls => bRollsEffect initialBRolls s
  | FileUpload newClips => handleFileUpload newClips s
  | RemoveBRoll clipId => handleRemoveBRoll clipId s
  | DragStart clip => handleDragStart clip s
  | Drop ref x tr uuid => handleDrop ref x tr uuid s
  | ClipClick clipId => handleClipClick clipId s
  | ClipMouseDown ref x clipId t0 => handleClipMouseDown ref x clipId t0 s
  | ClipDragMove ref x => clipDragMove ref x s
  | ClipDragUp => clipDragUp s
  | DeleteClip clipId => handleDeleteClip clipId s
  | TimelineClick ref x => handleTimelineClick ref x s
  | PlayheadMouseDown => handlePlayheadMouseDown s
  | PlayheadMove ref x => playheadMove ref x s
  | PlayheadUp => playheadUp s
  | TogglePlayPause => togglePlayPause s
  | ZoomIn => handleZoomIn s
  | ZoomOut => handleZoomOut s
  | SkipBack => skipBack s
  | SkipForward => skipForward s
  end.

Definition run (s : EditorState) (evs : list Event) : EditorState :=
  List.fold_left step evs s.

(** The states the editor can be in. *)
Inductive reachable (initialBRolls : list VideoClip.t) : EditorState -> Prop :=
| reachable_init : reachable initialBRolls (initialState initialBRolls)
| reachable_step s ev :
    reachable initialBRolls s -> reachable initialBRolls (step s ev).

(** ** Preview resolver and playback synchronizer (lines 136-159) *)

Definition activeClips (clips : list TimelineClip.t) (currentTime : Q) : list TimelineClip.t :=
  List.filter (isActiveAt currentTime) clips.

(** [activeClips.find((c) => c.track === "b-roll") || activeClips[0]] *)
Definition activeClip (clips : list TimelineClip.t) (currentTime : Q) : option TimelineClip.t :=
  let active := activeClips clips currentTime in
  match List.find (onTrack b_roll) active with
  | Some c => Some c
  | None => List.hd_error active
  end.

(** The calls the effect makes on the one preview [<video>] element, in
    the order it makes them. *)
Inductive VideoCall :=
| SetSrc (u : string)
| SetCurrentTime (t : Q)
| Play
| Pause.

(** [videoRef] is the current [src] of the element, or [None] while the
    element is not mounted. *)
Definition syncEffect (videoRef : option string) (s : EditorState) : list VideoCall :=
  match videoRef with
  | None => []
  | Some src =>
      match activeClip (timelineClips s) (currentTime s) with
      | Some clip =>
          let clipTime := currentTime s - TimelineClip.startTime clip in
          (if negb (String.eqb src (clipUrl clip)) then [SetSrc (clipUrl clip)] else [])
          ++ [SetCurrentTime clipTime]
          ++ (if isPlaying s then [Play] else [])
      | None => []
      end
  end.

(** The synchronizer as the specification words it: swap the source when
    it differs, seek to the in-clip offset, then play or pause. *)
Definition spec_syncEffect (src : string) (clip : TimelineClip.t)
    (currentTime : Q) (isPlaying : bool) : list VideoCall :=
  (if String.eqb src (clipUrl clip) then [] else [SetSrc (clipUrl clip)])
  ++ [SetCurrentTime (currentTime - TimelineClip.startTime clip)]
  ++ [if isPlaying then Play else Pause].

(** ** Strategy A: canvas frame capture ([timelineExport.ts]) *)

Module StrategyA.

Definition CANVAS_WIDTH : Q := 1080.
Definition CANVAS_HEIGHT : Q := 1920.
Definition FPS : Q := 30.

Inductive ExportError :=
| CouldNotCreateCanvasContext
| NoARollFound.

(** [(a, b) => a.startTime - b.startTime] *)
Definition byStartTime (a b : TimelineClip.t) : Q :=
  TimelineClip.startTime a - TimelineClip.startTime b.

(** What the render loop closes over.  [bRollVideos] maps a placement id to
    the [src] of the [<video>] element preloaded for it. *)
Record RenderContext := mkRenderContext {
  totalDuration : JSMax;
  aRollClip : TimelineClip.t;
  bRollClips : list TimelineClip.t;
  bRollVideos : gmap string string
}.

(** The [for (const clip of bRollClips)] preload loop. *)
Definition preload (clips : list TimelineClip.t) : gmap string string :=
  List.fold_left (fun videos clip => <[TimelineClip.id clip := clipUrl clip]> videos)
    clips ∅.

(** [exportTimeline] up to the start of the render loop.  [ctx] tells
    whether the canvas gave a 2d context; media loading is taken to succeed. *)
Definition prepare (ctx : bool) (timeline : list TimelineClip.t)
  : ExportError + RenderContext :=
  let sortedTimeline := JSArray.sort byStartTime timeline in
  let totalDuration := Math_max (List.map clipEnd sortedTimeline) in
  if negb ctx then inl CouldNotCreateCanvasContext
  else
    match List.find (onTrack a_roll) sortedTimeline with
    | None => inl NoARollFound
    | Some aRollClip =>
        let bRollClips := List.filter (onTrack b_roll) sortedTimeline in
        inr (mkRenderContext totalDuration aRollClip bRollClips (preload bRollClips))
    end.

(** What one pass of [renderFrame] draws over the black canvas: the element
    with source [src], after seeking it to [seek]. *)
Inductive Drawn :=
| DrawVideo (src : string) (seek : Q)
| DrawNothing.

Definition renderFrame (rc : RenderContext) (currentTime : Q) : Drawn :=
  match List.find (isActiveAt currentTime) (bRollClips rc) with
  | Some activeBRoll =>
      match bRollVideos rc !! TimelineClip.id activeBRoll with
      | Some bRollVideo =>
          DrawVideo bRollVideo (currentTime - TimelineClip.startTime activeBRoll)
      | None => DrawNothing
      end
  | None => DrawVideo (clipUrl (aRollClip rc)) currentTime
  end.

(** The render loop: one frame every [1 / FPS] seconds of virtual time
    until [currentTime >= totalDuration].  [fuel] bounds the number of
    animation frames; [None] means it ran out.  [currentTime += frameDuration]
    is the exact sum here; the source accumulates the double nearest to 1/30,
    so its frame times are the multiples of 1/30 up to rounding and the loop
    can run one frame longer than the exact count. *)
Fixpoint render (fuel : nat) (rc : RenderContext) (currentTime : Q)
  : option (list (Q * Drawn)) :=
  match fuel with
  | O => None
  | S fuel' =>
      if ge_max currentTime (totalDuration rc) then Some []
      else
        match render fuel' rc (currentTime + 1 / FPS) with
        | Some frames => Some ((currentTime, renderFrame rc currentTime) :: frames)
        | None => None
        end
  end.

(** Where [drawVideoToCanvas] puts a [vW] x [vH] video; [None] when it
    returns without drawing. *)
Record DrawRect := mkDrawRect { offsetX : Q; offsetY : Q; drawW : Q; drawH : Q }.

Definition drawVideoToCanvas (vW vH canvasWidth canvasHeight : Q) : option DrawRect :=
  if Qeq_bool vW 0 || Qeq_bool vH 0 then None
  else
    let vRatio := vW / vH in
    let canvasRatio := canvasWidth / canvasHeight in
    if Qlt_bool canvasRatio vRatio
    then
      let drawW := canvasWidth in
      let drawH := canvasWidth / vRatio in
      Some (mkDrawRect 0 ((canvasHeight - drawH) / 2) drawW drawH)
    else
      let drawH := canvasHeight in
      let drawW := canvasHeight * vRatio in
      Some (mkDrawRect ((canvasWidth - drawW) / 2) 0 drawW drawH).

End StrategyA.

(** ** Strategy B: the ffmpeg command of [handleExport] (lines 431-581) *)

Module StrategyB.

Local Open Scope string_scope.
Local Open Scope list_scope.
Local Open Scope Q_scope.

(** [${idx}] for an array index or a length. *)
Definition index_toString (n : nat) : string := NilZero.string_of_uint (Nat.to_uint n).

(** [array.forEach((x, idx) => ...)] as a fold over the captured variables. *)
Fixpoint forEachFrom {A St : Type} (f : St -> A -> nat -> St) (idx : nat)
    (l : list A) (s : St) : St :=
  match l with
  | [] => s
  | x :: xs => forEachFrom f (S idx) xs (f s x idx)
  end.

Definition forEach {A St : Type} (f : St -> A -> nat -> St) (l : list A) (s : St) : St :=
  forEachFrom f O l s.

(** [array.map((x, idx) => ...)] *)
Fixpoint mapFrom {A B : Type} (f : A -> nat -> B) (idx : nat) (l : list A) : list B :=
  match l with
  | [] => []
  | x :: xs => f x idx :: mapFrom f (S idx) xs
  end.

(** [s.slice(0, -1)] *)
Definition dropLast (s : string) : string :=
  String.substring O (String.length s - 1) s.

(** The sort comparator: a-roll before b-roll, then by start time. *)
Definition byTrackThenStart (a b : TimelineClip.t) : Q :=
  if negb (Track_eqb (TimelineClip.track a) (TimelineClip.track b))
  then (if Track_eqb (TimelineClip.track a) a_roll then -1 else 1)
  else TimelineClip.startTime a - TimelineClip.startTime b.

Definition sorted (timelineClips : list TimelineClip.t) : list TimelineClip.t :=
  JSArray.sort byTrackThenStart timelineClips.

Definition aRollClips (timelineClips : list TimelineClip.t) : list TimelineClip.t :=
  List.filter (onTrack a_roll) (sorted timelineClips).

Definition bRollClips (timelineClips : list TimelineClip.t) : list TimelineClip.t :=
  List.filter (onTrack b_roll) (sorted timelineClips).

(** [Math.max(...sorted.map((c) => c.startTime + c.duration), 0)] *)
Definition totalDuration (timelineClips : list TimelineClip.t) : Q :=
  Math_max_with (List.map clipEnd (sorted timelineClips)) 0.

(** The loop that writes each distinct source once into the encoder's file
    system: the file map and the next file index after it. *)
Definition writeFiles (clips : list TimelineClip.t) : gmap string string * nat :=
  List.fold_left
    (fun '(fileMap, fileIndex) clip =>
       match fileMap !! clipUrl clip with
       | Some _ => (fileMap, fileIndex)
       | None =>
           let fileName := "input" +:+ index_toString fileIndex +:+ ".mp4" in
           (<[clipUrl clip := fileName]> fileMap, S fileIndex)
       end)
    clips (∅, O).

(** [fileMap.get(url)!] *)
Definition fileOf (fileMap : gmap string string) (clip : TimelineClip.t) : string :=
  default "undefined" (fileMap !! clipUrl clip).

Definition scalePad : string :=
  "scale=1080:1920:force_original_aspect_ratio=decrease,pad=1080:1920:(ow-iw)/2:(oh-ih)/2".

(** What the outcome of an export run is: an alert and no further work, or
    one call of [ffmpeg.exec] with these arguments. *)
Inductive Outcome :=
| Alert (message : string)
| Exec (args : list string).

Section Command.

(** [Number.prototype.toString], as the template literals and
    [totalDuration.toString()] use it. *)
Variable Number_toString : Q -> string.

(** The captured variables of the two graph-building loops. *)
Record Graph := mkGraph {
  inputs : list string;
  filterComplex : string;
  currentOutput : string
}.

(** The a-roll branch: the first a-roll clip is the base, every b-roll clip
    is overlaid while [between(t, start, start + duration)]. *)
Definition overlayGraph (fileMap : gmap string string) (aRollClip : TimelineClip.t)
    (bRollClips : list TimelineClip.t) : Graph :=
  let aRollFile := fileOf fileMap aRollClip in
  let g0 :=
    mkGraph ["-i"; aRollFile]
      ("[0:v]" +:+ scalePad +:+ ",setpts=PTS-STARTPTS[base];")
      "[base]" in
  let g :=
    forEach
      (fun g bClip idx =>
         let bRollFile := fileOf fileMap bClip in
         let inputIndex := (List.length (inputs g) / 2)%nat in
         let inputs' := inputs g ++ ["-i"; bRollFile] in
         let nextOutput :=
           if Nat.eqb idx (List.length bRollClips - 1)
           then "out" else "tmp" +:+ index_toString idx in
         let fc1 :=
           filterComplex g +:+ "[" +:+ index_toString inputIndex +:+ ":v]" +:+ scalePad
           +:+ ",setpts=PTS-STARTPTS+" +:+ Number_toString (TimelineClip.startTime bClip)
           +:+ "/TB[b" +:+ index_toString idx +:+ "];" in
         let fc2 :=
           fc1 +:+ currentOutput g +:+ "[b" +:+ index_toString idx
           +:+ "]overlay=enable='between(t,"
           +:+ Number_toString (TimelineClip.startTime bClip) +:+ ","
           +:+ Number_toString (TimelineClip.startTime bClip + TimelineClip.duration bClip)
           +:+ ")'[" +:+ nextOutput +:+ "];" in
         mkGraph inputs' fc2 ("[" +:+ nextOutput +:+ "]"))
      bRollClips g0 in
  mkGraph (inputs g) (dropLast (filterComplex g)) (currentOutput g).

(** The branch without a-roll: the b-roll inputs, concatenated. *)
Definition concatGraph (fileMap : gmap string string)
    (bRollClips : list TimelineClip.t) : Graph :=
  let g :=
    forEach
      (fun g clip idx =>
         let file := fileOf fileMap clip in
         mkGraph (inputs g ++ ["-i"; file])
           (filterComplex g +:+ "[" +:+ index_toString idx +:+ ":v]" +:+ scalePad
            +:+ "[v" +:+ index_toString idx +:+ "];")
           (currentOutput g))
      bRollClips (mkGraph [] "" "") in
  mkGraph (inputs g)
    (filterComplex g
     +:+ String.concat "" (mapFrom (fun _ idx => "[v" +:+ index_toString idx +:+ "]") O bRollClips)
     +:+ "concat=n=" +:+ index_toString (List.length bRollClips) +:+ ":v=1:a=0[out]")
    (currentOutput g).

Definition buildGraph (timelineClips : list TimelineClip.t) : Graph :=
  let fileMap := fst (writeFiles (sorted timelineClips)) in
  match aRollClips timelineClips with
  | aRollClip :: _ => overlayGraph fileMap aRollClip (bRollClips timelineClips)
  | [] => concatGraph fileMap (bRollClips timelineClips)
  end.

(** The argument vector of [ffmpeg.exec]. *)
Definition execArgs (g : Graph) (totalDuration : Q) : list string :=
  inputs g
  ++ ["-filter_complex"; filterComplex g; "-map"; "[out]"; "-c:v"; "libx264";
      "-preset"; "medium"; "-crf"; "23"; "-pix_fmt"; "yuv420p"; "-r"; "30";
      "-t"; Number_toString totalDuration; "output.mp4"].

(** [handleExport], with every fetch and write taken to succeed. *)
Definition handleExport (ffmpegLoaded : bool) (timelineClips : list TimelineClip.t)
  : Outcome :=
  match timelineClips with
  | [] => Alert "No clips on timeline to export"
  | _ :: _ =>
      if negb ffmpegLoaded
      then Alert "FFmpeg is still loading. Please wait a moment and try again."
      else Exec (execArgs (buildGraph timelineClips) (totalDuration timelineClips))
  end.

End Command.

(** A rendering of numbers for concrete runs: the decimal expansion of the
    rational, cut after sixteen fractional digits.  It is not
    [Number.prototype.toString]: it agrees with it on the integers, the only
    values the concrete runs below print, and on doubles with a short decimal
    form ([2.5], [0.1]), but not on the result of a rounded operation
    ([0.1 + 0.2] prints as [0.30000000000000004] in JavaScript).  The
    theorems about the command hold for any [Number_toString]. *)
Fixpoint fraction_digits (fuel : nat) (num den : Z) : string :=
  match fuel with
  | O => ""
  | S fuel' =>
      if (num =? 0)%Z then ""
      else
        NilZero.string_of_uint (N.to_uint (Z.to_N ((num * 10) / den)))
        +:+ fraction_digits fuel' ((num * 10) mod den)%Z den
  end.

Definition decimal_toString (q : Q) : string :=
  let n := Z.abs (Qnum q) in
  let d := Zpos (Qden q) in
  let whole := NilZero.string_of_uint (N.to_uint (Z.to_N (n / d))) in
  let frac := fraction_digits 16 (n mod d)%Z d in
  (if (Qnum q <? 0)%Z then "-" else "")
  +:+ whole +:+ (if String.eqb frac "" then "" else "." +:+ frac).

End StrategyB.

(** ** Predicates the statements use *)

(** A start time on the 0.1-second grid. *)
Definition onTenthGrid (c : TimelineClip.t) : Prop :=
  exists k : Z, TimelineClip.startTime c == inject_Z k / 10.

(** The drag conversion rule as the specification words it:
    [max(0, (pointerX - trackLabelWidth + scrollOffset) / pixelsPerSecond)]
    with [pixelsPerSecond = basePixelsPerSecond * zoom]. *)
Definition spec_dragTime (pointerX scrollOffset basePixelsPerSecond zoom : Q) : Q :=
  Qmax 0 ((pointerX - TRACK_LABEL_WIDTH + scrollOffset) / (basePixelsPerSecond * zoom)).

(** [max(startTime + duration)] over the placements, for a timeline that
    has one. *)
Definition isMaxEnd (clips : list TimelineClip.t) (m : Q) : Prop :=
  (exists c, In c clips /\ m == clipEnd c) /\ (forall c, In c clips -> clipEnd c <= m).

(** The bound the playback tick compares with:
    [Math.max(...timelineClips.map((c) => c.startTime + c.duration), 0)]. *)
Definition contentEnd (clips : list TimelineClip.t) : Q :=
  Math_max_with (List.map clipEnd clips) 0.

(** [n] ticks of the 100 ms interval. *)
Definition ticks (n : nat) (s : EditorState) : EditorState := run s (List.repeat Tick n).

(** Playback from [s] runs for [n] ticks: each tick but the last finds the
    clock below the end of the content and moves it forward, the last one
    finds it at or past that end and stops; nothing changes afterwards.  The
    predicate speaks of the comparisons the ticks make, not of the number of
    ticks or of the exact clock values, which in the source depend on the
    rounding of the repeated [prev + 0.1]. *)
Definition playsOut (s : EditorState) (n : nat) : Prop :=
  (forall k, (k < n)%nat ->
     isPlaying (ticks k s) = true /\ timelineClips (ticks k s) = timelineClips s)
  /\ (forall k, (S k < n)%nat ->
        currentTime (ticks k s) < contentEnd (timelineClips s)
        /\ currentTime (ticks k s) < currentTime (ticks (S k) s))
  /\ (forall k, (S k = n)%nat -> contentEnd (timelineClips s) <= currentTime (ticks k s))
  /\ isPlaying (ticks n s) = false
  /\ currentTime (ticks n s) = 0
  /\ (forall m, (n <= m)%nat -> ticks m s = ticks n s).

(** The lower half of the transport invariant, with what it rests on: no
    placement starts before 0. *)
Definition nonnegTimes (s : EditorState) : Prop :=
  0 <= currentTime s
  /\ Forall (fun c => 0 <= TimelineClip.startTime c) (timelineClips s).

(** Straight concatenation as the specification words it: one input per
    placement in the given order, each scaled and padded to the output frame
    under its own label, the labels concatenated in that order. *)
Definition spec_concatGraph (fileMap : gmap string string)
    (ordered : list TimelineClip.t) : StrategyB.Graph :=
  StrategyB.mkGraph
    (List.flat_map (fun c => ["-i"; StrategyB.fileOf fileMap c]%string) ordered)
    (String.concat ""
       (StrategyB.mapFrom
          (fun _ idx =>
             "[" +:+ StrategyB.index_toString idx +:+ ":v]" +:+ StrategyB.scalePad
             +:+ "[v" +:+ StrategyB.index_toString idx +:+ "];")%string
          O ordered)
     +:+ String.concat ""
           (StrategyB.mapFrom
              (fun _ idx => "[v" +:+ StrategyB.index_toString idx +:+ "]")%string O ordered)
     +:+ "concat=n=" +:+ StrategyB.index_toString (List.length ordered)
     +:+ ":v=1:a=0[out]")%string
    ""%string.

(** Ascending start times. *)
Definition startsInOrder (clips : list TimelineClip.t) : Prop :=
  StronglySorted (fun x y => TimelineClip.startTime x <= TimelineClip.startTime y) clips.

(** Sample media and placements for concrete runs. *)
Definition sampleVideo (name : string) (d : Q) : VideoClip.t :=
  VideoClip.mk name ("blob:" +:+ name) None name (Some d) upload None 0.

Definition place (pid : string) (v : VideoClip.t) (start dur : Q) (tr : Track)
  : TimelineClip.t :=
  TimelineClip.mk pid v start dur tr.

(** ** Layout (the [style] expressions of the JSX, lines 818-993) *)

(** [left: clip.startTime * PIXEL_PER_SECOND] of a placement, measured from
    the end of the track label. *)
Definition clipLeft (s : EditorState) (clip : TimelineClip.t) : Q :=
  TimelineClip.startTime clip * PIXEL_PER_SECOND s.

(** [width: clip.duration * PIXEL_PER_SECOND] *)
Definition clipWidth (s : EditorState) (clip : TimelineClip.t) : Q :=
  TimelineClip.duration clip * PIXEL_PER_SECOND s.

(** [left: currentTime * PIXEL_PER_SECOND + TRACK_LABEL_WIDTH] of the
    playhead, measured from the left edge of the tracks container. *)
Definition playheadLeft (s : EditorState) : Q :=
  currentTime s * PIXEL_PER_SECOND s + TRACK_LABEL_WIDTH.

(** The x-coordinate of the pointer inside the tracks container, as every
    handler computes it before it subtracts the label width. *)
Definition containerX (r : TimelineRef) (clientX : Q) : Q :=
  clientX - rect_left r + scrollLeftOf r.

(** [Array.from({ length: Math.ceil(totalDuration / 5) + 1 }, (_, i) => i * 5)],
    the seconds the time ruler labels. *)
Definition rulerMarks (s : EditorState) : list Q :=
  List.map (fun i => inject_Z (Z.of_nat i) * 5)
    (List.seq O (Z.to_nat (Qceiling (totalDuration (timelineClips s) / 5) + 1))).

(** An event that creates a placement brings an id no placement has yet
    ([crypto.randomUUID()]). *)
Definition freshEvent (s : EditorState) (ev : Event) : Prop :=
  match ev with
  | Drop _ _ _ uuid | ARollProp _ uuid =>
      ~ In uuid (List.map TimelineClip.id (timelineClips s))
  | _ => True
  end.

(** What a placement drag must leave alone: everything but the start time. *)
Definition sameButStart (old new : TimelineClip.t) : Prop :=
  TimelineClip.id new = TimelineClip.id old
  /\ TimelineClip.videoClip new = TimelineClip.videoClip old
  /\ TimelineClip.duration new = TimelineClip.duration old
  /\ TimelineClip.track new = TimelineClip.track old.

(** ** The preview element and the export loop, observed *)

(** The [src] of the preview element after the calls of one run of the
    effect. *)
Definition elementSrc (src : string) (calls : list VideoCall) : string :=
  List.fold_left (fun cur call => match call with SetSrc u => u | _ => cur end) calls src.

(** The frames a run of the render loop yields when started at [t] with
    total duration [q], in exact arithmetic: one per step of [1 / FPS] while
    [t < q], each drawn by [renderFrame] at its own time, and none once
    [q <= t]. *)
Fixpoint framesFrom (rc : StrategyA.RenderContext) (q t : Q)
    (frames : list (Q * StrategyA.Drawn)) : Prop :=
  match frames with
  | [] => q <= t
  | (t', d) :: rest =>
      t' = t /\ t < q /\ d = StrategyA.renderFrame rc t
      /\ framesFrom rc q (t + 1 / StrategyA.FPS) rest
  end.

(** What a run of the loop leaves behind whatever the rounding of the
    accumulated frame time: every frame was drawn by [renderFrame] at its own
    time, a time that is not negative and lies before the total duration [q],
    and the frame times increase. *)
Definition framesWithin (rc : StrategyA.RenderContext) (q : Q)
    (frames : list (Q * StrategyA.Drawn)) : Prop :=
  Forall (fun f => 0 <= fst f /\ fst f < q /\ snd f = StrategyA.renderFrame rc (fst f)) frames
  /\ StronglySorted (fun f g => fst f < fst g) frames.

(** [Math.round((currentTime / totalDuration) * 100)], the argument of
    [onProgress] ([timelineExport.ts], lines 94-96). *)
Definition progressAt (totalDuration currentTime : Q) : Q :=
  Math_round (currentTime / totalDuration * 100).

(** ** The encoder's file system ([TimelineEditor.tsx], lines 465-477) *)

(** One pass of the [for (const clip of sorted)] loop, with its call of
    [ffmpeg.writeFile] recorded: the file map, the next file index, and the
    (file name, source URL) pairs written so far, oldest first. *)
Definition writeStep (acc : gmap string string * nat * list (string * string))
    (clip : TimelineClip.t) : gmap string string * nat * list (string * string) :=
  let '(fileMap, fileIndex, written) := acc in
  match fileMap !! clipUrl clip with
  | Some _ => (fileMap, fileIndex, written)
  | None =>
      let fileName := ("input" +:+ StrategyB.index_toString fileIndex +:+ ".mp4")%string in
      (<[clipUrl clip := fileName]> fileMap, S fileIndex, written ++ [(fileName, clipUrl clip)])
  end.

Definition writeFilesLog (clips : list TimelineClip.t)
  : gmap string string * nat * list (string * string) :=
  List.fold_left writeStep clips (∅, O, []).

(** [input${k}.mp4] *)
Definition inputFile (k : nat) : string :=
  ("input" +:+ StrategyB.index_toString k +:+ ".mp4")%string.

(** ** The overlay graph in closed form *)

(** The label the [idx]-th of [n] overlays writes. *)
Definition overlayOut (n idx : nat) : string :=
  if Nat.eqb idx (n - 1) then "out"%string
  else ("tmp" +:+ StrategyB.index_toString idx)%string.

(** The label the [idx]-th overlay reads as its base: [base] for the first,
    the output of the one before for the others. *)
Definition overlayIn (n idx : nat) : string :=
  match idx with
  | O => "[base]"%string
  | S i => ("[" +:+ overlayOut n i +:+ "]")%string
  end.

Section OverlaySpec.
Variable Number_toString : Q -> string.

(** The two filter chains of the [idx]-th b-roll placement: input [idx + 1]
    scaled, padded and shifted to its start time, then overlaid between its
    start and its end. *)
Definition overlayChains (n : nat) (bClip : TimelineClip.t) (idx : nat) : string :=
  (("[" +:+ StrategyB.index_toString (S idx) +:+ ":v]" +:+ StrategyB.scalePad
    +:+ ",setpts=PTS-STARTPTS+" +:+ Number_toString (TimelineClip.startTime bClip)
    +:+ "/TB[b" +:+ StrategyB.index_toString idx +:+ "];")
   +:+ overlayIn n idx +:+ "[b" +:+ StrategyB.index_toString idx
   +:+ "]overlay=enable='between(t,"
   +:+ Number_toString (TimelineClip.startTime bClip) +:+ ","
   +:+ Number_toString (TimelineClip.startTime bClip + TimelineClip.duration bClip)
   +:+ ")'[" +:+ overlayOut n idx +:+ "];")%string.

Definition spec_overlayGraph (fileMap : gmap string string) (aRollClip : TimelineClip.t)
    (bRollClips : list TimelineClip.t) : StrategyB.Graph :=
  StrategyB.mkGraph
    (["-i"; StrategyB.fileOf fileMap aRollClip]%string
     ++ List.flat_map (fun b => ["-i"; StrategyB.fileOf fileMap b]%string) bRollClips)
    (StrategyB.dropLast
       (("[0:v]" +:+ StrategyB.scalePad +:+ ",setpts=PTS-STARTPTS[base];")
        +:+ String.concat ""
              (StrategyB.mapFrom (overlayChains (List.length bRollClips)) O bRollClips))%string)
    (overlayIn (List.length bRollClips) (List.length bRollClips)).

End OverlaySpec.

(** ** What the encoder is asked to show

    [handleExport] hands ffmpeg its composite as text.  What the filters
    named in that text do is ffmpeg's business, not this repository's; it is
    written down here after ffmpeg's documentation of [scale], [pad],
    [setpts], [overlay], the [enable] option and the [between] function of its
    expressions, for the one shape of graph the a-roll branch prints, and in
    exact arithmetic (ffmpeg itself rounds sizes and offsets to whole
    pixels). *)

Module Ffmpeg.

(** One b-roll chain of the overlay branch, as the text states it: the
    file of its input, the shift of [setpts=PTS-STARTPTS+shift/TB], and the
    two bounds of [enable='between(t,enableFrom,enableTo)']. *)
Record Layer := mkLayer {
  file : string;
  shift : Q;
  enableFrom : Q;
  enableTo : Q
}.

(** A whole graph of that shape: the file of input 0, which becomes the
    stream [base], and the chains of the inputs 1, 2, ... in their order. *)
Record Composite := mkComposite {
  baseFile : string;
  layers : list Layer
}.

Section Text.

(** The printing of numbers in the text; ffmpeg reads the numbers back. *)
Variable Number_toString : Q -> string.

(** The two filter chains of the [idx]-th of [n] layers. *)
Definition layerChains (n : nat) (l : Layer) (idx : nat) : string :=
  (("[" +:+ StrategyB.index_toString (S idx) +:+ ":v]" +:+ StrategyB.scalePad
    +:+ ",setpts=PTS-STARTPTS+" +:+ Number_toString (shift l)
    +:+ "/TB[b" +:+ StrategyB.index_toString idx +:+ "];")
   +:+ overlayIn n idx +:+ "[b" +:+ StrategyB.index_toString idx
   +:+ "]overlay=enable='between(t,"
   +:+ Number_toString (enableFrom l) +:+ ","
   +:+ Number_toString (enableTo l)
   +:+ ")'[" +:+ overlayOut n idx +:+ "];")%string.

(** The inputs and the filter graph that state a composite. *)
Definition graph (c : Composite) : StrategyB.Graph :=
  StrategyB.mkGraph
    (["-i"; baseFile c]%string
     ++ List.flat_map (fun l => ["-i"; file l]%string) (layers c))
    (StrategyB.dropLast
       (("[0:v]" +:+ StrategyB.scalePad +:+ ",setpts=PTS-STARTPTS[base];")
        +:+ String.concat ""
              (StrategyB.mapFrom (layerChains (List.length (layers c))) O (layers c)))%string)
    (overlayIn (List.length (layers c)) (List.length (layers c))).

End Text.

(** [between(x, min, max)]: 1 if [min <= x <= max], else 0. *)
Definition between (x lo hi : Q) : bool := Qle_bool lo x && Qle_bool x hi.

(** One [overlay] at output time [t].  While its [enable] expression holds
    it draws its second input over its first; that input was padded to the
    full frame, so it covers what was shown, and [setpts] has moved its first
    frame to [shift], so the frame drawn is the one at [t - shift] of the
    file.  While the expression does not hold the filter passes its first
    input through. *)
Definition over (t : Q) (shown : string * Q) (l : Layer) : string * Q :=
  if between t (enableFrom l) (enableTo l) then (file l, t - shift l) else shown.




End Ffmpeg.




(** ** Display ([TimelineEditor.tsx], lines 583-588) *)

Module Display.

(** Rounding toward zero, the integer part [%] works with. *)
Definition Qtrunc (x : Q) : Z := if Qle_bool 0 x then Qfloor x else Qceiling x.

(** [a % n] on numbers: the remainder takes the sign of [a]. *)
Definition rem (a n : Q) : Q := a - n * inject_Z (Qtrunc (a / n)).

(** [${z}] for an integer. *)
Definition integer_toString (z : Z) : string := NilZero.string_of_int (Z.to_int z).

(** [s.padStart(target, "0")] *)
Definition padStart0 (target : nat) (s : string) : string :=
  (String.concat "" (List.repeat "0" (target - String.length s)) +:+ s)%string.

(** The three local constants of [formatTime], in exact arithmetic.  In the
    source the product [(seconds % 1) * 10] is rounded to a double before
    [Math.floor], so a time within a rounding error below a tenth can show
    the next digit. *)
Definition timeFields (seconds : Q) : Z * Z * Z :=
  let mins := Qfloor (seconds / 60) in
  let secs := Qfloor (rem seconds 60) in
  let ms := Qfloor (rem seconds 1 * 10) in
  (mins, secs, ms).

Definition formatTime (seconds : Q) : string :=
  let '(mins, secs, ms) := timeFields seconds in
  (integer_toString mins +:+ ":" +:+ padStart0 2 (integer_toString secs)
   +:+ "." +:+ integer_toString ms)%string.

End Display.

(** * Verification *)

(** ** Numbers *)

Lemma Qlt_bool_iff (a b : Q) : Qlt_bool a b = true <-> a < b.
Proof.
  unfold Qlt_bool. rewrite negb_true_iff, <- not_true_iff_false, Qle_bool_iff.
  split; [apply Qnot_le_lt | apply Qlt_not_le].
Qed.

Lemma Qle_bool_false (a b : Q) : Qle_bool a b = false <-> b < a.
Proof.
  rewrite <- not_true_iff_false, Qle_bool_iff.
  split; [apply Qnot_le_lt | apply Qlt_not_le].
Qed.

Lemma Math_max_with_ge_last (xs : list Q) (last : Q) : last <= Math_max_with xs last.
Proof.
  induction xs as [|x xs IH]; simpl.
  - apply Qle_refl.
  - eapply Qle_trans; [exact IH | apply Q.le_max_r].
Qed.

Lemma Math_max_with_ge (xs : list Q) (last x : Q) :
  In x xs -> x <= Math_max_with xs last.
Proof.
  induction xs as [|y xs IH]; simpl; [tauto|].
  intros [-> | Hin].
  - apply Q.le_max_l.
  - eapply Qle_trans; [apply IH, Hin | apply Q.le_max_r].
Qed.

Lemma Math_max_with_attained (xs : list Q) (last : Q) :
  Math_max_with xs last == last \/ exists x, In x xs /\ Math_max_with xs last == x.
Proof.
  induction xs as [|y xs IH]; simpl.
  - left. reflexivity.
  - destruct (Q.max_spec y (Math_max_with xs last)) as [[_ E] | [_ E]].
    + destruct IH as [IH | (x & Hx & IH)].
      * left. rewrite E. exact IH.
      * right. exists x. split; [now right | rewrite E; exact IH].
    + right. exists y. split; [now left | exact E].
Qed.

Lemma Math_max_with_lub (xs : list Q) (last m : Q) :
  last <= m -> (forall x, In x xs -> x <= m) -> Math_max_with xs last <= m.
Proof.
  intros Hl Hx. destruct (Math_max_with_attained xs last) as [E | (x & Hin & E)];
    rewrite E; auto.
Qed.

Lemma Math_max_with_perm (xs ys : list Q) (last : Q) :
  Permutation xs ys -> Math_max_with xs last == Math_max_with ys last.
Proof.
  intros HP. apply Qle_antisym; apply Math_max_with_lub;
    try apply Math_max_with_ge_last; intros x Hx; apply Math_max_with_ge.
  - eapply Permutation_in; eauto.
  - eapply Permutation_in; [symmetry|]; eauto.
Qed.

Lemma Qdiv10 (q : Q) : q / 10 == q * (1 # 10).
Proof. reflexivity. Qed.

Lemma Math_round_between (x : Q) : x - (1 # 2) < Math_round x /\ Math_round x <= x + (1 # 2).
Proof.
  unfold Math_round. split.
  - pose proof (Qlt_floor (x + (1 # 2))) as H.
    rewrite inject_Z_plus in H. change (inject_Z 1) with 1 in H. lra.
  - apply Qfloor_le.
Qed.

Lemma Math_round_mono (x y : Q) : x <= y -> Math_round x <= Math_round y.
Proof.
  intros H. unfold Math_round. rewrite <- Zle_Qle. apply Qfloor_resp_le. lra.
Qed.

Lemma Math_round_nonneg (x : Q) : 0 <= x -> 0 <= Math_round x.
Proof.
  intros H. change 0 with (Math_round (-(1 # 2))) at 1. apply Math_round_mono. lra.
Qed.

(** ** Total duration *)

(** C3, as stated, fails: one a-roll placement [{start: 0, duration: 10}]
    has [max(startTime + duration) = 10], the timeline is not empty, and yet
    the derived total duration is the 45-second floor. *)
Lemma totalDuration_single_aroll_is_45 :
  let clips := [place "a1" (sampleVideo "narration" 10) 0 10 a_roll] in
  isMaxEnd clips 10 /\ clips <> [] /\ totalDuration clips == 45 /\ ~ totalDuration clips == 10.
Proof.
  cbv zeta. repeat split.
  - eexists; split; [left; reflexivity | reflexivity].
  - intros c [<- | []]. vm_compute. discriminate.
  - discriminate.
  - vm_compute. discriminate.
Qed.

(** C3 (amended): the derived total duration is the larger of 45 seconds
    and the greatest [startTime + duration]; it is 45 exactly when every
    placement ends by 45 seconds, the empty timeline included; for the single
    a-roll placement [{start: 0, duration: 10}] it is 45. *)
Theorem totalDuration_is_floored_max (clips : list TimelineClip.t) :
  45 <= totalDuration clips
  /\ (forall c, In c clips -> clipEnd c <= totalDuration clips)
  /\ (totalDuration clips == 45
      \/ exists c, In c clips /\ totalDuration clips == clipEnd c)
  /\ (forall m, isMaxEnd clips m -> totalDuration clips == Qmax m 45)
  /\ (totalDuration clips == 45 <-> forall c, In c clips -> clipEnd c <= 45)
  /\ totalDuration [] == 45
  /\ (forall pid v, totalDuration [place pid v 0 10 a_roll] == 45).
Proof.
  unfold totalDuration.
  assert (Hge : forall c, In c clips ->
            clipEnd c <= Math_max_with (List.map clipEnd clips) 45).
  { intros c Hc. apply Math_max_with_ge. now apply in_map. }
  assert (Hatt : Math_max_with (List.map clipEnd clips) 45 == 45
                 \/ exists c, In c clips
                      /\ Math_max_with (List.map clipEnd clips) 45 == clipEnd c).
  { destruct (Math_max_with_attained (List.map clipEnd clips) 45) as [E | (x & Hx & E)].
    - now left.
    - apply in_map_iff in Hx. destruct Hx as (c & <- & Hc). right. now exists c. }
  pose proof (Math_max_with_ge_last (List.map clipEnd clips) 45) as Hfloor.
  repeat split; auto.
  - intros m [(c & Hc & Em) Hub].
    destruct (Q.max_spec m 45) as [[Hlt E] | [Hle E]]; rewrite E.
    + destruct Hatt as [E' | (c' & Hc' & E')]; [exact E'|].
      apply Qle_antisym; [|exact Hfloor]. rewrite E'.
      eapply Qle_trans; [apply Hub, Hc' | now apply Qlt_le_weak].
    + apply Qle_antisym.
      * apply Math_max_with_lub; [exact Hle|].
        intros x Hx. apply in_map_iff in Hx. destruct Hx as (c' & <- & Hc'). now apply Hub.
      * rewrite Em. now apply Hge.
  - intros E c Hc. rewrite <- E. now apply Hge.
  - intros Hall. apply Qle_antisym; [|exact Hfloor].
    apply Math_max_with_lub; [apply Qle_refl|].
    intros x Hx. apply in_map_iff in Hx. destruct Hx as (c & <- & Hc). now apply Hall.
Qed.

Lemma totalDuration_is_floored_max_witness :
  let clips := [place "a1" (sampleVideo "narration" 10) 0 10 a_roll;
                place "b1" (sampleVideo "city" 50) 3 50 b_roll] in
  totalDuration clips == 53.
Proof.
  cbv zeta.
  match goal with |- totalDuration ?l == _ =>
    destruct (totalDuration_is_floored_max l) as (_ & _ & _ & Hmax & _) end.
  rewrite (Hmax 53).
  - reflexivity.
  - split.
    + eexists. split; [right; left; reflexivity | reflexivity].
    + intros c [<- | [<- | []]]; vm_compute; discriminate.
Defined.

(** ** Pointer position to time *)

Section DragTime.
Variable s : EditorState.
Variable r : TimelineRef.
Hypothesis zoom_pos : 0 < zoom s.

Lemma PIXEL_PER_SECOND_pos : 0 < PIXEL_PER_SECOND s.
Proof using zoom_pos. unfold PIXEL_PER_SECOND. lra. Qed.

(** Dividing by the pixels-per-second scale keeps the order. *)
Lemma per_second_mono (a b : Q) :
  a <= b -> Qmax 0 (a / PIXEL_PER_SECOND s) <= Qmax 0 (b / PIXEL_PER_SECOND s).
Proof using zoom_pos.
  intros Hab. apply Q.max_le_compat_l.
  unfold Qdiv. apply Qmult_le_compat_r; [exact Hab|].
  apply Qlt_le_weak, Qinv_lt_0_compat, PIXEL_PER_SECOND_pos.
Qed.

Lemma dropTime_mono (x1 x2 : Q) : x1 <= x2 -> dropTime r x1 s <= dropTime r x2 s.
Proof using zoom_pos. intros H. unfold dropTime. apply per_second_mono. lra. Qed.

Lemma dragTime_mono (x1 x2 : Q) : x1 <= x2 -> dragTime r x1 s <= dragTime r x2 s.
Proof using zoom_pos. intros H. unfold dragTime. apply per_second_mono. lra. Qed.

Lemma clickTime_mono (x1 x2 : Q) : x1 <= x2 -> clickTime r x1 s <= clickTime r x2 s.
Proof using zoom_pos. intros H. unfold clickTime. apply per_second_mono. lra. Qed.

End DragTime.

Lemma spec_dragTime_numerator (a b pps : Q) :
  a == b -> Qmax 0 (a / pps) == Qmax 0 (b / pps).
Proof. intros E. rewrite E. reflexivity. Qed.

Lemma dropTime_nonneg r x s : 0 <= dropTime r x s.
Proof. apply Q.le_max_l. Qed.

Lemma dragTime_nonneg r x s : 0 <= dragTime r x s.
Proof. apply Q.le_max_l. Qed.

Lemma clickTime_nonneg r x s : 0 <= clickTime r x s.
Proof. apply Q.le_max_l. Qed.

(** The value a drop or a drag stores for a pointer-derived time. *)
Lemma stored_mono (t1 t2 : Q) :
  t1 <= t2 -> Math_round (t1 * 10) / 10 <= Math_round (t2 * 10) / 10.
Proof.
  intros H. unfold Qdiv. apply Qmult_le_compat_r; [|discriminate].
  apply Math_round_mono. lra.
Qed.

Lemma stored_nonneg (t : Q) : 0 <= t -> 0 <= Math_round (t * 10) / 10.
Proof.
  intros H. unfold Qdiv. apply Qmult_le_0_compat; [|discriminate].
  apply Math_round_nonneg. lra.
Qed.

Lemma stored_nearest (t : Q) :
  t - (1 # 20) < Math_round (t * 10) / 10 /\ Math_round (t * 10) / 10 <= t + (1 # 20).
Proof.
  destruct (Math_round_between (t * 10)) as [Hlo Hhi].
  set (m := Math_round (t * 10)) in *. clearbody m.
  split.
  - apply Qlt_shift_div_l; [reflexivity|]. lra.
  - apply Qle_shift_div_r; [reflexivity|]. lra.
Qed.

Lemma stored_onGrid (t : Q) : exists k : Z, Math_round (t * 10) / 10 == inject_Z k / 10.
Proof. unfold Math_round. eexists. reflexivity. Qed.

(** C9: in the drop handler, the placement-drag handler and the
    click-to-seek handler the time is
    [max(0, (pointerX - trackLabelWidth + scrollOffset) / (50 * zoom))], where
    [pointerX] is the pointer position relative to the timeline (less the
    grab offset for a placement drag); for a fixed scroll offset and a
    positive zoom it is non-decreasing in the pointer position and never
    negative, and so is the rounded value a drop or a drag stores. *)
Theorem drag_time_monotone_nonneg (s : EditorState) (r : TimelineRef) (x1 x2 : Q) :
  0 < zoom s -> x1 <= x2 ->
  (dropTime r x1 s == spec_dragTime (x1 - rect_left r) (scrollLeftOf r) 50 (zoom s)
   /\ dragTime r x1 s
      == spec_dragTime (x1 - rect_left r - dragOffset s) (scrollLeftOf r) 50 (zoom s)
   /\ clickTime r x1 s == spec_dragTime (x1 - rect_left r) (scrollLeftOf r) 50 (zoom s))
  /\ (dropTime r x1 s <= dropTime r x2 s
      /\ dragTime r x1 s <= dragTime r x2 s
      /\ clickTime r x1 s <= clickTime r x2 s)
  /\ (0 <= dropTime r x1 s /\ 0 <= dragTime r x1 s /\ 0 <= clickTime r x1 s)
  /\ (Math_round (dropTime r x1 s * 10) / 10 <= Math_round (dropTime r x2 s * 10) / 10
      /\ Math_round (dragTime r x1 s * 10) / 10 <= Math_round (dragTime r x2 s * 10) / 10
      /\ 0 <= Math_round (dropTime r x1 s * 10) / 10
      /\ 0 <= Math_round (dragTime r x1 s * 10) / 10).
Proof.
  intros Hz Hx.
  pose proof (dropTime_mono s r Hz x1 x2 Hx) as Hdrop.
  pose proof (dragTime_mono s r Hz x1 x2 Hx) as Hdrag.
  pose proof (clickTime_mono s r Hz x1 x2 Hx) as Hclick.
  split; [|split; [|split]].
  - unfold dropTime, dragTime, clickTime, spec_dragTime, PIXEL_PER_SECOND.
    repeat split; apply spec_dragTime_numerator; ring.
  - auto.
  - auto using dropTime_nonneg, dragTime_nonneg, clickTime_nonneg.
  - auto using stored_mono, stored_nonneg, dropTime_nonneg, dragTime_nonneg.
Qed.

Lemma drag_time_monotone_nonneg_witness :
  let s := setDragOffset 30 (initialState []) in
  let r := mkTimelineRef 100 (Some 40) in
  dropTime r 640 s == 10 /\ dropTime r 640 s <= dropTime r 700 s
  /\ dragTime r 640 s <= dragTime r 700 s /\ 0 <= clickTime r 640 s.
Proof.
  cbv zeta.
  destruct (drag_time_monotone_nonneg (setDragOffset 30 (initialState []))
              (mkTimelineRef 100 (Some 40)) 640 700)
    as ((_ & _ & _) & (Hdrop & Hdrag & _) & (_ & _ & Hclick) & _).
  - reflexivity.
  - discriminate.
  - split; [vm_compute; reflexivity | auto].
Defined.

(** ** Quantized start times *)

Lemma onTenthGrid_stored (c : TimelineClip.t) (t : Q) :
  onTenthGrid (TimelineClip.with_startTime (Math_round (t * 10) / 10) c).
Proof. apply stored_onGrid. Qed.

Lemma Forall_filter_keep {A : Type} (P : A -> Prop) (f : A -> bool) (l : list A) :
  Forall P l -> Forall P (List.filter f l).
Proof.
  rewrite !List.Forall_forall. intros H c Hc. apply filter_In in Hc. now apply H.
Qed.

(** Every event leaves the start times on the grid. *)
Lemma step_onTenthGrid (s : EditorState) (ev : Event) :
  Forall onTenthGrid (timelineClips s) -> Forall onTenthGrid (timelineClips (step s ev)).
Proof.
  intros H. destruct ev; simpl; try exact H.
  - destruct (isPlaying s); [|exact H]. unfold tick.
    destruct (Qle_bool _ _); exact H.
  - unfold aRollEffect. destruct aRoll as [v|]; [|exact H].
    destruct (timelineClips s) eqn:E; [|rewrite E; exact H].
    simpl. constructor; [|constructor]. exists 0%Z. reflexivity.
  - now apply Forall_filter_keep.
  - unfold handleDrop. destruct (draggedClip s) as [v|]; [|exact H].
    destruct ref as [r|]; [|exact H]. simpl.
    apply Forall_app. split; [exact H|]. constructor; [|constructor]. apply stored_onGrid.
  - unfold handleClipClick. destruct (findClip _ _); exact H.
  - unfold handleClipMouseDown. destruct ref; exact H.
  - unfold clipDragMove. destruct (_ || _); [exact H|].
    destruct (draggingClipId s) as [dragging|]; [|exact H].
    destruct ref as [r|]; [|exact H]. simpl.
    rewrite List.Forall_forall in *. intros c Hc. apply in_map_iff in Hc.
    destruct Hc as (c0 & <- & Hc0).
    destruct (String.eqb _ _); [apply onTenthGrid_stored | now apply H].
  - unfold clipDragUp. destruct (_ || _); exact H.
  - unfold handleDeleteClip. destruct (selectedClip s) as [sel|]; simpl.
    + destruct (String.eqb sel clipId); now apply Forall_filter_keep.
    + now apply Forall_filter_keep.
  - unfold handleTimelineClick. destruct (_ || _); [exact H|]. destruct ref; exact H.
  - unfold playheadMove. destruct (isDraggingPlayhead s); [|exact H]. destruct ref; exact H.
  - unfold playheadUp. destruct (isDraggingPlayhead s); exact H.
Qed.

(** C10: a library drop appends one placement whose [startTime] field
    holds [Math.round(startTime * 10) / 10] of the pointer-derived time, and a
    move of a placement drag leaves that rounding of its own pointer-derived
    time in the [startTime] field of every placement with the dragged id and
    changes no other placement.  The stored value is a multiple of 0.1 within
    0.05 of the raw time, so it is the raw time only when that is on the grid;
    and whatever the editor does next, every start time stays on the
    0.1-second grid. *)
Theorem drag_drop_quantized (s : EditorState) (r : TimelineRef) (clientX : Q) :
  Forall onTenthGrid (timelineClips s) ->
  (forall dragged tr uuid, draggedClip s = Some dragged ->
     exists newClip,
       timelineClips (handleDrop (Some r) clientX tr uuid s) = timelineClips s ++ [newClip]
       /\ TimelineClip.startTime newClip = Math_round (dropTime r clientX s * 10) / 10
       /\ onTenthGrid newClip
       /\ dropTime r clientX s - (1 # 20) < TimelineClip.startTime newClip
          <= dropTime r clientX s + (1 # 20))
  /\ (forall dragging,
        isDraggingTimelineClip s = true -> draggingClipId s = Some dragging ->
        dragging <> ""%string ->
        Forall2
          (fun old new =>
             if String.eqb (TimelineClip.id old) dragging
             then TimelineClip.startTime new = Math_round (dragTime r clientX s * 10) / 10
                  /\ onTenthGrid new
                  /\ dragTime r clientX s - (1 # 20) < TimelineClip.startTime new
                     <= dragTime r clientX s + (1 # 20)
             else new = old)
          (timelineClips s) (timelineClips (clipDragMove (Some r) clientX s)))
  /\ (forall evs, Forall onTenthGrid (timelineClips (run s evs))).
Proof.
  intros Hgrid. split; [|split].
  - intros dragged tr uuid Hd. unfold handleDrop. rewrite Hd. cbn [timelineClips setIsDragging
      setDraggedClip setTimelineClips].
    eexists. split; [reflexivity|]. cbn [TimelineClip.startTime].
    split; [reflexivity|]. split; [apply stored_onGrid | apply stored_nearest].
  - intros dragging Hflag Hid Hne. unfold clipDragMove. rewrite Hflag, Hid.
    apply String.eqb_neq in Hne. cbn [truthy negb orb]. rewrite Hne.
    cbn [negb timelineClips setTimelineClips].
    induction (timelineClips s) as [|c l IH]; [constructor|].
    inversion Hgrid as [|? ? _ Hl]; subst.
    cbn [List.map]. constructor; [|apply IH; exact Hl].
    destruct (String.eqb (TimelineClip.id c) dragging); [|reflexivity].
    cbn [TimelineClip.with_startTime TimelineClip.startTime].
    split; [reflexivity|]. split; [apply stored_onGrid | apply stored_nearest].
  - intros evs. revert s Hgrid. unfold run.
    induction evs as [|ev evs IH]; intros s Hgrid; simpl; [exact Hgrid|].
    apply IH. now apply step_onTenthGrid.
Qed.

Lemma drag_drop_quantized_witness :
  let s := handleDragStart (sampleVideo "city" 4) (initialState []) in
  let r := mkTimelineRef 100 (Some 40) in
  let dropped := handleDrop (Some r) 643 b_roll "p1" s in
  let grabbed := handleClipMouseDown (Some r) 650 "p1" (101 # 10) dropped in
  dropTime r 643 s == 503 # 50
  /\ (exists c, timelineClips dropped = [c] /\ TimelineClip.startTime c == 101 # 10)
  /\ dragTime r 777 grabbed == 316 # 25
  /\ (exists c, timelineClips (clipDragMove (Some r) 777 grabbed) = [c]
        /\ TimelineClip.startTime c == 63 # 5)
  /\ Forall onTenthGrid
       (timelineClips (run s [Drop (Some r) 643 b_roll "p1";
                              ClipMouseDown (Some r) 650 "p1" (101 # 10);
                              ClipDragMove (Some r) 777])).
Proof.
  cbv zeta.
  set (s := handleDragStart (sampleVideo "city" 4) (initialState [])).
  set (r := mkTimelineRef 100 (Some 40)).
  destruct (drag_drop_quantized s r 643) as (Hdrop & _ & Hrun); [constructor|].
  destruct (Hdrop (sampleVideo "city" 4) b_roll "p1"%string eq_refl)
    as (c & Ec & Estart & _ & _).
  set (grabbed := handleClipMouseDown (Some r) 650 "p1" (101 # 10)
                    (handleDrop (Some r) 643 b_roll "p1" s)).
  destruct (drag_drop_quantized grabbed r 777) as (_ & Hdrag & _).
  { apply (Hrun [Drop (Some r) 643 b_roll "p1"; ClipMouseDown (Some r) 650 "p1" (101 # 10)]). }
  specialize (Hdrag "p1"%string eq_refl eq_refl ltac:(discriminate)).
  split; [vm_compute; reflexivity|]. split; [|split; [vm_compute; reflexivity|split]].
  - exists c. split; [exact Ec|]. rewrite Estart. vm_compute. reflexivity.
  - remember (timelineClips (clipDragMove (Some r) 777 grabbed)) as moved eqn:Emoved.
    change (timelineClips grabbed)
      with [place "p1" (sampleVideo "city" 4) (Math_round (dropTime r 643 s * 10) / 10)
              4 b_roll] in Hdrag.
    inversion Hdrag as [|old new olds news Hhead Htail]; subst.
    inversion Htail; subst.
    exists new. split; [reflexivity|].
    lazymatch type of Hhead with
    | (if ?b then _ else _) => change b with true in Hhead
    end.
    destruct Hhead as (Hnew & _). rewrite Hnew. vm_compute. reflexivity.
  - apply Hrun.
Defined.

(** ** Transport *)

Lemma run_app (s : EditorState) (evs1 evs2 : list Event) :
  run s (evs1 ++ evs2) = run (run s evs1) evs2.
Proof. apply fold_left_app. Qed.

Lemma reachable_run (initialBRolls : list VideoClip.t) (s : EditorState) (evs : list Event) :
  reachable initialBRolls s -> reachable initialBRolls (run s evs).
Proof.
  revert s. induction evs as [|ev evs IH]; intros s H; simpl; [exact H|].
  apply IH. now constructor.
Qed.

Lemma tick_advances (s : EditorState) :
  currentTime s < contentEnd (timelineClips s) ->
  tick s = setCurrentTime (currentTime s + (1 # 10)) s.
Proof.
  intros H. unfold tick. fold (contentEnd (timelineClips s)).
  apply Qle_bool_false in H. now rewrite H.
Qed.

Lemma tick_stops (s : EditorState) :
  contentEnd (timelineClips s) <= currentTime s ->
  tick s = setCurrentTime 0 (setIsPlaying false s).
Proof.
  intros H. unfold tick. fold (contentEnd (timelineClips s)).
  apply Qle_bool_iff in H. now rewrite H.
Qed.

Lemma ticks_idle (n : nat) (s : EditorState) : isPlaying s = false -> ticks n s = s.
Proof.
  intros H. unfold ticks. induction n as [|n IH]; simpl; [reflexivity|].
  rewrite H. exact IH.
Qed.

Lemma ticks_S (n : nat) (s : EditorState) : ticks (S n) s = ticks n (step s Tick).
Proof. reflexivity. Qed.

Lemma ticks_add (n m : nat) (s : EditorState) : ticks (n + m) s = ticks m (ticks n s).
Proof. unfold ticks. rewrite repeat_app. apply run_app. Qed.

Lemma playsOut_stop (s : EditorState) :
  isPlaying s = true -> contentEnd (timelineClips s) <= currentTime s -> playsOut s 1.
Proof.
  intros Hplay Hend.
  assert (E : ticks 1 s = setCurrentTime 0 (setIsPlaying false s)).
  { unfold ticks. simpl. rewrite Hplay. now apply tick_stops. }
  unfold playsOut. repeat apply conj.
  - intros k Hk. replace k with O by lia. simpl. split; auto.
  - intros k Hk. lia.
  - intros k Hk. replace k with O by lia. exact Hend.
  - now rewrite E.
  - now rewrite E.
  - intros j Hj. replace j with (1 + (j - 1))%nat by lia.
    rewrite ticks_add. apply ticks_idle. now rewrite E.
Qed.

Lemma playsOut_measure (m : nat) (s : EditorState) :
  isPlaying s = true ->
  (contentEnd (timelineClips s) - currentTime s) * 10 <= inject_Z (Z.of_nat m) ->
  exists n, (0 < n)%nat /\ playsOut s n.
Proof.
  revert s. induction m as [|m IH]; intros s Hplay Hm.
  - exists 1%nat. split; [lia|]. apply playsOut_stop; [exact Hplay|].
    change (inject_Z (Z.of_nat 0)) with 0 in Hm. lra.
  - destruct (Qlt_le_dec (currentTime s) (contentEnd (timelineClips s))) as [Hlt | Hge].
    2:{ exists 1%nat. split; [lia|]. now apply playsOut_stop. }
    pose proof (tick_advances s Hlt) as E.
    assert (Eclips : timelineClips (step s Tick) = timelineClips s).
    { simpl. rewrite Hplay, E. reflexivity. }
    assert (Etime : currentTime (step s Tick) = currentTime s + (1 # 10)).
    { simpl. rewrite Hplay, E. reflexivity. }
    destruct (IH (step s Tick)) as (n & Hpos & Hadv & Hbelow & Hlast & Hoff & Hzero & Hidle).
    { simpl. rewrite Hplay, E. exact Hplay. }
    { rewrite Eclips, Etime.
      rewrite Nat2Z.inj_succ in Hm. unfold Z.succ in Hm. rewrite inject_Z_plus in Hm.
      change (inject_Z 1) with 1 in Hm. revert Hm.
      generalize (inject_Z (Z.of_nat m)). intros q Hm. lra. }
    exists (S n). split; [lia|]. unfold playsOut. repeat apply conj.
    + intros [|k] Hk.
      * simpl. split; auto.
      * rewrite ticks_S. destruct (Hadv k) as (H1 & H2); [lia|].
        split; [exact H1 | congruence].
    + intros [|k] Hk.
      * change (ticks 1 s) with (step s Tick). change (ticks 0 s) with s.
        split; [exact Hlt | rewrite Etime; lra].
      * rewrite !ticks_S, <- Eclips. apply Hbelow. lia.
    + intros [|k] Hk; [lia|]. rewrite ticks_S, <- Eclips. apply Hlast. lia.
    + rewrite ticks_S. exact Hoff.
    + rewrite ticks_S. exact Hzero.
    + intros [|j] Hj; [lia|]. rewrite !ticks_S. apply Hidle. lia.
Qed.

Lemma contentEnd_le_totalDuration (clips : list TimelineClip.t) :
  contentEnd clips <= totalDuration clips.
Proof.
  unfold contentEnd, totalDuration. apply Math_max_with_lub.
  - eapply Qle_trans; [|apply Math_max_with_ge_last]. discriminate.
  - intros x Hx. now apply Math_max_with_ge.
Qed.

(** C6, as stated, fails: with one 10-second a-roll placement the total
    duration is 45 seconds.  After a click on the timeline at 20 seconds and
    a press of play, the first tick finds [currentTime] at 20, which has not
    reached the total duration, and yet it does not advance: it stops playback
    and resets [currentTime] to 0. *)
Lemma tick_stops_below_totalDuration :
  let s := run (initialState [])
             [ARollProp (Some (sampleVideo "narration" 10)) "a1";
              TimelineClick (Some (mkTimelineRef 0 (Some 0))) 1080;
              TogglePlayPause] in
  reachable [] s
  /\ isPlaying s = true
  /\ currentTime s == 20
  /\ totalDuration (timelineClips s) == 45
  /\ currentTime s < totalDuration (timelineClips s)
  /\ isPlaying (step s Tick) = false
  /\ currentTime (step s Tick) == 0.
Proof.
  cbv zeta. split; [apply reachable_run; constructor|].
  vm_compute. repeat split; congruence.
Qed.

(** C6 (amended): while [isPlaying], a tick compares [currentTime] with the
    greatest [startTime + duration] of the placements (0 for an empty
    timeline, never more than the total duration): below it the tick moves
    [currentTime] forward by a tenth of a second and playback goes on, at or
    above it the tick sets [isPlaying] to false and [currentTime] to 0;
    playback therefore stops after finitely many ticks, none of which advanced
    from a time at or past that end, and later ticks change nothing.  The
    tenth of a second is stated with a margin of a thousandth, which covers
    the rounding of [prev + 0.1] in the source. *)
Theorem tick_stops_at_content_end (s : EditorState) :
  isPlaying s = true ->
  (currentTime s < contentEnd (timelineClips s) ->
     isPlaying (step s Tick) = true
     /\ timelineClips (step s Tick) = timelineClips s
     /\ currentTime s + (99 # 1000) < currentTime (step s Tick)
        < currentTime s + (101 # 1000))
  /\ (contentEnd (timelineClips s) <= currentTime s ->
        step s Tick = setCurrentTime 0 (setIsPlaying false s))
  /\ (exists n, (0 < n)%nat /\ playsOut s n)
  /\ contentEnd (timelineClips s) <= totalDuration (timelineClips s).
Proof.
  intros Hplay. repeat apply conj.
  - intros H. simpl. rewrite Hplay, (tick_advances s H). simpl.
    repeat split; [exact Hplay | lra | lra].
  - intros H. simpl. rewrite Hplay. now apply tick_stops.
  - set (q := (contentEnd (timelineClips s) - currentTime s) * 10).
    apply (playsOut_measure (Z.to_nat (Qceiling q)) s Hplay). fold q.
    eapply Qle_trans; [apply Qle_ceiling|].
    rewrite <- Zle_Qle. lia.
  - apply contentEnd_le_totalDuration.
Qed.

Lemma tick_stops_at_content_end_witness :
  let s := run (initialState [])
             [ARollProp (Some (sampleVideo "narration" 1)) "a1"; TogglePlayPause] in
  isPlaying (step s Tick) = true
  /\ currentTime s < currentTime (step s Tick)
  /\ (exists n, (0 < n)%nat /\ playsOut s n)
  /\ contentEnd (timelineClips s) <= totalDuration (timelineClips s).
Proof.
  cbv zeta.
  destruct (tick_stops_at_content_end
              (run (initialState [])
                 [ARollProp (Some (sampleVideo "narration" 1)) "a1"; TogglePlayPause]))
    as (Hadv & _ & Hout & Hle).
  - reflexivity.
  - destruct Hadv as (Hplay & _ & Hlo & _); [reflexivity|].
    split; [exact Hplay|]. split; [|split; [exact Hout | exact Hle]].
    eapply Qle_lt_trans; [|exact Hlo]. vm_compute. discriminate.
Defined.

(** C8: the skip-forward control adds 5 seconds with no upper clamp.  From
    the initial state of an empty timeline, ten presses leave [currentTime]
    at 50, above the total duration of 45. *)
Theorem skipForward_exceeds_totalDuration :
  let s := run (initialState []) (List.repeat SkipForward 10) in
  reachable [] s
  /\ currentTime s == 50
  /\ totalDuration (timelineClips s) == 45
  /\ ~ currentTime s <= totalDuration (timelineClips s).
Proof.
  cbv zeta. split; [apply reachable_run; constructor|].
  vm_compute. repeat split; intros H; now apply H.
Qed.


(** No event takes the playhead, or the start of a placement, below 0. *)
Lemma step_nonnegTimes (s : EditorState) (ev : Event) :
  nonnegTimes s -> nonnegTimes (step s ev).
Proof.
  intros [Ht Hc]. unfold nonnegTimes.
  destruct ev; simpl; try (split; assumption).
  - destruct (isPlaying s); [|split; assumption]. unfold tick.
    destruct (Qle_bool _ _); simpl; split; try assumption; [apply Qle_refl | lra].
  - unfold aRollEffect. destruct aRoll as [v|]; [|split; assumption].
    destruct (timelineClips s) eqn:E; [|rewrite E; split; assumption].
    simpl. split; [assumption|]. constructor; [apply Qle_refl | constructor].
  - split; [assumption | now apply Forall_filter_keep].
  - unfold handleDrop. destruct (draggedClip s) as [v|]; [|split; assumption].
    destruct ref as [r|]; [|split; assumption]. simpl. split; [assumption|].
    apply Forall_app. split; [assumption|]. constructor; [|constructor].
    apply stored_nonneg, dropTime_nonneg.
  - unfold handleClipClick, findClip.
    destruct (List.find _ _) as [c|] eqn:E; simpl; split; try assumption.
    apply find_some in E. destruct E as [Hin _].
    rewrite List.Forall_forall in Hc. now apply Hc.
  - unfold handleClipMouseDown. destruct ref; split; assumption.
  - unfold clipDragMove. destruct (_ || _); [split; assumption|].
    destruct (draggingClipId s) as [dragging|]; [|split; assumption].
    destruct ref as [r|]; [|split; assumption]. simpl. split; [assumption|].
    rewrite List.Forall_forall in *. intros c Hin. apply in_map_iff in Hin.
    destruct Hin as (c0 & <- & Hc0).
    destruct (String.eqb _ _); [apply stored_nonneg, dragTime_nonneg | now apply Hc].
  - unfold clipDragUp. destruct (_ || _); split; assumption.
  - unfold handleDeleteClip. destruct (selectedClip s) as [sel|]; simpl.
    + destruct (String.eqb sel clipId); (split; [assumption | now apply Forall_filter_keep]).
    + split; [assumption | now apply Forall_filter_keep].
  - unfold handleTimelineClick. destruct (_ || _); [split; assumption|].
    destruct ref as [r|]; [|split; assumption]. simpl.
    split; [apply clickTime_nonneg | assumption].
  - unfold playheadMove. destruct (isDraggingPlayhead s); [|split; assumption].
    destruct ref as [r|]; [|split; assumption]. simpl. split; [|assumption].
    apply Q.min_glb; [apply clickTime_nonneg|].
    eapply Qle_trans; [|apply Math_max_with_ge_last]. discriminate.
  - unfold playheadUp. destruct (isDraggingPlayhead s); split; assumption.
  - split; [apply Q.le_max_l | assumption].
  - split; [lra | assumption].
Qed.

Lemma reachable_nonnegTimes (initialBRolls : list VideoClip.t) (s : EditorState) :
  reachable initialBRolls s -> nonnegTimes s.
Proof.
  induction 1 as [|s ev _ IH].
  - split; [apply Qle_refl | constructor].
  - now apply step_nonnegTimes.
Qed.

(** The zoom buttons keep the zoom factor between 0.5 and 3, so the
    pixels-per-second scale of every reachable state is positive. *)
Lemma step_zoom_bounds (s : EditorState) (ev : Event) :
  (1 # 2) <= zoom s <= 3 -> (1 # 2) <= zoom (step s ev) <= 3.
Proof.
  intros [Hlo Hhi]. destruct ev; simpl; try (split; assumption).
  - destruct (isPlaying s); [|split; assumption]. unfold tick.
    destruct (Qle_bool _ _); split; assumption.
  - unfold aRollEffect. destruct aRoll; [|split; assumption].
    destruct (timelineClips s); split; assumption.
  - unfold handleDrop. destruct (draggedClip s); [|split; assumption].
    destruct ref; split; assumption.
  - unfold handleClipClick. destruct (findClip _ _); split; assumption.
  - unfold handleClipMouseDown. destruct ref; split; assumption.
  - unfold clipDragMove. destruct (_ || _); [split; assumption|].
    destruct (draggingClipId s); [|split; assumption]. destruct ref; split; assumption.
  - unfold clipDragUp. destruct (_ || _); split; assumption.
  - unfold handleDeleteClip. destruct (selectedClip s) as [sel|]; [|split; assumption].
    destruct (String.eqb sel clipId); split; assumption.
  - unfold handleTimelineClick. destruct (_ || _); [split; assumption|].
    destruct ref; split; assumption.
  - unfold playheadMove. destruct (isDraggingPlayhead s); [|split; assumption].
    destruct ref; split; assumption.
  - unfold playheadUp. destruct (isDraggingPlayhead s); split; assumption.
  - split; [apply Q.min_glb; lra | apply Q.le_min_r].
  - split; [apply Q.le_max_r | apply Q.max_lub; lra].
Qed.

Lemma reachable_zoom_pos (initialBRolls : list VideoClip.t) (s : EditorState) :
  reachable initialBRolls s -> 0 < zoom s.
Proof.
  intros H. assert (Hb : (1 # 2) <= zoom s <= 3); [|lra].
  induction H as [|s ev _ IH]; [split; discriminate | now apply step_zoom_bounds].
Qed.

(** The playhead drag is the one seek that also clamps from above. *)
Lemma playheadMove_within (s : EditorState) (r : TimelineRef) (clientX : Q) :
  isDraggingPlayhead s = true ->
  let s' := playheadMove (Some r) clientX s in
  0 <= currentTime s' /\ currentTime s' <= totalDuration (timelineClips s').
Proof.
  intros Hd. unfold playheadMove. rewrite Hd. simpl. split.
  - apply Q.min_glb; [apply clickTime_nonneg|].
    eapply Qle_trans; [|apply Math_max_with_ge_last]. discriminate.
  - apply Q.le_min_r.
Qed.

(** ** Preview resolver *)

Lemma find_filter {A : Type} (p q : A -> bool) (l : list A) :
  List.find p (List.filter q l) = List.find (fun x => q x && p x) l.
Proof.
  induction l as [|x l IH]; simpl; [reflexivity|].
  destruct (q x); simpl; [destruct (p x); auto | exact IH].
Qed.

Lemma hd_error_filter {A : Type} (q : A -> bool) (l : list A) :
  List.hd_error (List.filter q l) = List.find q l.
Proof.
  induction l as [|x l IH]; simpl; [reflexivity|]. destruct (q x); auto.
Qed.

(** The resolver in one pass over the timeline: the first active b-roll
    placement, else the first active placement. *)
Lemma activeClip_find (clips : list TimelineClip.t) (t : Q) :
  activeClip clips t =
  match List.find (fun c => isActiveAt t c && onTrack b_roll c) clips with
  | Some c => Some c
  | None => List.find (isActiveAt t) clips
  end.
Proof. unfold activeClip, activeClips. now rewrite find_filter, hd_error_filter. Qed.

Lemma onTrack_iff (tr : Track) (c : TimelineClip.t) :
  onTrack tr c = true <-> TimelineClip.track c = tr.
Proof. unfold onTrack. destruct (TimelineClip.track c), tr; simpl; split; congruence. Qed.

Lemma activeClip_bRoll (clips : list TimelineClip.t) (t : Q) (b : TimelineClip.t) :
  In b clips -> TimelineClip.track b = b_roll -> isActiveAt t b = true ->
  exists c, activeClip clips t = Some c /\ In c clips
            /\ TimelineClip.track c = b_roll /\ isActiveAt t c = true.
Proof.
  intros Hin Htr Hact. rewrite activeClip_find.
  destruct (List.find _ clips) as [c|] eqn:E.
  - apply find_some in E. destruct E as [Hc Hp]. apply andb_true_iff in Hp.
    exists c. repeat split; try tauto. now apply onTrack_iff.
  - eapply find_none in E; [|exact Hin]. simpl in E.
    rewrite Hact in E. apply onTrack_iff in Htr. rewrite Htr in E. discriminate.
Qed.

Lemma activeClip_aRoll (clips : list TimelineClip.t) (t : Q) (a : TimelineClip.t) :
  (forall b, In b clips -> TimelineClip.track b = b_roll -> isActiveAt t b = false) ->
  In a clips -> isActiveAt t a = true ->
  exists c, activeClip clips t = Some c /\ In c clips
            /\ TimelineClip.track c = a_roll /\ isActiveAt t c = true.
Proof.
  intros Hnob Hin Hact. rewrite activeClip_find.
  destruct (List.find (fun c => isActiveAt t c && onTrack b_roll c) clips) as [c|] eqn:E.
  - apply find_some in E. destruct E as [Hc Hp]. apply andb_true_iff in Hp.
    destruct Hp as [Hp1 Hp2]. apply onTrack_iff in Hp2.
    rewrite (Hnob c Hc Hp2) in Hp1. discriminate.
  - destruct (List.find (isActiveAt t) clips) as [c|] eqn:E'.
    + apply find_some in E'. destruct E' as [Hc Hp]. exists c. repeat split; auto.
      destruct (TimelineClip.track c) eqn:Htr; [reflexivity|].
      rewrite (Hnob c Hc Htr) in Hp. discriminate.
    + eapply find_none in E'; [|exact Hin]. congruence.
Qed.

Lemma activeClip_none (clips : list TimelineClip.t) (t : Q) :
  (forall c, In c clips -> isActiveAt t c = false) -> activeClip clips t = None.
Proof.
  intros Hnone. rewrite activeClip_find.
  destruct (List.find (fun c => isActiveAt t c && onTrack b_roll c) clips) as [c|] eqn:E.
  - apply find_some in E. destruct E as [Hc Hp]. apply andb_true_iff in Hp.
    rewrite (Hnone c Hc) in Hp. destruct Hp. discriminate.
  - destruct (List.find (isActiveAt t) clips) as [c|] eqn:E'; [|reflexivity].
    apply find_some in E'. destruct E' as [Hc Hp]. rewrite (Hnone c Hc) in Hp. discriminate.
Qed.

(** ** Playback synchronizer *)

Lemma syncEffect_no_Pause (videoRef : option string) (s : EditorState) :
  ~ In Pause (syncEffect videoRef s).
Proof.
  unfold syncEffect. destruct videoRef as [src|]; [|tauto].
  destruct (activeClip _ _) as [clip|]; [|tauto].
  intros H. apply in_app_or in H. destruct H as [H | H].
  - destruct (negb _); simpl in H; intuition discriminate.
  - simpl in H. destruct (isPlaying s); simpl in H; intuition discriminate.
Qed.

(** While the transport plays, the effect is the synchronizer of the
    specification. *)
Lemma syncEffect_playing (src : string) (s : EditorState) (clip : TimelineClip.t) :
  activeClip (timelineClips s) (currentTime s) = Some clip ->
  isPlaying s = true ->
  syncEffect (Some src) s = spec_syncEffect src clip (currentTime s) true.
Proof.
  intros Hc Hp. unfold syncEffect, spec_syncEffect. rewrite Hc, Hp.
  now destruct (String.eqb src (clipUrl clip)).
Qed.

(** C5: after play, one tick and pause, the effect runs with the transport
    stopped and an a-roll placement active; it seeks the element and makes
    no other call, where the claim has it pause the element. *)
Theorem syncEffect_pause_missing :
  let s := run (initialState [])
             [ARollProp (Some (sampleVideo "narration" 10)) "a1";
              TogglePlayPause; Tick; TogglePlayPause] in
  let src := "blob:narration"%string in
  isPlaying s = false
  /\ exists clip,
       activeClip (timelineClips s) (currentTime s) = Some clip
       /\ syncEffect (Some src) s
          = [SetCurrentTime (currentTime s - TimelineClip.startTime clip)]
       /\ spec_syncEffect src clip (currentTime s) (isPlaying s)
          = [SetCurrentTime (currentTime s - TimelineClip.startTime clip); Pause].
Proof.
  cbv zeta. split; [reflexivity|].
  eexists. split; [vm_compute; reflexivity|]. split; vm_compute; reflexivity.
Qed.

(** ** Sorting *)

Section SortFacts.
Context {A : Type}.
Variable cmp : A -> A -> Q.

(** What [sort] needs of a comparator: of two elements one may stand
    first, and standing first is transitive. *)
Hypothesis cmp_total : forall x y, 0 < cmp x y -> cmp y x <= 0.
Hypothesis cmp_trans : forall x y z, cmp x y <= 0 -> cmp y z <= 0 -> cmp x z <= 0.

Lemma sort_insert_perm (x : A) (l : list A) :
  Permutation (JSArray.sort_insert cmp x l) (x :: l).
Proof using Type.
  induction l as [|y l IH]; simpl; [reflexivity|].
  destruct (Qle_bool (cmp x y) 0); [reflexivity|].
  rewrite IH. apply perm_swap.
Qed.

Lemma sort_perm (l : list A) : Permutation (JSArray.sort cmp l) l.
Proof using Type.
  induction l as [|x l IH]; simpl; [reflexivity|].
  rewrite sort_insert_perm. now constructor.
Qed.

Lemma sort_In (x : A) (l : list A) : In x (JSArray.sort cmp l) <-> In x l.
Proof using Type.
  split; apply Permutation_in; [|symmetry]; apply sort_perm.
Qed.

Lemma sort_insert_first (x : A) (l : list A) :
  (forall z, In z l -> cmp x z <= 0) -> JSArray.sort_insert cmp x l = x :: l.
Proof using Type.
  destruct l as [|y l]; simpl; [reflexivity|]. intros H.
  assert (E : Qle_bool (cmp x y) 0 = true) by (apply Qle_bool_iff, H; now left).
  now rewrite E.
Qed.

Lemma sort_insert_sorted (x : A) (l : list A) :
  StronglySorted (JSArray.cmp_le cmp) l ->
  StronglySorted (JSArray.cmp_le cmp) (JSArray.sort_insert cmp x l).
Proof using cmp_total cmp_trans.
  induction 1 as [|y l Hs IH Hy]; simpl.
  - constructor; constructor.
  - destruct (Qle_bool (cmp x y) 0) eqn:E.
    + apply Qle_bool_iff in E. constructor; [now constructor|].
      constructor; [exact E|].
      rewrite List.Forall_forall in *. intros z Hz.
      eapply cmp_trans; [exact E | now apply Hy].
    + apply Qle_bool_false in E. constructor; [exact IH|].
      rewrite List.Forall_forall in *. intros z Hz.
      apply (Permutation_in _ (sort_insert_perm x l)) in Hz.
      destruct Hz as [<- | Hz]; [now apply cmp_total | now apply Hy].
Qed.

Lemma sort_sorted (l : list A) : StronglySorted (JSArray.cmp_le cmp) (JSArray.sort cmp l).
Proof using cmp_total cmp_trans.
  induction l as [|x l IH]; simpl; [constructor | now apply sort_insert_sorted].
Qed.

Lemma filter_sort_insert (p : A -> bool) (x : A) (l : list A) :
  StronglySorted (JSArray.cmp_le cmp) l ->
  List.filter p (JSArray.sort_insert cmp x l)
  = if p x then JSArray.sort_insert cmp x (List.filter p l) else List.filter p l.
Proof using cmp_trans.
  induction 1 as [|y l Hs IH Hy]; simpl.
  - now destruct (p x).
  - destruct (Qle_bool (cmp x y) 0) eqn:E; simpl.
    + destruct (p x) eqn:Px; [|reflexivity].
      destruct (p y) eqn:Py; simpl; [now rewrite E|].
      symmetry. apply sort_insert_first. intros z Hz.
      apply filter_In in Hz. destruct Hz as [Hz _].
      rewrite List.Forall_forall in Hy. apply Qle_bool_iff in E.
      eapply cmp_trans; [exact E | now apply Hy].
    + rewrite IH. destruct (p y) eqn:Py; simpl.
      * destruct (p x); simpl; [now rewrite E | reflexivity].
      * reflexivity.
Qed.

(** Filtering commutes with the stable sort. *)
Lemma filter_sort (p : A -> bool) (l : list A) :
  List.filter p (JSArray.sort cmp l) = JSArray.sort cmp (List.filter p l).
Proof using cmp_total cmp_trans.
  induction l as [|x l IH]; simpl; [reflexivity|].
  rewrite filter_sort_insert by apply sort_sorted.
  rewrite IH. now destruct (p x).
Qed.

(** The head of the sorted array: an element that stands strictly before
    everything left of it and may stand before everything right of it. *)
Lemma sort_head_stable (pre post : list A) (a : A) :
  (forall c, In c pre -> 0 < cmp c a) ->
  (forall c, In c post -> cmp a c <= 0) ->
  exists rest, JSArray.sort cmp (pre ++ a :: post) = a :: rest.
Proof using Type.
  intros Hpre Hpost. induction pre as [|x pre IH]; simpl.
  - exists (JSArray.sort cmp post). apply sort_insert_first.
    intros z Hz. apply Hpost. now apply sort_In.
  - destruct IH as [rest E]; [intros c Hc; apply Hpre; now right|].
    rewrite E. simpl.
    assert (Hx : Qle_bool (cmp x a) 0 = false).
    { apply Qle_bool_false, Hpre. now left. }
    rewrite Hx. eauto.
Qed.

End SortFacts.

Lemma sort_ext {A : Type} (cmp cmp' : A -> A -> Q) (l : list A) :
  (forall x y, In x l -> In y l -> Qle_bool (cmp x y) 0 = Qle_bool (cmp' x y) 0) ->
  JSArray.sort cmp l = JSArray.sort cmp' l.
Proof.
  induction l as [|x l IH]; intros H; simpl; [reflexivity|].
  rewrite <- IH by (intros; apply H; now right).
  assert (Hin : forall z, In z (JSArray.sort cmp l) -> In z l) by (intros z; apply sort_In).
  revert Hin. generalize (JSArray.sort cmp l). intros s.
  induction s as [|y s IHs]; intros Hin; simpl; [reflexivity|].
  rewrite (H x y) by (simpl; auto using in_eq). 
  rewrite IHs by (intros; apply Hin; now right). reflexivity.
Qed.

(** ** Strategy A *)

Lemma byStartTime_total (x y : TimelineClip.t) :
  0 < StrategyA.byStartTime x y -> StrategyA.byStartTime y x <= 0.
Proof. unfold StrategyA.byStartTime. lra. Qed.

Lemma byStartTime_trans (x y z : TimelineClip.t) :
  StrategyA.byStartTime x y <= 0 -> StrategyA.byStartTime y z <= 0 ->
  StrategyA.byStartTime x z <= 0.
Proof. unfold StrategyA.byStartTime. lra. Qed.

Lemma find_all_false {A : Type} (p : A -> bool) (l : list A) :
  (forall x, In x l -> p x = false) -> List.find p l = None.
Proof.
  induction l as [|x l IH]; simpl; [reflexivity|]. intros H.
  rewrite (H x) by now left. apply IH. intros; apply H; now right.
Qed.

Lemma find_app_first {A : Type} (p : A -> bool) (pre post : list A) (a : A) :
  (forall x, In x pre -> p x = false) -> p a = true ->
  List.find p (pre ++ a :: post) = Some a.
Proof.
  induction pre as [|x pre IH]; simpl; intros Hpre Ha.
  - now rewrite Ha.
  - rewrite (Hpre x) by now left. apply IH; [|exact Ha]. intros; apply Hpre; now right.
Qed.

Lemma NoDup_map_filter {A B : Type} (f : A -> B) (p : A -> bool) (l : list A) :
  List.NoDup (List.map f l) -> List.NoDup (List.map f (List.filter p l)).
Proof.
  induction l as [|x l IH]; simpl; [auto|]. intros H.
  apply List.NoDup_cons_iff in H. destruct H as [Hx Hl].
  destruct (p x); simpl; [|auto]. apply List.NoDup_cons_iff. split; [|auto].
  intros Hin. apply Hx. apply in_map_iff in Hin. destruct Hin as (y & E & Hy).
  apply filter_In in Hy. apply in_map_iff. exists y. tauto.
Qed.

Lemma preload_snoc (l : list TimelineClip.t) (c : TimelineClip.t) :
  StrategyA.preload (l ++ [c])
  = <[TimelineClip.id c := clipUrl c]> (StrategyA.preload l).
Proof. unfold StrategyA.preload. now rewrite fold_left_app. Qed.

(** With distinct placement ids, the element preloaded for a placement
    plays that placement's source. *)
Lemma preload_lookup (l : list TimelineClip.t) (c : TimelineClip.t) :
  List.NoDup (List.map TimelineClip.id l) -> In c l ->
  StrategyA.preload l !! TimelineClip.id c = Some (clipUrl c).
Proof.
  induction l as [|x l IH] using rev_ind; [intros _ []|].
  rewrite map_app. simpl. intros Hnd Hin.
  apply List.NoDup_remove in Hnd. rewrite !app_nil_r in Hnd. destruct Hnd as [Hnd Hx].
  rewrite preload_snoc. apply in_app_or in Hin. destruct Hin as [Hin | [<- | []]].
  - rewrite lookup_insert_ne; [now apply IH|].
    intros E. apply Hx. rewrite E. now apply in_map.
  - apply lookup_insert_eq.
Qed.

(** What [prepare] hands to the render loop when it does not throw. *)
Lemma prepare_inr (clips : list TimelineClip.t) (rc : StrategyA.RenderContext) :
  StrategyA.prepare true clips = inr rc ->
  In (StrategyA.aRollClip rc) clips
  /\ TimelineClip.track (StrategyA.aRollClip rc) = a_roll
  /\ List.find (onTrack a_roll) (JSArray.sort StrategyA.byStartTime clips)
     = Some (StrategyA.aRollClip rc)
  /\ StrategyA.bRollClips rc
     = JSArray.sort StrategyA.byStartTime (List.filter (onTrack b_roll) clips)
  /\ StrategyA.bRollVideos rc = StrategyA.preload (StrategyA.bRollClips rc)
  /\ StrategyA.totalDuration rc
     = Math_max (List.map clipEnd (JSArray.sort StrategyA.byStartTime clips)).
Proof.
  unfold StrategyA.prepare. simpl.
  destruct (List.find _ _) as [a|] eqn:E; [|discriminate].
  intros [= <-]. simpl. pose proof E as E'. apply find_some in E'. destruct E' as [Hin Ha].
  repeat split.
  - now apply sort_In in Hin.
  - now apply onTrack_iff.
  - apply filter_sort; [apply byStartTime_total | apply byStartTime_trans].
Qed.

Lemma prepare_without_aRoll (clips : list TimelineClip.t) :
  (forall c, In c clips -> TimelineClip.track c = b_roll) ->
  StrategyA.prepare true clips = inl StrategyA.NoARollFound.
Proof.
  intros H. unfold StrategyA.prepare. simpl.
  rewrite find_all_false; [reflexivity|].
  intros c Hc. apply sort_In in Hc. unfold onTrack. now rewrite (H c Hc).
Qed.


Lemma bRollClips_NoDup (clips : list TimelineClip.t) :
  List.NoDup (List.map TimelineClip.id clips) ->
  List.NoDup (List.map TimelineClip.id
                (JSArray.sort StrategyA.byStartTime (List.filter (onTrack b_roll) clips))).
Proof.
  intros H. eapply Permutation_NoDup.
  - apply Permutation_map. symmetry. apply sort_perm.
  - now apply NoDup_map_filter.
Qed.

Lemma renderFrame_bRoll (clips : list TimelineClip.t) (rc : StrategyA.RenderContext)
    (t : Q) (c : TimelineClip.t) :
  List.NoDup (List.map TimelineClip.id clips) ->
  StrategyA.prepare true clips = inr rc ->
  List.find (isActiveAt t) (StrategyA.bRollClips rc) = Some c ->
  StrategyA.renderFrame rc t
  = StrategyA.DrawVideo (clipUrl c) (t - TimelineClip.startTime c)
  /\ In c clips /\ TimelineClip.track c = b_roll /\ isActiveAt t c = true.
Proof.
  intros Hnd Hp Hf. destruct (prepare_inr _ _ Hp) as (_ & _ & _ & Hb & Hv & _).
  pose proof Hf as Hf'. apply find_some in Hf'. destruct Hf' as [Hin Hact].
  unfold StrategyA.renderFrame. rewrite Hf, Hv.
  rewrite preload_lookup; [|rewrite Hb; now apply bRollClips_NoDup | exact Hin].
  rewrite Hb in Hin. apply sort_In, filter_In in Hin. destruct Hin as [Hin Htr].
  repeat split; auto. now apply onTrack_iff.
Qed.

Lemma renderFrame_aRoll (rc : StrategyA.RenderContext) (t : Q) :
  List.find (isActiveAt t) (StrategyA.bRollClips rc) = None ->
  StrategyA.renderFrame rc t = StrategyA.DrawVideo (clipUrl (StrategyA.aRollClip rc)) t.
Proof. intros Hf. unfold StrategyA.renderFrame. now rewrite Hf. Qed.

Lemma render_S (fuel : nat) (rc : StrategyA.RenderContext) (t : Q) :
  StrategyA.render (S fuel) rc t
  = if ge_max t (StrategyA.totalDuration rc) then Some []
    else match StrategyA.render fuel rc (t + 1 / StrategyA.FPS) with
         | Some frames => Some ((t, StrategyA.renderFrame rc t) :: frames)
         | None => None
         end.
Proof. reflexivity. Qed.

(** The loop draws one frame per step of virtual time and ends: with
    enough fuel it returns. *)
Lemma render_returns (rc : StrategyA.RenderContext) (m : nat) (t : Q) (q : Q) :
  StrategyA.totalDuration rc = Finite q ->
  (q - t) * 30 <= inject_Z (Z.of_nat m) ->
  exists frames, StrategyA.render (S m) rc t = Some frames
    /\ Forall (fun f => snd f = StrategyA.renderFrame rc (fst f)) frames.
Proof.
  intros Hq. revert t. induction m as [|m IH]; intros t Hm.
  - exists []. rewrite render_S, Hq. simpl.
    assert (E : Qle_bool q t = true).
    { apply Qle_bool_iff. change (inject_Z (Z.of_nat 0)) with 0 in Hm. lra. }
    rewrite E. split; [reflexivity | constructor].
  - rewrite render_S, Hq. cbn [ge_max].
    destruct (Qle_bool q t) eqn:E; [exists []; split; [reflexivity | constructor]|].
    destruct (IH (t + 1 / StrategyA.FPS)) as (frames & Hr & Hall).
    { rewrite Nat2Z.inj_succ in Hm. unfold Z.succ in Hm. rewrite inject_Z_plus in Hm.
      change (inject_Z 1) with 1 in Hm. revert Hm.
      generalize (inject_Z (Z.of_nat m)). intros k Hm.
      setoid_replace (1 / StrategyA.FPS) with (1 # 30) using relation Qeq by reflexivity.
      lra. }
    rewrite Hr. eexists. split; [reflexivity|]. constructor; [reflexivity | exact Hall].
Qed.

(** ** Composition precedence *)

(** C1, as stated, fails in the export loop: with one a-roll placement on
    [5, 10) nothing is active at time 0, the preview resolver chooses
    nothing, and the frame drawn at 0 is the a-roll video all the same. *)
Lemma export_draws_inactive_aRoll :
  let clips := [place "a1" (sampleVideo "narration" 5) 5 5 a_roll] in
  (forall c, In c clips -> isActiveAt 0 c = false)
  /\ activeClip clips 0 = None
  /\ exists rc, StrategyA.prepare true clips = inr rc
       /\ StrategyA.renderFrame rc 0 = StrategyA.DrawVideo "blob:narration" 0.
Proof.
  cbv zeta. split; [|split].
  - intros c [<- | []]. reflexivity.
  - reflexivity.
  - eexists. split; reflexivity.
Qed.

(** C1 (amended): in the live preview, an active b-roll placement is
    chosen whenever one is active, otherwise an active a-roll placement if
    there is one, otherwise nothing.  In the export frame loop, which runs
    only when the timeline has an a-roll placement (placement ids being
    distinct), an active b-roll placement is drawn at its in-clip offset
    whenever one is active, and otherwise the base a-roll video, the first
    a-roll placement in start-time order, is drawn at the frame time; without
    an a-roll placement the export fails with "No A-roll found". *)
Theorem composition_precedence (clips : list TimelineClip.t) (t : Q) :
  ((forall b, In b clips -> TimelineClip.track b = b_roll -> isActiveAt t b = true ->
      exists c, activeClip clips t = Some c /\ In c clips
                /\ TimelineClip.track c = b_roll /\ isActiveAt t c = true)
   /\ ((forall b, In b clips -> TimelineClip.track b = b_roll -> isActiveAt t b = false) ->
       forall a, In a clips -> isActiveAt t a = true ->
       exists c, activeClip clips t = Some c /\ In c clips
                 /\ TimelineClip.track c = a_roll /\ isActiveAt t c = true)
   /\ ((forall c, In c clips -> isActiveAt t c = false) -> activeClip clips t = None))
  /\ (forall rc,
        List.NoDup (List.map TimelineClip.id clips) ->
        StrategyA.prepare true clips = inr rc ->
        (forall b, In b clips -> TimelineClip.track b = b_roll -> isActiveAt t b = true ->
           exists c, In c clips /\ TimelineClip.track c = b_roll /\ isActiveAt t c = true
             /\ StrategyA.renderFrame rc t
                = StrategyA.DrawVideo (clipUrl c) (t - TimelineClip.startTime c))
        /\ ((forall b, In b clips -> TimelineClip.track b = b_roll -> isActiveAt t b = false) ->
            StrategyA.renderFrame rc t
            = StrategyA.DrawVideo (clipUrl (StrategyA.aRollClip rc)) t
            /\ In (StrategyA.aRollClip rc) clips
            /\ List.find (onTrack a_roll) (JSArray.sort StrategyA.byStartTime clips)
               = Some (StrategyA.aRollClip rc)))
  /\ ((forall c, In c clips -> TimelineClip.track c = b_roll) ->
      StrategyA.prepare true clips = inl StrategyA.NoARollFound).
Proof.
  split; [|split].
  - split; [|split].
    + intros b. apply activeClip_bRoll.
    + intros Hnob a. now apply activeClip_aRoll.
    + apply activeClip_none.
  - intros rc Hnd Hp. destruct (prepare_inr _ _ Hp) as (Hin & Htr & Hfa & Hb & _).
    split.
    + intros b Hb_in Hb_tr Hb_act.
      destruct (List.find (isActiveAt t) (StrategyA.bRollClips rc)) as [c|] eqn:E.
      * destruct (renderFrame_bRoll clips rc t c Hnd Hp E) as (Hr & Hc & Hct & Hca).
        exists c. auto.
      * exfalso. assert (Hf : isActiveAt t b = false); [|congruence].
        apply (find_none _ _ E b). rewrite Hb. apply sort_In, filter_In.
        split; [exact Hb_in | now apply onTrack_iff].
    + intros Hnob. split; [|auto]. apply renderFrame_aRoll, find_all_false.
      intros c Hc. rewrite Hb in Hc. apply sort_In, filter_In in Hc.
      destruct Hc as [Hc Hct]. apply Hnob; [exact Hc | now apply onTrack_iff].
  - apply prepare_without_aRoll.
Qed.

Lemma composition_precedence_witness :
  let base := place "a1" (sampleVideo "narration" 10) 0 10 a_roll in
  let over := place "b1" (sampleVideo "city" 2) 3 2 b_roll in
  (exists c, activeClip [base; over] 4 = Some c /\ TimelineClip.track c = b_roll)
  /\ (exists c, activeClip [base; over] 1 = Some c /\ TimelineClip.track c = a_roll)
  /\ activeClip [base; over] 11 = None
  /\ exists rc, StrategyA.prepare true [base; over] = inr rc
       /\ (exists c, TimelineClip.track c = b_roll
             /\ StrategyA.renderFrame rc 4
                = StrategyA.DrawVideo (clipUrl c) (4 - TimelineClip.startTime c))
       /\ StrategyA.renderFrame rc 1
          = StrategyA.DrawVideo (clipUrl (StrategyA.aRollClip rc)) 1.
Proof.
  cbv zeta.
  set (base := place "a1" (sampleVideo "narration" 10) 0 10 a_roll).
  set (over := place "b1" (sampleVideo "city" 2) 3 2 b_roll).
  assert (Hnd : List.NoDup (List.map TimelineClip.id [base; over])).
  { repeat constructor; simpl; intuition discriminate. }
  assert (Hp : exists rc, StrategyA.prepare true [base; over] = inr rc)
    by (eexists; reflexivity).
  destruct Hp as [rc Hp].
  destruct (composition_precedence [base; over] 4) as ((Hb4 & _ & _) & Hx4 & _).
  destruct (composition_precedence [base; over] 1) as ((_ & Ha1 & _) & Hx1 & _).
  destruct (composition_precedence [base; over] 11) as ((_ & _ & Hn) & _ & _).
  destruct (Hx4 rc Hnd Hp) as [Hxb _]. destruct (Hx1 rc Hnd Hp) as [_ Hxa].
  split; [|split; [|split]].
  - destruct (Hb4 over) as (c & E & _ & Htr & _);
      [right; left; reflexivity | reflexivity | reflexivity |]. eauto.
  - destruct (Ha1 (fun b Hb => ltac:(destruct Hb as [<- | [<- | []]]; intros; [discriminate | reflexivity]))
                base) as (c & E & _ & Htr & _); [left; reflexivity | reflexivity |]. eauto.
  - apply Hn. intros c [<- | [<- | []]]; reflexivity.
  - exists rc. split; [exact Hp|]. split.
    + destruct (Hxb over) as (c & _ & Htr & _ & E);
        [right; left; reflexivity | reflexivity | reflexivity |]. eauto.
    + apply Hxa. intros b [<- | [<- | []]]; intros; [discriminate | reflexivity].
Defined.

(** ** Overlap on one track *)

(** C2, as stated, fails: of two b-roll placements over the same interval,
    [b1] inserted before [b2], the preview resolver and the export frame both
    show the first one. *)
Lemma overlap_shows_first_inserted :
  let base := place "a1" (sampleVideo "narration" 10) 0 10 a_roll in
  let first := place "b1" (sampleVideo "city" 5) 0 5 b_roll in
  let second := place "b2" (sampleVideo "sea" 5) 0 5 b_roll in
  let clips := [base; first; second] in
  isActiveAt 1 first = true /\ isActiveAt 1 second = true
  /\ activeClip clips 1 = Some first
  /\ activeClip clips 1 <> Some second
  /\ exists rc, StrategyA.prepare true clips = inr rc
       /\ StrategyA.renderFrame rc 1 = StrategyA.DrawVideo (clipUrl first) 1
       /\ StrategyA.renderFrame rc 1 <> StrategyA.DrawVideo (clipUrl second) 1.
Proof.
  cbv zeta. repeat split; try discriminate.
  eexists. repeat split; discriminate.
Qed.

Lemma filter_split {A : Type} (p : A -> bool) (pre post : list A) (a : A) :
  p a = true ->
  List.filter p (pre ++ a :: post) = List.filter p pre ++ a :: List.filter p post.
Proof. intros H. rewrite List.filter_app. simpl. now rewrite H. Qed.

(** The active b-roll placement the export frame picks: the earliest
    starting one, the first inserted among equal starts. *)
Lemma export_find_active (pre post : list TimelineClip.t) (a : TimelineClip.t) (t : Q) :
  TimelineClip.track a = b_roll -> isActiveAt t a = true ->
  (forall c, In c pre -> TimelineClip.track c = b_roll -> isActiveAt t c = true ->
     TimelineClip.startTime a < TimelineClip.startTime c) ->
  (forall c, In c post -> TimelineClip.track c = b_roll -> isActiveAt t c = true ->
     TimelineClip.startTime a <= TimelineClip.startTime c) ->
  List.find (isActiveAt t)
    (JSArray.sort StrategyA.byStartTime (List.filter (onTrack b_roll) (pre ++ a :: post)))
  = Some a.
Proof.
  intros Htr Hact Hpre Hpost.
  rewrite <- hd_error_filter.
  rewrite filter_sort by (apply byStartTime_total || apply byStartTime_trans).
  rewrite (filter_split (onTrack b_roll)) by now apply onTrack_iff.
  rewrite (filter_split (isActiveAt t)) by exact Hact.
  destruct (sort_head_stable StrategyA.byStartTime
              (List.filter (isActiveAt t) (List.filter (onTrack b_roll) pre))
              (List.filter (isActiveAt t) (List.filter (onTrack b_roll) post)) a)
    as [rest E].
  - intros c Hc. apply filter_In in Hc. destruct Hc as [Hc Hca].
    apply filter_In in Hc. destruct Hc as [Hc Hct]. apply onTrack_iff in Hct.
    specialize (Hpre c Hc Hct Hca). unfold StrategyA.byStartTime. lra.
  - intros c Hc. apply filter_In in Hc. destruct Hc as [Hc Hca].
    apply filter_In in Hc. destruct Hc as [Hc Hct]. apply onTrack_iff in Hct.
    specialize (Hpost c Hc Hct Hca). unfold StrategyA.byStartTime. lra.
  - now rewrite E.
Qed.

(** C2 (amended): where placements of one track overlap, the earlier one
    wins.  In the preview resolver the first inserted of the active b-roll
    placements is chosen, and with no b-roll active the first inserted of the
    active a-roll placements.  In the export frame the active b-roll placement
    with the earliest start time is drawn, the first inserted among equal
    start times (placement ids being distinct). *)
Theorem overlap_first_wins (pre post : list TimelineClip.t) (a : TimelineClip.t) (t : Q) :
  isActiveAt t a = true ->
  (TimelineClip.track a = b_roll ->
   (forall c, In c pre -> TimelineClip.track c = b_roll -> isActiveAt t c = false) ->
   activeClip (pre ++ a :: post) t = Some a)
  /\ (TimelineClip.track a = a_roll ->
      (forall c, In c pre -> isActiveAt t c = false) ->
      (forall c, In c post -> TimelineClip.track c = b_roll -> isActiveAt t c = false) ->
      activeClip (pre ++ a :: post) t = Some a)
  /\ (forall rc,
        TimelineClip.track a = b_roll ->
        List.NoDup (List.map TimelineClip.id (pre ++ a :: post)) ->
        StrategyA.prepare true (pre ++ a :: post) = inr rc ->
        (forall c, In c pre -> TimelineClip.track c = b_roll -> isActiveAt t c = true ->
           TimelineClip.startTime a < TimelineClip.startTime c) ->
        (forall c, In c post -> TimelineClip.track c = b_roll -> isActiveAt t c = true ->
           TimelineClip.startTime a <= TimelineClip.startTime c) ->
        StrategyA.renderFrame rc t
        = StrategyA.DrawVideo (clipUrl a) (t - TimelineClip.startTime a)).
Proof.
  intros Hact. split; [|split].
  - intros Htr Hpre. rewrite activeClip_find.
    rewrite (find_app_first _ pre post a); [reflexivity | |].
    + intros c Hc. destruct (TimelineClip.track c) eqn:Hct.
      * unfold onTrack. rewrite Hct. apply andb_false_r.
      * now rewrite (Hpre c Hc Hct).
    + rewrite Hact. now apply onTrack_iff.
  - intros Htr Hpre Hpost. rewrite activeClip_find.
    rewrite find_all_false.
    + apply find_app_first; [exact Hpre | exact Hact].
    + intros c Hc. apply in_app_or in Hc. destruct Hc as [Hc | [<- | Hc]].
      * now rewrite (Hpre c Hc).
      * unfold onTrack. rewrite Htr. apply andb_false_r.
      * destruct (TimelineClip.track c) eqn:Hct.
        -- unfold onTrack. rewrite Hct. apply andb_false_r.
        -- now rewrite (Hpost c Hc Hct).
  - intros rc Htr Hnd Hp Hpre Hpost.
    destruct (prepare_inr _ _ Hp) as (_ & _ & _ & Hb & _).
    apply (renderFrame_bRoll _ rc t a Hnd Hp).
    rewrite Hb. now apply export_find_active.
Qed.

Lemma overlap_first_wins_witness :
  let base := place "a1" (sampleVideo "narration" 10) 0 10 a_roll in
  let late := place "b1" (sampleVideo "city" 5) 2 5 b_roll in
  let early := place "b2" (sampleVideo "sea" 5) 1 5 b_roll in
  activeClip [base; late; early] 3 = Some late
  /\ exists rc, StrategyA.prepare true [base; late; early] = inr rc
       /\ StrategyA.renderFrame rc 3 = StrategyA.DrawVideo (clipUrl early) (3 - 1).
Proof.
  cbv zeta.
  set (base := place "a1" (sampleVideo "narration" 10) 0 10 a_roll).
  set (late := place "b1" (sampleVideo "city" 5) 2 5 b_roll).
  set (early := place "b2" (sampleVideo "sea" 5) 1 5 b_roll).
  split.
  - destruct (overlap_first_wins [base] [early] late 3 eq_refl) as (Hb & _ & _).
    apply Hb; [reflexivity|]. intros c [<- | []]. discriminate.
  - destruct (overlap_first_wins [base; late] [] early 3 eq_refl) as (_ & _ & Hx).
    eexists. split; [reflexivity|]. apply Hx.
    + reflexivity.
    + repeat constructor; simpl; intuition discriminate.
    + reflexivity.
    + intros c [<- | [<- | []]]; intros; [discriminate | reflexivity].
    + intros c [].
Defined.

(** ** Strategy B *)

Lemma append_nil_r (s : string) : (s +:+ "")%string = s.
Proof.
  induction s as [|a s IH]; [reflexivity|].
  change (String a (s +:+ "") = String a s)%string. now rewrite IH.
Qed.

Lemma append_assoc (s1 s2 s3 : string) : ((s1 +:+ s2) +:+ s3 = s1 +:+ s2 +:+ s3)%string.
Proof.
  induction s1 as [|a s1 IH]; [reflexivity|].
  change (String a ((s1 +:+ s2) +:+ s3) = String a (s1 +:+ s2 +:+ s3))%string.
  now rewrite IH.
Qed.

Lemma concat_empty_cons (x : string) (xs : list string) :
  String.concat "" (x :: xs) = (x +:+ String.concat "" xs)%string.
Proof. destruct xs; simpl; [now rewrite append_nil_r | reflexivity]. Qed.

Lemma byTrackThenStart_total (x y : TimelineClip.t) :
  0 < StrategyB.byTrackThenStart x y -> StrategyB.byTrackThenStart y x <= 0.
Proof.
  unfold StrategyB.byTrackThenStart.
  destruct (TimelineClip.track x), (TimelineClip.track y); simpl; lra.
Qed.

Lemma byTrackThenStart_trans (x y z : TimelineClip.t) :
  StrategyB.byTrackThenStart x y <= 0 -> StrategyB.byTrackThenStart y z <= 0 ->
  StrategyB.byTrackThenStart x z <= 0.
Proof.
  unfold StrategyB.byTrackThenStart.
  destruct (TimelineClip.track x), (TimelineClip.track y), (TimelineClip.track z);
    simpl; lra.
Qed.

(** On placements of one track the two comparators agree. *)
Lemma sort_one_track (tr : Track) (l : list TimelineClip.t) :
  (forall c, In c l -> TimelineClip.track c = tr) ->
  JSArray.sort StrategyB.byTrackThenStart l = JSArray.sort StrategyA.byStartTime l.
Proof.
  intros H. apply sort_ext. intros x y Hx Hy.
  unfold StrategyB.byTrackThenStart. rewrite (H x Hx), (H y Hy).
  now destruct tr.
Qed.

Lemma filter_track_sorted (tr : Track) (clips : list TimelineClip.t) :
  List.filter (onTrack tr) (StrategyB.sorted clips)
  = JSArray.sort StrategyA.byStartTime (List.filter (onTrack tr) clips).
Proof.
  unfold StrategyB.sorted.
  rewrite filter_sort by (apply byTrackThenStart_total || apply byTrackThenStart_trans).
  apply (sort_one_track tr). intros c Hc. apply filter_In in Hc. now apply onTrack_iff.
Qed.

Lemma filter_all {A : Type} (p : A -> bool) (l : list A) :
  (forall x, In x l -> p x = true) -> List.filter p l = l.
Proof.
  induction l as [|x l IH]; simpl; [reflexivity|]. intros H.
  rewrite (H x) by now left. f_equal. apply IH. intros; apply H; now right.
Qed.

Lemma filter_none {A : Type} (p : A -> bool) (l : list A) :
  (forall x, In x l -> p x = false) -> List.filter p l = [].
Proof.
  induction l as [|x l IH]; simpl; [reflexivity|]. intros H.
  rewrite (H x) by now left. apply IH. intros; apply H; now right.
Qed.

Lemma sorted_startsInOrder (clips : list TimelineClip.t) :
  startsInOrder (JSArray.sort StrategyA.byStartTime clips).
Proof.
  unfold startsInOrder.
  pose proof (sort_sorted StrategyA.byStartTime byStartTime_total byStartTime_trans clips) as H.
  induction H as [|x l Hs IH Hx]; constructor; [exact IH|].
  eapply List.Forall_impl; [|exact Hx]. intros y. unfold JSArray.cmp_le, StrategyA.byStartTime. lra.
Qed.

(** The concat loop, run from any index and any graph built so far. *)
Lemma concat_forEachFrom (fileMap : gmap string string) (l : list TimelineClip.t)
    (idx : nat) (g : StrategyB.Graph) :
  StrategyB.forEachFrom
    (fun g clip idx =>
       StrategyB.mkGraph
         (StrategyB.inputs g ++ ["-i"; StrategyB.fileOf fileMap clip]%string)
         (StrategyB.filterComplex g +:+ "[" +:+ StrategyB.index_toString idx +:+ ":v]"
          +:+ StrategyB.scalePad +:+ "[v" +:+ StrategyB.index_toString idx +:+ "];")%string
         (StrategyB.currentOutput g))
    idx l g
  = StrategyB.mkGraph
      (StrategyB.inputs g
       ++ List.flat_map (fun c => ["-i"; StrategyB.fileOf fileMap c]%string) l)
      (StrategyB.filterComplex g
       +:+ String.concat ""
             (StrategyB.mapFrom
                (fun _ idx =>
                   "[" +:+ StrategyB.index_toString idx +:+ ":v]" +:+ StrategyB.scalePad
                   +:+ "[v" +:+ StrategyB.index_toString idx +:+ "];")%string
                idx l))%string
      (StrategyB.currentOutput g).
Proof.
  revert idx g. induction l as [|c l IH]; intros idx g;
    cbn [StrategyB.forEachFrom StrategyB.mapFrom List.flat_map].
  - cbn [String.concat]. rewrite List.app_nil_r, append_nil_r. now destruct g.
  - rewrite IH. cbn [StrategyB.inputs StrategyB.filterComplex StrategyB.currentOutput].
    rewrite concat_empty_cons, <- List.app_assoc, append_assoc. reflexivity.
Qed.

Lemma concatGraph_spec (fileMap : gmap string string) (l : list TimelineClip.t) :
  StrategyB.concatGraph fileMap l = spec_concatGraph fileMap l.
Proof.
  unfold StrategyB.concatGraph, StrategyB.forEach, spec_concatGraph.
  rewrite concat_forEachFrom.
  cbn [StrategyB.inputs StrategyB.filterComplex StrategyB.currentOutput List.app].
  now rewrite append_assoc.
Qed.

Lemma totalDuration_B_contentEnd (clips : list TimelineClip.t) :
  StrategyB.totalDuration clips == contentEnd clips.
Proof.
  unfold StrategyB.totalDuration, contentEnd, StrategyB.sorted.
  apply Math_max_with_perm, Permutation_map, sort_perm.
Qed.

Lemma Math_max_isMaxEnd (l : list TimelineClip.t) (q : Q) :
  Math_max (List.map clipEnd l) = Finite q -> isMaxEnd l q.
Proof.
  destruct l as [|c rest]; simpl; [discriminate|]. intros [= <-].
  change (List.fold_right Qmax (clipEnd c) (List.map clipEnd rest))
    with (Math_max_with (List.map clipEnd rest) (clipEnd c)).
  split.
  - destruct (Math_max_with_attained (List.map clipEnd rest) (clipEnd c))
      as [E | (x & Hx & E)].
    + exists c. split; [now left | exact E].
    + apply in_map_iff in Hx. destruct Hx as (c' & <- & Hc'). exists c'. split; [now right | exact E].
  - intros c' [<- | Hc'].
    + apply Math_max_with_ge_last.
    + apply Math_max_with_ge. now apply in_map.
Qed.

Lemma isMaxEnd_perm (l l' : list TimelineClip.t) (q : Q) :
  (forall c, In c l <-> In c l') -> isMaxEnd l q -> isMaxEnd l' q.
Proof.
  intros H [(c & Hc & E) Hub]. split.
  - exists c. split; [now apply H | exact E].
  - intros c' Hc'. apply Hub. now apply H.
Qed.


(** ** The write loop of Strategy B *)

Lemma to_uint_nonnil (n : nat) : Nat.to_uint n <> Decimal.Nil.
Proof.
  intros E. pose proof (DecimalNat.Unsigned.of_to n) as H. rewrite E in H.
  simpl in H. subst n. discriminate.
Qed.

Lemma index_toString_inj (a b : nat) :
  StrategyB.index_toString a = StrategyB.index_toString b -> a = b.
Proof.
  unfold StrategyB.index_toString. intros E.
  apply DecimalNat.Unsigned.to_uint_inj.
  assert (Ha := NilZero.usu _ (to_uint_nonnil a)).
  assert (Hb := NilZero.usu _ (to_uint_nonnil b)).
  rewrite E in Ha. congruence.
Qed.

Lemma append_length (s1 s2 : string) :
  String.length (s1 +:+ s2) = (String.length s1 + String.length s2)%nat.
Proof.
  induction s1 as [|a s1 IH]; [reflexivity|].
  change (S (String.length (s1 +:+ s2)) = S (String.length s1 + String.length s2)).
  now rewrite IH.
Qed.

Lemma append_inj_r (s1 s2 suffix : string) :
  (s1 +:+ suffix = s2 +:+ suffix)%string -> s1 = s2.
Proof.
  revert s2. induction s1 as [|a s1 IH]; intros [|b s2] E.
  - reflexivity.
  - apply (f_equal String.length) in E. rewrite !append_length in E.
    simpl in E. lia.
  - apply (f_equal String.length) in E. rewrite !append_length in E.
    simpl in E. lia.
  - change (String a (s1 +:+ suffix) = String b (s2 +:+ suffix)) in E.
    injection E as -> E. f_equal. now apply IH.
Qed.

Lemma inputFile_inj (a b : nat) : inputFile a = inputFile b -> a = b.
Proof.
  unfold inputFile. intros E. apply (inj (String.append "input")) in E.
  apply append_inj_r in E. now apply index_toString_inj.
Qed.

(** What the write loop keeps true of its three variables. *)
Lemma writeStep_inv (acc : gmap string string * nat * list (string * string))
    (clip : TimelineClip.t) :
  (List.map fst acc.2 = List.map inputFile (List.seq O acc.1.2)
   /\ (forall u f, acc.1.1 !! u = Some f <-> In (f, u) acc.2)
   /\ List.NoDup (List.map snd acc.2)) ->
  List.map fst (writeStep acc clip).2
  = List.map inputFile (List.seq O (writeStep acc clip).1.2)
  /\ (forall u f, (writeStep acc clip).1.1 !! u = Some f <-> In (f, u) (writeStep acc clip).2)
  /\ List.NoDup (List.map snd (writeStep acc clip).2).
Proof.
  destruct acc as [[m n] w]. simpl. intros (Hnames & Hmap & Hnd).
  unfold writeStep. destruct (m !! clipUrl clip) as [f0|] eqn:E; cbn [fst snd]; [auto|].
  repeat apply conj.
  - rewrite map_app, seq_S, map_app, Hnames. reflexivity.
  - intros u f. destruct (String.eqb (clipUrl clip) u) eqn:Eu.
    + apply String.eqb_eq in Eu. subst u. rewrite lookup_insert_eq. split.
      * intros [= <-]. apply in_or_app. right. now left.
      * intros Hin. apply in_app_or in Hin. destruct Hin as [Hin | [[= <-] | []]]; [|reflexivity].
        apply Hmap in Hin. congruence.
    + apply String.eqb_neq in Eu. rewrite lookup_insert_ne by exact Eu.
      rewrite Hmap. split.
      * intros Hin. apply in_or_app. now left.
      * intros Hin. apply in_app_or in Hin. destruct Hin as [Hin | [[= _ Hu] | []]]; [exact Hin|].
        congruence.
  - rewrite map_app. simpl. apply List.NoDup_app; [exact Hnd | constructor; [intros [] | constructor] |].
    intros u Hu [<- | []]. apply in_map_iff in Hu. destruct Hu as ([f u'] & Hu' & Hin).
    simpl in Hu'. subst u'. apply Hmap in Hin. congruence.
Qed.

Lemma writeStep_keeps (acc : gmap string string * nat * list (string * string))
    (clip : TimelineClip.t) (u f : string) :
  acc.1.1 !! u = Some f -> (writeStep acc clip).1.1 !! u = Some f.
Proof.
  destruct acc as [[m n] w]. simpl. intros H. unfold writeStep.
  destruct (m !! clipUrl clip) as [f0|] eqn:E; simpl; [exact H|].
  rewrite lookup_insert_ne; [exact H|]. intros Eu. subst u. congruence.
Qed.

Lemma writeStep_covers (acc : gmap string string * nat * list (string * string))
    (clip : TimelineClip.t) :
  is_Some ((writeStep acc clip).1.1 !! clipUrl clip).
Proof.
  destruct acc as [[m n] w]. unfold writeStep.
  destruct (m !! clipUrl clip) as [f0|] eqn:E; simpl; [rewrite E; eauto|].
  rewrite lookup_insert_eq. eauto.
Qed.

Lemma writeLog_keeps (clips : list TimelineClip.t) :
  forall acc u f,
    acc.1.1 !! u = Some f -> (List.fold_left writeStep clips acc).1.1 !! u = Some f.
Proof.
  induction clips as [|c clips IH]; intros acc u f H; simpl; [exact H|].
  apply IH. now apply writeStep_keeps.
Qed.

Lemma writeLog_covers (clips : list TimelineClip.t) :
  forall acc c, In c clips ->
    is_Some ((List.fold_left writeStep clips acc).1.1 !! clipUrl c).
Proof.
  induction clips as [|x clips IH]; intros acc c; simpl; [intros []|].
  intros [<- | Hin]; [|now apply IH].
  destruct (writeStep_covers acc x) as [f Hf]. exists f. now apply writeLog_keeps.
Qed.

Lemma writeLog_inv (clips : list TimelineClip.t) :
  forall acc,
    (List.map fst acc.2 = List.map inputFile (List.seq O acc.1.2)
     /\ (forall u f, acc.1.1 !! u = Some f <-> In (f, u) acc.2)
     /\ List.NoDup (List.map snd acc.2)) ->
    let out := List.fold_left writeStep clips acc in
    List.map fst out.2 = List.map inputFile (List.seq O out.1.2)
    /\ (forall u f, out.1.1 !! u = Some f <-> In (f, u) out.2)
    /\ List.NoDup (List.map snd out.2).
Proof.
  induction clips as [|c clips IH]; intros acc H; simpl; [exact H|].
  apply IH. now apply writeStep_inv.
Qed.

Lemma writeLog_sources (clips : list TimelineClip.t) :
  forall acc f u,
    In (f, u) (List.fold_left writeStep clips acc).2 ->
    In (f, u) acc.2 \/ exists c, In c clips /\ clipUrl c = u.
Proof.
  induction clips as [|c clips IH]; intros acc f u; simpl; [auto|].
  intros H. apply IH in H. destruct H as [H | (c' & Hc' & E)]; [|right; eauto].
  destruct acc as [[m n] w]. unfold writeStep in H.
  destruct (m !! clipUrl c); simpl in H; [now left|].
  apply in_app_or in H. destruct H as [H | [[= _ <-] | []]]; [now left|].
  right. exists c. auto.
Qed.

(** The loop of [handleExport] is the recorded loop without its record. *)
Lemma writeFiles_log (clips : list TimelineClip.t) :
  StrategyB.writeFiles clips = (writeFilesLog clips).1.
Proof.
  unfold StrategyB.writeFiles, writeFilesLog.
  assert (H : forall m n w,
            List.fold_left
              (fun '(fileMap, fileIndex) clip =>
                 match fileMap !! clipUrl clip with
                 | Some _ => (fileMap, fileIndex)
                 | None =>
                     (<[clipUrl clip := ("input" +:+ StrategyB.index_toString fileIndex +:+ ".mp4")%string]>
                        fileMap, S fileIndex)
                 end) clips (m, n)
            = (List.fold_left writeStep clips (m, n, w)).1).
  { induction clips as [|c clips IH]; intros m n w; simpl; [reflexivity|].
    destruct (m !! clipUrl c); apply IH. }
  apply H.
Qed.

Lemma NoDup_map_inj {A B : Type} (f : A -> B) (l : list A) :
  (forall x y, f x = f y -> x = y) -> List.NoDup l -> List.NoDup (List.map f l).
Proof.
  intros Hinj. induction 1 as [|x l Hx _ IH]; simpl; constructor; [|exact IH].
  intros Hin. apply in_map_iff in Hin. destruct Hin as (y & E & Hy).
  apply Hinj in E. now subst y.
Qed.

Lemma NoDup_fst_functional {A B : Type} (w : list (A * B)) (a : A) (b b' : B) :
  List.NoDup (List.map fst w) -> In (a, b) w -> In (a, b') w -> b = b'.
Proof.
  induction w as [|[x y] w IH]; simpl; [tauto|]. intros Hnd H1 H2.
  apply List.NoDup_cons_iff in Hnd. destruct Hnd as [Hx Hnd].
  destruct H1 as [H1 | H1], H2 as [H2 | H2]; auto.
  - congruence.
  - exfalso. apply Hx. apply in_map_iff. exists (a, b'). split; [|exact H2].
    simpl. congruence.
  - exfalso. apply Hx. apply in_map_iff. exists (a, b). split; [|exact H1].
    simpl. congruence.
Qed.

(** ** The overlay loop of Strategy B *)

Lemma div2_double (k : nat) : (2 * k / 2 = k)%nat.
Proof. rewrite Nat.mul_comm. apply Nat.div_mul. discriminate. Qed.

Section OverlayLoop.
Variable Number_toString : Q -> string.
Variable fileMap : gmap string string.
Variable bRollClips : list TimelineClip.t.

(** The overlay loop, run from any index on the graph built so far. *)
Lemma overlay_forEachFrom (l : list TimelineClip.t) :
  forall (idx : nat) (g : StrategyB.Graph),
    List.length (StrategyB.inputs g) = (2 * S idx)%nat ->
    StrategyB.currentOutput g = overlayIn (List.length bRollClips) idx ->
    StrategyB.forEachFrom
      (fun g bClip idx =>
         let bRollFile := StrategyB.fileOf fileMap bClip in
         let inputIndex := (List.length (StrategyB.inputs g) / 2)%nat in
         let inputs' := StrategyB.inputs g ++ ["-i"; bRollFile]%string in
         let nextOutput :=
           if Nat.eqb idx (List.length bRollClips - 1)
           then "out"%string else ("tmp" +:+ StrategyB.index_toString idx)%string in
         let fc1 :=
           (StrategyB.filterComplex g +:+ "[" +:+ StrategyB.index_toString inputIndex +:+ ":v]"
            +:+ StrategyB.scalePad
            +:+ ",setpts=PTS-STARTPTS+" +:+ Number_toString (TimelineClip.startTime bClip)
            +:+ "/TB[b" +:+ StrategyB.index_toString idx +:+ "];")%string in
         let fc2 :=
           (fc1 +:+ StrategyB.currentOutput g +:+ "[b" +:+ StrategyB.index_toString idx
            +:+ "]overlay=enable='between(t,"
            +:+ Number_toString (TimelineClip.startTime bClip) +:+ ","
            +:+ Number_toString (TimelineClip.startTime bClip + TimelineClip.duration bClip)
            +:+ ")'[" +:+ nextOutput +:+ "];")%string in
         StrategyB.mkGraph inputs' fc2 ("[" +:+ nextOutput +:+ "]")%string)
      idx l g
    = StrategyB.mkGraph
        (StrategyB.inputs g
         ++ List.flat_map (fun b => ["-i"; StrategyB.fileOf fileMap b]%string) l)
        (StrategyB.filterComplex g
         +:+ String.concat ""
               (StrategyB.mapFrom (overlayChains Number_toString (List.length bRollClips)) idx l))%string
        (overlayIn (List.length bRollClips) (idx + List.length l)).
Proof using Type.
  induction l as [|b l IH]; intros idx g Hlen Hout;
    cbn [StrategyB.forEachFrom StrategyB.mapFrom List.flat_map List.length].
  - cbn [String.concat]. rewrite List.app_nil_r, append_nil_r, Nat.add_0_r, <- Hout.
    now destruct g.
  - rewrite IH.
    + cbn [StrategyB.inputs StrategyB.filterComplex StrategyB.currentOutput].
      rewrite Hlen, div2_double, Hout, concat_empty_cons, <- List.app_assoc, Nat.add_succ_r.
      unfold overlayChains. fold (overlayOut (List.length bRollClips) idx).
      f_equal. rewrite !append_assoc. reflexivity.
    + cbn [StrategyB.inputs]. rewrite List.length_app, Hlen. simpl. lia.
    + reflexivity.
Qed.

Lemma overlayGraph_spec (aRollClip : TimelineClip.t) :
  StrategyB.overlayGraph Number_toString fileMap aRollClip bRollClips
  = spec_overlayGraph Number_toString fileMap aRollClip bRollClips.
Proof using Type.
  unfold StrategyB.overlayGraph, StrategyB.forEach, spec_overlayGraph.
  rewrite overlay_forEachFrom by reflexivity.
  cbn [StrategyB.inputs StrategyB.filterComplex StrategyB.currentOutput].
  reflexivity.
Qed.

End OverlayLoop.

(** With an a-roll placement on the timeline, the sorted array starts with
    one: the base of the overlay graph. *)
Lemma sorted_head_aRoll (clips : list TimelineClip.t) (a : TimelineClip.t) :
  In a clips -> TimelineClip.track a = a_roll ->
  exists base rest,
    StrategyB.sorted clips = base :: rest
    /\ TimelineClip.track base = a_roll
    /\ StrategyB.aRollClips clips = base :: List.filter (onTrack a_roll) rest.
Proof.
  intros Hin Htr. unfold StrategyB.aRollClips.
  pose proof (sort_sorted StrategyB.byTrackThenStart byTrackThenStart_total
                byTrackThenStart_trans clips) as Hs.
  apply (sort_In StrategyB.byTrackThenStart) in Hin.
  fold (StrategyB.sorted clips) in Hs, Hin.
  destruct (StrategyB.sorted clips) as [|h rest]; [destruct Hin|].
  assert (Hh : TimelineClip.track h = a_roll).
  { destruct (TimelineClip.track h) eqn:E; [reflexivity|]. exfalso.
    destruct Hin as [-> | Hin]; [congruence|].
    apply StronglySorted_inv in Hs. destruct Hs as [_ Hall].
    rewrite List.Forall_forall in Hall. specialize (Hall a Hin).
    unfold JSArray.cmp_le, StrategyB.byTrackThenStart in Hall.
    rewrite E, Htr in Hall. simpl in Hall. now apply Hall. }
  exists h, rest. split; [reflexivity|]. split; [exact Hh|].
  simpl. unfold onTrack at 1. now rewrite Hh.
Qed.

Lemma first_file_is_input0 (base : TimelineClip.t) (rest : list TimelineClip.t) :
  StrategyB.fileOf (StrategyB.writeFiles (base :: rest)).1 base = inputFile 0.
Proof.
  rewrite writeFiles_log. unfold writeFilesLog, StrategyB.fileOf. simpl List.fold_left.
  rewrite (writeLog_keeps rest _ (clipUrl base) (inputFile 0)); [reflexivity|].
  unfold writeStep. rewrite lookup_empty. simpl. apply lookup_insert_eq.
Qed.

Lemma overlayIn_last (n : nat) :
  overlayIn n n = match n with O => "[base]" | S _ => "[out]" end%string.
Proof.
  destruct n as [|m]; [reflexivity|]. unfold overlayIn, overlayOut.
  replace (S m - 1)%nat with m by lia. now rewrite Nat.eqb_refl.
Qed.
















(** ** The two strategies side by side *)




(** ** Concatenation without a-roll *)

(** C7: on a timeline with placements and no a-roll, the graph Strategy B
    builds is the straight concatenation of the b-roll inputs in ascending
    start-time order, with no overlay, and the encoder is asked for
    [-t totalDuration], the greatest [startTime + duration]; for two 5-second
    placements of one asset at 0 and 5 that is [-t 10]. *)
Theorem no_aRoll_concatenates (Number_toString : Q -> string)
    (clips : list TimelineClip.t) :
  clips <> [] ->
  (forall c, In c clips -> TimelineClip.track c = b_roll) ->
  let ordered := JSArray.sort StrategyA.byStartTime clips in
  let graph := spec_concatGraph (fst (StrategyB.writeFiles ordered)) ordered in
  startsInOrder ordered
  /\ Permutation ordered clips
  /\ StrategyB.buildGraph Number_toString clips = graph
  /\ StrategyB.handleExport Number_toString true clips
     = StrategyB.Exec
         (StrategyB.inputs graph
          ++ ["-filter_complex"; StrategyB.filterComplex graph;
              "-map"; "[out]"; "-c:v"; "libx264"; "-preset"; "medium";
              "-crf"; "23"; "-pix_fmt"; "yuv420p"; "-r"; "30"; "-t";
              Number_toString (StrategyB.totalDuration clips); "output.mp4"]%string)
  /\ StrategyB.totalDuration clips == contentEnd clips.
Proof.
  intros Hne Hall ordered graph.
  assert (Hsorted : StrategyB.sorted clips = ordered) by now apply (sort_one_track b_roll).
  assert (Hgraph : StrategyB.buildGraph Number_toString clips = graph).
  { unfold StrategyB.buildGraph, StrategyB.aRollClips, StrategyB.bRollClips.
    rewrite Hsorted.
    rewrite (filter_none (onTrack a_roll)), (filter_all (onTrack b_roll)).
    - apply concatGraph_spec.
    - intros c Hc. apply sort_In in Hc. now apply onTrack_iff, Hall.
    - intros c Hc. apply sort_In in Hc. unfold onTrack. now rewrite (Hall c Hc). }
  split; [apply sorted_startsInOrder|]. split; [apply sort_perm|].
  split; [exact Hgraph|]. split; [|apply totalDuration_B_contentEnd].
  destruct clips; [congruence|].
  unfold StrategyB.handleExport, StrategyB.execArgs. simpl negb. cbv iota.
  now rewrite Hgraph.
Qed.

Lemma no_aRoll_concatenates_witness :
  let city := sampleVideo "city" 5 in
  let clips := [place "b1" city 0 5 b_roll; place "b2" city 5 5 b_roll] in
  StrategyB.handleExport StrategyB.decimal_toString true clips
  = StrategyB.Exec
      ["-i"; "input0.mp4"; "-i"; "input0.mp4"; "-filter_complex";
       "[0:v]scale=1080:1920:force_original_aspect_ratio=decrease,pad=1080:1920:(ow-iw)/2:(oh-ih)/2[v0];[1:v]scale=1080:1920:force_original_aspect_ratio=decrease,pad=1080:1920:(ow-iw)/2:(oh-ih)/2[v1];[v0][v1]concat=n=2:v=1:a=0[out]";
       "-map"; "[out]"; "-c:v"; "libx264"; "-preset"; "medium"; "-crf"; "23";
       "-pix_fmt"; "yuv420p"; "-r"; "30"; "-t"; "10"; "output.mp4"]%string
  /\ StrategyB.totalDuration clips == 10.
Proof.
  cbv zeta.
  destruct (no_aRoll_concatenates StrategyB.decimal_toString
              [place "b1" (sampleVideo "city" 5) 0 5 b_roll;
               place "b2" (sampleVideo "city" 5) 5 5 b_roll])
    as (_ & _ & _ & Hexec & Htotal).
  - discriminate.
  - intros c [<- | [<- | []]]; reflexivity.
  - split.
    + etransitivity; [exact Hexec|]. vm_compute. reflexivity.
    + rewrite Htotal. vm_compute. reflexivity.
Defined.

(** Start-time order, not insertion order: the later placement was
    inserted first. *)
Example concat_orders_by_start :
  let clips := [place "b1" (sampleVideo "city" 5) 5 5 b_roll;
                place "b2" (sampleVideo "sea" 5) 0 5 b_roll] in
  List.map clipUrl (StrategyB.bRollClips clips) = ["blob:sea"; "blob:city"]%string.
Proof. reflexivity. Qed.

(** With a-roll alone the graph Strategy B builds stops at the [base]
    label. *)
Example aRoll_only_graph :
  StrategyB.filterComplex
    (StrategyB.buildGraph StrategyB.decimal_toString
       [place "a1" (sampleVideo "narration" 10) 0 10 a_roll])
  = ("[0:v]" +:+ StrategyB.scalePad +:+ ",setpts=PTS-STARTPTS[base]")%string.
Proof. vm_compute. reflexivity. Qed.

(** ** Letterbox fitting *)

(** [drawVideoToCanvas] keeps the aspect ratio, stays inside the canvas and
    centres what it draws. *)
Lemma drawVideoToCanvas_fits (vW vH cW cH : Q) (r : StrategyA.DrawRect) :
  0 < vW -> 0 < vH -> 0 < cW -> 0 < cH ->
  StrategyA.drawVideoToCanvas vW vH cW cH = Some r ->
  StrategyA.drawW r * vH == StrategyA.drawH r * vW
  /\ StrategyA.drawW r <= cW /\ StrategyA.drawH r <= cH
  /\ StrategyA.offsetX r * 2 + StrategyA.drawW r == cW
  /\ StrategyA.offsetY r * 2 + StrategyA.drawH r == cH
  /\ (StrategyA.drawW r == cW \/ StrategyA.drawH r == cH).
Proof.
  intros HvW HvH HcW HcH. unfold StrategyA.drawVideoToCanvas.
  assert (E1 : Qeq_bool vW 0 = false).
  { apply not_true_iff_false. intros E. apply Qeq_bool_iff in E. lra. }
  assert (E2 : Qeq_bool vH 0 = false).
  { apply not_true_iff_false. intros E. apply Qeq_bool_iff in E. lra. }
  rewrite E1, E2. simpl.
  assert (NvW : ~ vW == 0) by lra. assert (NvH : ~ vH == 0) by lra.
  assert (NcH : ~ cH == 0) by lra.
  destruct (Qlt_bool (cW / cH) (vW / vH)) eqn:Hcmp; intros [= <-]; simpl.
  - apply Qlt_bool_iff in Hcmp.
    assert (Hcross : cW * vH < vW * cH).
    { apply (Qmult_lt_r _ _ (cH * vH)) in Hcmp; [|nra].
      assert (Ea : cW / cH * (cH * vH) == cW * vH) by (field; exact NcH).
      assert (Eb : vW / vH * (cH * vH) == vW * cH) by (field; exact NvH).
      now rewrite Ea, Eb in Hcmp. }
    assert (EH : cW / (vW / vH) == cW * vH / vW) by (field; split; assumption).
    assert (HH : cW * vH / vW <= cH).
    { apply Qle_shift_div_r; [exact HvW|]. lra. }
    repeat split.
    + rewrite EH. field. exact NvW.
    + apply Qle_refl.
    + rewrite EH. exact HH.
    + field.
    + field. split; assumption.
    + left. reflexivity.
  - assert (Hcmp' : vW / vH <= cW / cH).
    { apply Qnot_lt_le. intros H. apply Qlt_bool_iff in H. congruence. }
    assert (Hcross : vW * cH <= cW * vH).
    { apply (Qmult_le_r _ _ (cH * vH)) in Hcmp'; [|nra].
      assert (Ea : cW / cH * (cH * vH) == cW * vH) by (field; exact NcH).
      assert (Eb : vW / vH * (cH * vH) == vW * cH) by (field; exact NvH).
      now rewrite Ea, Eb in Hcmp'. }
    assert (EW : cH * (vW / vH) == cH * vW / vH) by (field; exact NvH).
    assert (HW : cH * vW / vH <= cW).
    { apply Qle_shift_div_r; [exact HvH|]. lra. }
    repeat split.
    + field. exact NvH.
    + rewrite EW. exact HW.
    + apply Qle_refl.
    + field. exact NvH.
    + field.
    + right. reflexivity.
Qed.

(** * Further properties of the editor *)

(** ** Invariants of the reachable states *)

(** X1: in every state the editor can reach, the playhead is at a
    non-negative time and no placement starts before 0. *)
Theorem times_never_negative (initialBRolls : list VideoClip.t) (s : EditorState) :
  reachable initialBRolls s ->
  0 <= currentTime s
  /\ (forall c, In c (timelineClips s) -> 0 <= TimelineClip.startTime c)
  /\ (forall c, In c (timelineClips s) -> 0 <= clipLeft s c).
Proof.
  intros H. destruct (reachable_nonnegTimes _ _ H) as [Ht Hc].
  pose proof (reachable_zoom_pos _ _ H) as Hz.
  rewrite List.Forall_forall in Hc. split; [exact Ht|]. split; [exact Hc|].
  intros c Hin. unfold clipLeft, PIXEL_PER_SECOND.
  apply Qmult_le_0_compat; [now apply Hc | lra].
Qed.

Lemma times_never_negative_witness :
  let s := run (initialState [])
             [DragStart (sampleVideo "city" 4);
              Drop (Some (mkTimelineRef 100 None)) 20 b_roll "p1"; SkipBack] in
  0 <= currentTime s
  /\ List.map TimelineClip.startTime (timelineClips s) = [Math_round (0 * 10) / 10].
Proof.
  cbv zeta. split.
  - apply (times_never_negative []). apply reachable_run. constructor.
  - reflexivity.
Defined.

(** X2: the zoom buttons keep the zoom factor between 0.5 and 3 in every
    reachable state, so the scale stays between 25 and 150 pixels per second;
    zooming in and then out restores the zoom unless zooming in hit the
    ceiling, and out and then in unless zooming out hit the floor. *)
Theorem zoom_stays_in_range (initialBRolls : list VideoClip.t) (s : EditorState) :
  reachable initialBRolls s ->
  ((1 # 2) <= zoom s <= 3)
  /\ (25 <= PIXEL_PER_SECOND s <= 150)
  /\ (zoom s <= 11 # 4 -> zoom (handleZoomOut (handleZoomIn s)) == zoom s)
  /\ (3 # 4 <= zoom s -> zoom (handleZoomIn (handleZoomOut s)) == zoom s).
Proof.
  intros H.
  assert (Hb : (1 # 2) <= zoom s <= 3).
  { induction H as [|s ev _ IH]; [split; discriminate | now apply step_zoom_bounds]. }
  destruct Hb as [Hlo Hhi]. split; [now split|]. split; [|split].
  - unfold PIXEL_PER_SECOND. split; lra.
  - intros Hroom. simpl.
    rewrite (Q.min_l (zoom s + (1 # 4)) 3) by lra.
    rewrite Q.max_l by lra. ring.
  - intros Hroom. simpl.
    rewrite (Q.max_l (zoom s - (1 # 4)) (1 # 2)) by lra.
    rewrite Q.min_l by lra. ring.
Qed.

Lemma zoom_stays_in_range_witness :
  let s := run (initialState []) (List.repeat ZoomIn 12) in
  zoom s <= 3 /\ PIXEL_PER_SECOND s <= 150.
Proof.
  cbv zeta.
  destruct (zoom_stays_in_range [] (run (initialState []) (List.repeat ZoomIn 12)))
    as ((_ & Hhi) & (_ & Hpps) & _).
  - apply reachable_run. constructor.
  - split; assumption.
Defined.

(** ** Seeking *)

(** X3: while the playhead is dragged, a move seeks to the pointer's time
    clamped into [0, totalDuration]: exactly the pointer's time when that is
    within the total duration, the total duration when the pointer is beyond
    it; the timeline and the play flag are left alone. *)
Theorem playhead_drag_clamped (s : EditorState) (r : TimelineRef) (clientX : Q) :
  isDraggingPlayhead s = true ->
  let s' := playheadMove (Some r) clientX s in
  0 <= currentTime s' <= totalDuration (timelineClips s')
  /\ (clickTime r clientX s <= totalDuration (timelineClips s) ->
      currentTime s' == clickTime r clientX s)
  /\ (totalDuration (timelineClips s) <= clickTime r clientX s ->
      currentTime s' == totalDuration (timelineClips s))
  /\ timelineClips s' = timelineClips s
  /\ isPlaying s' = isPlaying s.
Proof.
  intros Hd. cbv zeta.
  destruct (playheadMove_within s r clientX Hd) as [Hlo Hhi].
  unfold playheadMove in *. rewrite Hd in *. simpl in *.
  fold (totalDuration (timelineClips s)) in *.
  repeat apply conj; auto.
  - intros H. now apply Q.min_l.
  - intros H. now apply Q.min_r.
Qed.

Lemma playhead_drag_clamped_witness :
  let s := handlePlayheadMouseDown (initialState []) in
  let r := mkTimelineRef 0 None in
  currentTime (playheadMove (Some r) 5000 s) == 45
  /\ currentTime (playheadMove (Some r) 580 s) == 10.
Proof.
  cbv zeta.
  destruct (playhead_drag_clamped (handlePlayheadMouseDown (initialState []))
              (mkTimelineRef 0 None) 5000 eq_refl) as (_ & _ & Hbeyond & _).
  destruct (playhead_drag_clamped (handlePlayheadMouseDown (initialState []))
              (mkTimelineRef 0 None) 580 eq_refl) as (_ & Hwithin & _).
  split.
  - rewrite Hbeyond; [reflexivity | discriminate].
  - rewrite Hwithin; [reflexivity | discriminate].
Defined.

(** X4: a tick never leaves the playhead a tenth of a second or more past
    the end of the content, and never moves it below 0 from a non-negative
    time. *)
Theorem tick_overshoot_bounded (s : EditorState) :
  0 <= currentTime s ->
  0 <= currentTime (tick s)
  /\ currentTime (tick s) < contentEnd (timelineClips s) + (1 # 10)
  /\ timelineClips (tick s) = timelineClips s.
Proof.
  intros Hpos.
  assert (Hend : 0 <= contentEnd (timelineClips s)) by apply Math_max_with_ge_last.
  destruct (Qlt_le_dec (currentTime s) (contentEnd (timelineClips s))) as [Hlt | Hge].
  - rewrite tick_advances by exact Hlt. simpl. repeat split; lra.
  - rewrite tick_stops by exact Hge. simpl. repeat split; lra.
Qed.

Lemma tick_overshoot_bounded_witness :
  let s := setCurrentTime (101 # 20)
             (setTimelineClips [place "b1" (sampleVideo "city" 5) (1 # 10) 5 b_roll]
                (initialState [])) in
  currentTime (tick s) == 103 # 20
  /\ currentTime (tick s) < contentEnd (timelineClips s) + (1 # 10).
Proof.
  cbv zeta. split; [reflexivity|].
  apply tick_overshoot_bounded. discriminate.
Defined.

(** X5: the pixel-to-time conversion of a click inverts the time-to-pixel
    placement of the playhead: in a state with a positive zoom and a
    non-negative playhead time, clicking where the playhead is drawn seeks to
    the time it already shows. *)
Theorem click_on_playhead_keeps_time (s : EditorState) (r : TimelineRef) (clientX : Q) :
  0 < zoom s -> 0 <= currentTime s ->
  isDraggingPlayhead s = false -> isDraggingTimelineClip s = false ->
  containerX r clientX == playheadLeft s ->
  currentTime (handleTimelineClick (Some r) clientX s) == currentTime s.
Proof.
  intros Hz Ht Hp Hc Hx. unfold handleTimelineClick. rewrite Hp, Hc. simpl.
  unfold clickTime. unfold containerX, playheadLeft in Hx.
  assert (Hpps : ~ PIXEL_PER_SECOND s == 0) by (unfold PIXEL_PER_SECOND; lra).
  assert (E : (clientX - rect_left r + scrollLeftOf r - TRACK_LABEL_WIDTH) / PIXEL_PER_SECOND s
              == currentTime s).
  { setoid_replace (clientX - rect_left r + scrollLeftOf r - TRACK_LABEL_WIDTH)
      with (currentTime s * PIXEL_PER_SECOND s) using relation Qeq by (rewrite Hx; ring).
    now field. }
  rewrite E. now apply Q.max_r.
Qed.

Lemma click_on_playhead_keeps_time_witness :
  let s := setCurrentTime 10 (initialState []) in
  currentTime (handleTimelineClick (Some (mkTimelineRef 100 None)) 680 s) == 10.
Proof.
  cbv zeta.
  apply (click_on_playhead_keeps_time (setCurrentTime 10 (initialState []))
           (mkTimelineRef 100 None) 680); reflexivity || discriminate.
Defined.

(** ** Dragging a placement *)

Lemma Math_round_integer (k : Z) : Math_round (inject_Z k) = inject_Z k.
Proof.
  unfold Math_round. f_equal. apply Z.le_antisymm.
  - apply Z.lt_succ_r. rewrite Zlt_Qlt.
    eapply Qle_lt_trans; [apply Qfloor_le|].
    unfold Z.succ. rewrite inject_Z_plus. change (inject_Z 1) with 1.
    generalize (inject_Z k). intros q. lra.
  - rewrite <- (Qfloor_Z k) at 1. apply Qfloor_resp_le.
    generalize (inject_Z k). intros q. lra.
Qed.

Lemma Math_round_compat (x y : Q) : x == y -> Math_round x = Math_round y.
Proof.
  intros E. unfold Math_round. f_equal. apply Qfloor_comp. now rewrite E.
Qed.

(** X6: a placement keeps its place under the pointer.  After the mouse
    goes down on a placement at [x0], a move to [x1] proposes the start time
    [max(0, start + (x1 - x0) / PIXEL_PER_SECOND)], whatever part of the
    placement was grabbed; and a move back to [x0] stores the start time the
    placement had, when that was on the 0.1-second grid and not negative. *)
Theorem drag_keeps_grab_offset (s : EditorState) (r : TimelineRef)
    (clipId : string) (start x0 x1 : Q) :
  0 < zoom s ->
  let s1 := handleClipMouseDown (Some r) x0 clipId start s in
  dragTime r x1 s1 == Qmax 0 (start + (x1 - x0) / PIXEL_PER_SECOND s)
  /\ (0 <= start -> (exists k : Z, start == inject_Z k / 10) ->
      Math_round (dragTime r x0 s1 * 10) / 10 == start)
  /\ isPlaying s1 = false
  /\ selectedClip s1 = Some clipId.
Proof.
  intros Hz. cbv zeta.
  assert (Hpps : ~ PIXEL_PER_SECOND s == 0) by (unfold PIXEL_PER_SECOND; lra).
  assert (Hgen : forall x,
            dragTime r x (handleClipMouseDown (Some r) x0 clipId start s)
            == Qmax 0 (start + (x - x0) / PIXEL_PER_SECOND s)).
  { intros x. unfold dragTime, handleClipMouseDown. simpl.
    apply Q.max_compat; [reflexivity|].
    change (PIXEL_PER_SECOND (setIsPlaying false _)) with (PIXEL_PER_SECOND s).
    field. exact Hpps. }
  split; [apply Hgen|]. split; [|split; reflexivity].
  intros Hstart [k Hk].
  assert (E : start + (x0 - x0) / PIXEL_PER_SECOND s == start) by (field; exact Hpps).
  assert (E10 : dragTime r x0 (handleClipMouseDown (Some r) x0 clipId start s) * 10
                == inject_Z k).
  { rewrite Hgen, E, Q.max_r by exact Hstart.
    rewrite Hk. rewrite Qdiv10. generalize (inject_Z k). intros q. lra. }
  rewrite (Math_round_compat _ _ E10), Math_round_integer. symmetry. exact Hk.
Qed.

Lemma drag_keeps_grab_offset_witness :
  let s := setTimelineClips [place "b1" (sampleVideo "city" 5) 2 5 b_roll] (initialState []) in
  let r := mkTimelineRef 100 None in
  dragTime r 560 (handleClipMouseDown (Some r) 310 "b1" 2 s) == 7.
Proof.
  cbv zeta.
  destruct (drag_keeps_grab_offset
              (setTimelineClips [place "b1" (sampleVideo "city" 5) 2 5 b_roll] (initialState []))
              (mkTimelineRef 100 None) "b1" 2 310 560) as (Hmove & _).
  - reflexivity.
  - rewrite Hmove. reflexivity.
Defined.

Lemma clipDragMove_same (s : EditorState) (ref : option TimelineRef) (clientX : Q) :
  Forall2 sameButStart (timelineClips s) (timelineClips (clipDragMove ref clientX s)).
Proof.
  assert (Hrefl : forall l, Forall2 sameButStart l l).
  { induction l; constructor; auto. now repeat split. }
  unfold clipDragMove. destruct (_ || _); [apply Hrefl|].
  destruct (draggingClipId s) as [dragging|]; [|apply Hrefl].
  destruct ref as [r|]; [|apply Hrefl]. simpl.
  induction (timelineClips s) as [|c l IH]; simpl; constructor; [|exact IH].
  destruct (String.eqb _ _); now repeat split.
Qed.

Lemma sameButStart_ids (l l' : list TimelineClip.t) :
  Forall2 sameButStart l l' ->
  List.map TimelineClip.id l' = List.map TimelineClip.id l.
Proof.
  induction 1 as [|old new l l' Hsame _ IH]; simpl; [reflexivity|].
  destruct Hsame as [Hid _]. now rewrite Hid, IH.
Qed.

(** X7: a move of the placement drag changes start times only: the
    timeline keeps its length and order, every placement keeps its id, source,
    duration and track, and a placement with another id than the dragged one
    is not changed at all. *)
Theorem drag_changes_start_only (s : EditorState) (ref : option TimelineRef) (clientX : Q) :
  Forall2 sameButStart (timelineClips s) (timelineClips (clipDragMove ref clientX s))
  /\ Forall2 (fun old new =>
                draggingClipId s <> Some (TimelineClip.id old) -> new = old)
       (timelineClips s) (timelineClips (clipDragMove ref clientX s))
  /\ currentTime (clipDragMove ref clientX s) = currentTime s.
Proof.
  split; [apply clipDragMove_same|].
  assert (Hrefl : forall (P : TimelineClip.t -> Prop) l,
            Forall2 (fun old new => P old -> new = old) l l).
  { intros P l. induction l; constructor; auto. }
  unfold clipDragMove. destruct (_ || _); [split; [apply Hrefl | reflexivity]|].
  destruct (draggingClipId s) as [dragging|]; [|split; [apply Hrefl | reflexivity]].
  destruct ref as [r|]; [|split; [apply Hrefl | reflexivity]].
  simpl. split; [|reflexivity].
  induction (timelineClips s) as [|c l IH]; simpl; constructor; [|exact IH].
  destruct (String.eqb (TimelineClip.id c) dragging) eqn:E; [|reflexivity].
  apply String.eqb_eq in E. intros Hne. congruence.
Qed.

Lemma drag_changes_start_only_witness :
  let s := handleClipMouseDown (Some (mkTimelineRef 100 None)) 310 "b1" 2
             (setTimelineClips [place "a1" (sampleVideo "narration" 10) 0 10 a_roll;
                                place "b1" (sampleVideo "city" 5) 2 5 b_roll]
                (initialState [])) in
  let s' := clipDragMove (Some (mkTimelineRef 100 None)) 560 s in
  List.map TimelineClip.id (timelineClips s') = ["a1"; "b1"]%string
  /\ List.map TimelineClip.startTime (timelineClips s')
     = [0; Math_round (dragTime (mkTimelineRef 100 None) 560 s * 10) / 10]
  /\ Forall2 sameButStart (timelineClips s) (timelineClips s').
Proof.
  cbv zeta. split; [reflexivity|]. split; [reflexivity|].
  apply drag_changes_start_only.
Defined.

(** ** Placement ids *)

Lemma map_id_filter_NoDup (f : TimelineClip.t -> bool) (l : list TimelineClip.t) :
  List.NoDup (List.map TimelineClip.id l) ->
  List.NoDup (List.map TimelineClip.id (List.filter f l)).
Proof. apply NoDup_map_filter. Qed.

(** X8: placement ids stay distinct.  If no two placements share an id,
    the same holds after any event, provided a drop brings an id that no
    placement has yet; this is what the export's video map relies on. *)
Theorem placement_ids_stay_distinct (s : EditorState) (ev : Event) :
  List.NoDup (List.map TimelineClip.id (timelineClips s)) ->
  freshEvent s ev ->
  List.NoDup (List.map TimelineClip.id (timelineClips (step s ev))).
Proof.
  intros H Hfresh. destruct ev; simpl; try exact H.
  - destruct (isPlaying s); [|exact H]. unfold tick. destruct (Qle_bool _ _); exact H.
  - unfold aRollEffect. destruct aRoll as [v|]; [|exact H].
    destruct (timelineClips s) eqn:E; [|rewrite E; exact H].
    simpl. constructor; [intros [] | constructor].
  - now apply map_id_filter_NoDup.
  - unfold handleDrop. destruct (draggedClip s) as [v|]; [|exact H].
    destruct ref as [r|]; [|exact H]. simpl in *.
    rewrite map_app. simpl.
    apply List.NoDup_app; [exact H | constructor; [intros [] | constructor] |].
    intros x Hx [<- | []]. now apply Hfresh.
  - unfold handleClipClick. destruct (findClip _ _); exact H.
  - unfold handleClipMouseDown. destruct ref; exact H.
  - now rewrite (sameButStart_ids _ _ (clipDragMove_same s ref clientX)).
  - unfold clipDragUp. destruct (_ || _); exact H.
  - unfold handleDeleteClip. destruct (selectedClip s) as [sel|]; simpl.
    + destruct (String.eqb sel clipId); now apply map_id_filter_NoDup.
    + now apply map_id_filter_NoDup.
  - unfold handleTimelineClick. destruct (_ || _); [exact H|]. destruct ref; exact H.
  - unfold playheadMove. destruct (isDraggingPlayhead s); [|exact H]. destruct ref; exact H.
  - unfold playheadUp. destruct (isDraggingPlayhead s); exact H.
Qed.

Lemma placement_ids_stay_distinct_witness :
  let s := handleDragStart (sampleVideo "city" 4)
             (setTimelineClips [place "a1" (sampleVideo "narration" 10) 0 10 a_roll]
                (initialState [])) in
  List.NoDup (List.map TimelineClip.id
                (timelineClips (step s (Drop (Some (mkTimelineRef 100 None)) 300 b_roll "p1")))).
Proof.
  cbv zeta. apply placement_ids_stay_distinct.
  - repeat constructor; simpl; intuition discriminate.
  - simpl. intuition discriminate.
Defined.

(** X9: deleting the placement a drop has just created restores the
    timeline, when the drop brought a fresh id. *)
Theorem drop_then_delete_restores (s : EditorState) (r : TimelineRef) (clientX : Q)
    (tr : Track) (uuid : string) (dragged : VideoClip.t) :
  draggedClip s = Some dragged ->
  ~ In uuid (List.map TimelineClip.id (timelineClips s)) ->
  timelineClips (handleDeleteClip uuid (handleDrop (Some r) clientX tr uuid s))
  = timelineClips s
  /\ List.length (timelineClips (handleDrop (Some r) clientX tr uuid s))
     = S (List.length (timelineClips s)).
Proof.
  intros Hd Hfresh.
  assert (E : timelineClips (handleDrop (Some r) clientX tr uuid s)
              = timelineClips s
                ++ [TimelineClip.mk uuid dragged (Math_round (dropTime r clientX s * 10) / 10)
                      (or_default (VideoClip.duration dragged) 3) tr]).
  { unfold handleDrop. now rewrite Hd. }
  split.
  - assert (F : timelineClips (handleDeleteClip uuid (handleDrop (Some r) clientX tr uuid s))
                = List.filter (fun c => negb (String.eqb (TimelineClip.id c) uuid))
                    (timelineClips (handleDrop (Some r) clientX tr uuid s))).
    { unfold handleDeleteClip. destruct (selectedClip _) as [sel|]; [|reflexivity].
      now destruct (String.eqb sel uuid). }
    rewrite F, E, List.filter_app. simpl. rewrite String.eqb_refl. simpl.
    rewrite List.app_nil_r. apply filter_all. intros c Hc.
    apply negb_true_iff, String.eqb_neq. intros Heq. apply Hfresh.
    rewrite <- Heq. now apply in_map.
  - rewrite E, List.length_app. simpl. lia.
Qed.

Lemma drop_then_delete_restores_witness :
  let s := handleDragStart (sampleVideo "city" 4)
             (setTimelineClips [place "a1" (sampleVideo "narration" 10) 0 10 a_roll]
                (initialState [])) in
  timelineClips (handleDeleteClip "p1" (handleDrop (Some (mkTimelineRef 100 None)) 300 b_roll "p1" s))
  = timelineClips s.
Proof.
  cbv zeta. eapply drop_then_delete_restores.
  - reflexivity.
  - simpl. intuition discriminate.
Defined.

(** ** Removing media *)

(** X10: removing a clip from the library takes every placement of that
    clip off the timeline and leaves no library entry with its id; every
    placement of another clip stays, in its order; removing the same clip
    again changes nothing. *)
Theorem remove_bRoll_cascades (clipId : string) (s : EditorState) :
  let s' := handleRemoveBRoll clipId s in
  (forall c, In c (timelineClips s') ->
     VideoClip.id (TimelineClip.videoClip c) <> clipId)
  /\ (forall v, In v (bRolls s') -> VideoClip.id v <> clipId)
  /\ (forall c, In c (timelineClips s) ->
        VideoClip.id (TimelineClip.videoClip c) <> clipId -> In c (timelineClips s'))
  /\ (forall other, other <> clipId ->
        List.filter (fun c => String.eqb (VideoClip.id (TimelineClip.videoClip c)) other)
          (timelineClips s')
        = List.filter (fun c => String.eqb (VideoClip.id (TimelineClip.videoClip c)) other)
            (timelineClips s))
  /\ handleRemoveBRoll clipId s' = s'.
Proof.
  cbv zeta. unfold handleRemoveBRoll. simpl. repeat apply conj.
  - intros c Hc. apply filter_In in Hc. destruct Hc as [_ Hc].
    now apply negb_true_iff, String.eqb_neq in Hc.
  - intros v Hv. apply filter_In in Hv. destruct Hv as [_ Hv].
    now apply negb_true_iff, String.eqb_neq in Hv.
  - intros c Hc Hne. apply filter_In. split; [exact Hc|].
    now apply negb_true_iff, String.eqb_neq.
  - intros other Hne. induction (timelineClips s) as [|c l IH]; simpl; [reflexivity|].
    destruct (String.eqb (VideoClip.id (TimelineClip.videoClip c)) clipId) eqn:E; simpl.
    + apply String.eqb_eq in E.
      assert (F : String.eqb (VideoClip.id (TimelineClip.videoClip c)) other = false).
      { apply String.eqb_neq. congruence. }
      now rewrite F.
    + now rewrite IH.
  - unfold setTimelineClips, setBRolls. simpl. f_equal.
    + apply filter_all. intros c Hc. apply filter_In in Hc. tauto.
    + apply filter_all. intros v Hv. apply filter_In in Hv. tauto.
Qed.

Lemma remove_bRoll_cascades_witness :
  let city := sampleVideo "city" 5 in
  let s := setTimelineClips [place "a1" (sampleVideo "narration" 10) 0 10 a_roll;
                             place "b1" city 2 5 b_roll; place "b2" city 8 5 b_roll]
             (initialState [city]) in
  List.map TimelineClip.id (timelineClips (handleRemoveBRoll "city" s)) = ["a1"]%string
  /\ bRolls (handleRemoveBRoll "city" s) = []
  /\ handleRemoveBRoll "city" (handleRemoveBRoll "city" s) = handleRemoveBRoll "city" s.
Proof.
  cbv zeta. split; [reflexivity|]. split; [reflexivity|].
  apply remove_bRoll_cascades.
Defined.

(** ** The interval of a placement *)

Lemma isActiveAt_iff (t : Q) (c : TimelineClip.t) :
  isActiveAt t c = true <-> TimelineClip.startTime c <= t /\ t < clipEnd c.
Proof.
  unfold isActiveAt, clipEnd. rewrite andb_true_iff, Qle_bool_iff, Qlt_bool_iff. tauto.
Qed.

(** ** Seeding the timeline *)

(** X12: the a-roll prop seeds an empty timeline with one a-roll placement
    at 0, lasting the clip's duration (45 seconds when that is unknown or 0),
    and never touches a timeline that has a placement: a second run, or a run
    after any drop, changes nothing. *)
Theorem aRoll_seeds_once (aRoll : VideoClip.t) (uuid uuid' : string) (s : EditorState)
    (other : option VideoClip.t) :
  (timelineClips s = [] ->
   timelineClips (aRollEffect (Some aRoll) uuid s)
   = [TimelineClip.mk uuid aRoll 0 (or_default (VideoClip.duration aRoll) 45) a_roll])
  /\ (timelineClips s <> [] -> aRollEffect other uuid s = s)
  /\ aRollEffect other uuid' (aRollEffect (Some aRoll) uuid s)
     = aRollEffect (Some aRoll) uuid s
  /\ (forall c, In c (timelineClips (aRollEffect (Some aRoll) uuid s)) ->
        In c (timelineClips s) \/ (TimelineClip.track c = a_roll
                                   /\ ~ TimelineClip.duration c == 0)).
Proof.
  unfold aRollEffect. repeat apply conj.
  - intros E. now rewrite E.
  - intros Hne. destruct other; [|reflexivity]. destruct (timelineClips s); congruence.
  - destruct (timelineClips s) eqn:E; simpl.
    + now destruct other.
    + rewrite E. now destruct other.
  - intros c. destruct (timelineClips s) eqn:E; simpl.
    + intros [<- | []]. right. split; [reflexivity|]. simpl.
      unfold or_default. destruct (VideoClip.duration aRoll) as [d|]; [|discriminate].
      destruct (Qeq_bool d 0) eqn:Ed; [discriminate|].
      intros H. apply Qeq_bool_iff in H. congruence.
    + rewrite E. auto.
Qed.


Lemma aRoll_seeds_once_witness :
  let v := sampleVideo "narration" 0 in
  timelineClips (aRollEffect (Some v) "a1" (initialState []))
  = [TimelineClip.mk "a1" v 0 45 a_roll]
  /\ aRollEffect (Some v) "a2" (aRollEffect (Some v) "a1" (initialState []))
     = aRollEffect (Some v) "a1" (initialState []).
Proof.
  cbv zeta.
  destruct (aRoll_seeds_once (sampleVideo "narration" 0) "a1" "a2" (initialState [])
              (Some (sampleVideo "narration" 0))) as (Hseed & _ & Hagain & _).
  split; [now apply Hseed | exact Hagain].
Defined.

(** ** The preview element *)

(** X13: one run of the synchronizer effect.  It touches the element only
    when a placement is active; it seeks exactly once, to an offset inside the
    active placement ([0 <= offset < duration]); it assigns [src] only when the
    element's source differs, and then before the seek; and a second run on the
    same state assigns no source again. *)
Theorem preview_seeks_inside_placement (src : string) (s : EditorState) :
  let calls := syncEffect (Some src) s in
  (activeClip (timelineClips s) (currentTime s) = None -> calls = [])
  /\ (forall clip, activeClip (timelineClips s) (currentTime s) = Some clip ->
        exists pre post,
          calls = pre ++ [SetCurrentTime (currentTime s - TimelineClip.startTime clip)] ++ post
          /\ (pre = [] \/ pre = [SetSrc (clipUrl clip)])
          /\ (post = [] \/ post = [Play])
          /\ 0 <= currentTime s - TimelineClip.startTime clip
          /\ currentTime s - TimelineClip.startTime clip < TimelineClip.duration clip)
  /\ (forall u, In (SetSrc u) calls -> u <> src /\ List.hd_error calls = Some (SetSrc u))
  /\ (forall u, ~ In (SetSrc u) (syncEffect (Some (elementSrc src calls)) s)).
Proof.
  cbv zeta. unfold syncEffect.
  destruct (activeClip (timelineClips s) (currentTime s)) as [clip|] eqn:E.
  2:{ split; [reflexivity|]. split; [discriminate|]. split; intros u []. }
  assert (Hact : isActiveAt (currentTime s) clip = true).
  { rewrite activeClip_find in E.
    destruct (List.find (fun c => isActiveAt (currentTime s) c && onTrack b_roll c) _) eqn:F.
    - injection E as <-. apply find_some in F. destruct F as [_ F].
      now apply andb_true_iff in F.
    - now apply find_some in E. }
  apply isActiveAt_iff in Hact. unfold clipEnd in Hact.
  split; [discriminate|]. split; [|split].
  - intros c [= <-].
    exists (if negb (String.eqb src (clipUrl clip)) then [SetSrc (clipUrl clip)] else []),
           (if isPlaying s then [Play] else []).
    split; [reflexivity|]. split; [destruct (negb _); auto|].
    split; [destruct (isPlaying s); auto|]. split; lra.
  - intros u Hu. destruct (String.eqb src (clipUrl clip)) eqn:Esrc; simpl in Hu.
    + destruct Hu as [Hu | Hu]; [discriminate|].
      destruct (isPlaying s); simpl in Hu; intuition discriminate.
    + destruct Hu as [[= <-] | [Hu | Hu]]; [|discriminate|].
      * split; [|reflexivity]. apply String.eqb_neq in Esrc. congruence.
      * destruct (isPlaying s); simpl in Hu; intuition discriminate.
  - intros u.
    assert (Esrc : elementSrc src
                     ((if negb (String.eqb src (clipUrl clip)) then [SetSrc (clipUrl clip)] else [])
                      ++ [SetCurrentTime (currentTime s - TimelineClip.startTime clip)]
                      ++ (if isPlaying s then [Play] else []))
                   = clipUrl clip).
    { destruct (String.eqb src (clipUrl clip)) eqn:Eq; simpl.
      - apply String.eqb_eq in Eq. now destruct (isPlaying s).
      - now destruct (isPlaying s). }
    rewrite Esrc, String.eqb_refl. simpl.
    intros [Hu | Hu]; [discriminate|].
    destruct (isPlaying s); simpl in Hu; intuition discriminate.
Qed.

Lemma preview_seeks_inside_placement_witness :
  let s := setIsPlaying true (setCurrentTime 4
             (setTimelineClips [place "a1" (sampleVideo "narration" 10) 0 10 a_roll;
                                place "b1" (sampleVideo "city" 2) 3 2 b_roll]
                (initialState []))) in
  syncEffect (Some "blob:narration"%string) s
  = [SetSrc "blob:city"; SetCurrentTime (4 - 3); Play]
  /\ forall u, ~ In (SetSrc u)
                 (syncEffect (Some (elementSrc "blob:narration"
                                      (syncEffect (Some "blob:narration"%string) s))) s).
Proof.
  cbv zeta. split; [reflexivity|].
  apply preview_seeks_inside_placement.
Defined.

(** ** The export frame loop *)

Lemma preload_has (l : list TimelineClip.t) (c : TimelineClip.t) :
  In c l ->
  exists c', In c' l /\ TimelineClip.id c' = TimelineClip.id c
             /\ StrategyA.preload l !! TimelineClip.id c = Some (clipUrl c').
Proof.
  induction l as [|x l IH] using rev_ind; [intros []|].
  intros Hin. rewrite preload_snoc.
  destruct (String.eqb (TimelineClip.id x) (TimelineClip.id c)) eqn:E.
  - apply String.eqb_eq in E. exists x. rewrite E, lookup_insert_eq.
    repeat split; auto. apply in_or_app. right. now left.
  - apply String.eqb_neq in E. rewrite lookup_insert_ne by exact E.
    apply in_app_or in Hin. destruct Hin as [Hin | [-> | []]]; [|congruence].
    destruct (IH Hin) as (c' & Hc' & Hid & Hl). exists c'.
    repeat split; auto. apply in_or_app. now left.
Qed.

(** X14: once the export has found its a-roll, every frame draws a video:
    the loop never leaves a frame black for want of a preloaded element, even
    when placement ids repeat.  The a-roll is sought to the frame time; a
    b-roll video is drawn only while one of the b-roll placements is active,
    sought to a time that is not negative. *)
Theorem export_frame_always_draws (clips : list TimelineClip.t)
    (rc : StrategyA.RenderContext) (t : Q) :
  StrategyA.prepare true clips = inr rc ->
  StrategyA.renderFrame rc t <> StrategyA.DrawNothing
  /\ exists src seek,
       StrategyA.renderFrame rc t = StrategyA.DrawVideo src seek
       /\ ((src = clipUrl (StrategyA.aRollClip rc) /\ seek = t)
           \/ exists active shown,
                In active clips /\ TimelineClip.track active = b_roll
                /\ isActiveAt t active = true
                /\ In shown clips /\ TimelineClip.track shown = b_roll
                /\ TimelineClip.id shown = TimelineClip.id active
                /\ src = clipUrl shown
                /\ seek = t - TimelineClip.startTime active
                /\ 0 <= seek /\ seek < TimelineClip.duration active).
Proof.
  intros Hp. destruct (prepare_inr _ _ Hp) as (_ & _ & _ & Hb & Hv & _).
  unfold StrategyA.renderFrame.
  destruct (List.find (isActiveAt t) (StrategyA.bRollClips rc)) as [b|] eqn:E.
  2:{ split; [discriminate|]. eexists _, _. split; [reflexivity|]. now left. }
  apply find_some in E. destruct E as [Hin Hact].
  destruct (preload_has _ _ Hin) as (c' & Hc' & Hid & Hl).
  rewrite Hv, Hl. split; [discriminate|].
  eexists _, _. split; [reflexivity|]. right. exists b, c'.
  rewrite Hb in Hin, Hc'. apply sort_In, filter_In in Hin. apply sort_In, filter_In in Hc'.
  destruct Hin as [Hin Htr], Hc' as [Hc' Htr'].
  apply onTrack_iff in Htr, Htr'.
  pose proof Hact as Hact'. apply isActiveAt_iff in Hact'. unfold clipEnd in Hact'.
  repeat split; auto; lra.
Qed.

Lemma export_frame_always_draws_witness :
  let clips := [place "a1" (sampleVideo "narration" 10) 0 10 a_roll;
                place "b1" (sampleVideo "city" 2) 3 2 b_roll;
                place "b1" (sampleVideo "sea" 2) 6 2 b_roll] in
  exists rc, StrategyA.prepare true clips = inr rc
    /\ StrategyA.renderFrame rc 4 = StrategyA.DrawVideo "blob:sea" (4 - 3)
    /\ StrategyA.renderFrame rc 4 <> StrategyA.DrawNothing.
Proof.
  cbv zeta. eexists. split; [reflexivity|]. split; [reflexivity|].
  apply (export_frame_always_draws
           [place "a1" (sampleVideo "narration" 10) 0 10 a_roll;
            place "b1" (sampleVideo "city" 2) 3 2 b_roll;
            place "b1" (sampleVideo "sea" 2) 6 2 b_roll] _ 4).
  reflexivity.
Defined.

Lemma render_more_fuel (rc : StrategyA.RenderContext) (fuel : nat) :
  forall t frames,
    StrategyA.render fuel rc t = Some frames ->
    StrategyA.render (S fuel) rc t = Some frames.
Proof.
  induction fuel as [|fuel IH]; intros t frames; [discriminate|].
  rewrite (render_S (S fuel)), (render_S fuel).
  destruct (ge_max t (StrategyA.totalDuration rc)); [auto|].
  destruct (StrategyA.render fuel rc (t + 1 / StrategyA.FPS)) as [fr|] eqn:E; [|discriminate].
  now rewrite (IH _ _ E).
Qed.

Lemma render_any_fuel (rc : StrategyA.RenderContext) (n fuel : nat) (t : Q)
    (frames : list (Q * StrategyA.Drawn)) :
  StrategyA.render (S n) rc t = Some frames -> (n < fuel)%nat ->
  StrategyA.render fuel rc t = Some frames.
Proof.
  intros H Hlt. replace fuel with ((fuel - S n) + S n)%nat by lia.
  induction (fuel - S n)%nat as [|k IH]; [exact H|]. now apply render_more_fuel.
Qed.

(** The loop from [t] when [n] steps of [1 / 30] are what separates [t] from
    the total duration [q]. *)
Lemma render_frames (rc : StrategyA.RenderContext) (q : Q) :
  StrategyA.totalDuration rc = Finite q ->
  forall (n : nat) (t : Q),
    (q - t) * 30 <= inject_Z (Z.of_nat n) ->
    (n <> O -> inject_Z (Z.of_nat n) - 1 < (q - t) * 30) ->
    exists frames,
      StrategyA.render (S n) rc t = Some frames
      /\ List.length frames = n
      /\ framesFrom rc q t frames.
Proof.
  intros Hq. induction n as [|n IH]; intros t Hle Hgt.
  - exists []. rewrite render_S, Hq. simpl.
    assert (E : Qle_bool q t = true).
    { apply Qle_bool_iff. change (inject_Z (Z.of_nat 0)) with 0 in Hle. lra. }
    rewrite E. repeat split. apply Qle_bool_iff in E. exact E.
  - assert (Hn : inject_Z (Z.of_nat (S n)) == inject_Z (Z.of_nat n) + 1).
    { rewrite Nat2Z.inj_succ. unfold Z.succ. now rewrite inject_Z_plus. }
    assert (Hn0 : 0 <= inject_Z (Z.of_nat n)).
    { change 0 with (inject_Z 0). rewrite <- Zle_Qle. lia. }
    specialize (Hgt (Nat.neq_succ_0 n)). rewrite Hn in Hle, Hgt.
    assert (Hstep : 1 / StrategyA.FPS == 1 # 30) by reflexivity.
    assert (Hlt : t < q).
    { revert Hgt Hn0. generalize (inject_Z (Z.of_nat n)). intros k Hgt Hn0. lra. }
    destruct (IH (t + 1 / StrategyA.FPS)) as (frames & Hr & Hlen & Hfr).
    { rewrite Hstep. revert Hle. generalize (inject_Z (Z.of_nat n)). intros k Hle. lra. }
    { intros Hnz. rewrite Hstep. revert Hgt.
      generalize (inject_Z (Z.of_nat n)). intros k Hgt. lra. }
    exists ((t, StrategyA.renderFrame rc t) :: frames).
    rewrite render_S, Hq. cbn [ge_max].
    assert (E : Qle_bool q t = false) by now apply Qle_bool_false.
    rewrite E, Hr. repeat split; simpl; auto.
Qed.

Lemma framesFrom_times (rc : StrategyA.RenderContext) (q : Q)
    (frames : list (Q * StrategyA.Drawn)) :
  forall t, framesFrom rc q t frames ->
    Forall (fun f => t <= fst f /\ fst f < q /\ snd f = StrategyA.renderFrame rc (fst f))
      frames.
Proof.
  induction frames as [|[t' d] rest IH]; intros t H; [constructor|].
  destruct H as (-> & Hlt & -> & Hrest). constructor.
  - simpl. repeat split; [apply Qle_refl | exact Hlt].
  - eapply List.Forall_impl; [|apply (IH _ Hrest)].
    intros f (H1 & H2 & H3). repeat split; auto.
    assert (E : 1 / StrategyA.FPS == 1 # 30) by reflexivity. rewrite E in H1. lra.
Qed.

Lemma framesFrom_sorted (rc : StrategyA.RenderContext) (q : Q)
    (frames : list (Q * StrategyA.Drawn)) :
  forall t, framesFrom rc q t frames ->
    StronglySorted (fun f g => fst f < fst g) frames.
Proof.
  induction frames as [|[t' d] rest IH]; intros t H; [constructor|].
  destruct H as (-> & Hlt & -> & Hrest). constructor; [apply (IH _ Hrest)|].
  eapply List.Forall_impl; [|apply (framesFrom_times _ _ _ _ Hrest)].
  intros f (H1 & _). simpl.
  assert (E : 1 / StrategyA.FPS == 1 # 30) by reflexivity. rewrite E in H1. lra.
Qed.

Lemma framesFrom_last (rc : StrategyA.RenderContext) (q : Q)
    (frames : list (Q * StrategyA.Drawn)) (dflt : Q * StrategyA.Drawn) :
  forall t, framesFrom rc q t frames -> frames <> [] ->
    q - (1 # 30) <= fst (List.last frames dflt).
Proof.
  induction frames as [|[t' d] rest IH]; intros t H Hne; [congruence|].
  destruct H as (-> & Hlt & -> & Hrest). destruct rest as [|f rest].
  - simpl in *. assert (E : 1 / StrategyA.FPS == 1 # 30) by reflexivity.
    rewrite E in Hrest. lra.
  - change (List.last ((t, StrategyA.renderFrame rc t) :: f :: rest) dflt)
      with (List.last (f :: rest) dflt).
    apply (IH _ Hrest). discriminate.
Qed.

(** X15: the export loop ends and covers the duration.  Started at time 0
    on a prepared timeline whose greatest [startTime + duration] is [q], it
    returns after a number of frames within two of [30 q]: the first frame is
    drawn at time 0, the frame times increase and stay before [q], every frame
    is what [renderFrame] draws at its time, and the last frame lies within
    0.04 s of [q].  The margins (one frame more or less, 0.04 s for 1/30 s)
    cover the rounding of the accumulated [currentTime += 1 / FPS] in the
    source. *)
Theorem render_covers_duration (clips : list TimelineClip.t)
    (rc : StrategyA.RenderContext) :
  StrategyA.prepare true clips = inr rc ->
  exists q frames,
    StrategyA.totalDuration rc = Finite q
    /\ isMaxEnd clips q
    /\ (forall fuel, (Z.to_nat (Qceiling (q * 30)) + 2 < fuel)%nat ->
          StrategyA.render fuel rc 0 = Some frames)
    /\ framesWithin rc q frames
    /\ (q <= 0 -> frames = [])
    /\ (0 < q ->
        (exists d rest, frames = (0, d) :: rest)
        /\ q - (1 # 25) <= fst (List.last frames (0, StrategyA.DrawNothing))
        /\ q * 30 - 1 <= inject_Z (Z.of_nat (List.length frames)) <= q * 30 + 2).
Proof.
  intros Hp. destruct (prepare_inr _ _ Hp) as (Hin & _ & _ & _ & _ & Ht).
  destruct (StrategyA.totalDuration rc) as [|q] eqn:Eq.
  { exfalso. destruct (JSArray.sort StrategyA.byStartTime clips) eqn:Es; [|discriminate].
    apply (sort_In StrategyA.byStartTime) in Hin. rewrite Es in Hin. destruct Hin. }
  assert (Hmax : isMaxEnd clips q).
  { eapply isMaxEnd_perm; [|apply Math_max_isMaxEnd; symmetry; exact Ht].
    intros c. apply sort_In. }
  set (n := Z.to_nat (Qceiling (q * 30))).
  assert (Hup : q * 30 <= inject_Z (Z.of_nat n)).
  { eapply Qle_trans; [apply Qle_ceiling|]. rewrite <- Zle_Qle. unfold n. lia. }
  assert (Hdown : n <> O -> inject_Z (Z.of_nat n) - 1 < q * 30).
  { intros Hnz.
    assert (Hpos : (0 < Qceiling (q * 30))%Z) by (unfold n in Hnz; lia).
    unfold n. rewrite Z2Nat.id by lia.
    pose proof (Qceiling_lt (q * 30)) as Hc. unfold Z.sub in Hc.
    rewrite inject_Z_plus in Hc. exact Hc. }
  destruct (render_frames rc q Eq n 0) as (frames & Hr & Hlen & Hfr).
  { setoid_replace ((q - 0) * 30) with (q * 30) using relation Qeq by ring. exact Hup. }
  { intros Hnz. setoid_replace ((q - 0) * 30) with (q * 30) using relation Qeq by ring.
    now apply Hdown. }
  exists q, frames. split; [reflexivity|]. split; [exact Hmax|].
  split; [|split; [|split]].
  - intros fuel Hfuel. eapply render_any_fuel; [exact Hr | lia].
  - split; [apply (framesFrom_times rc q frames 0 Hfr) | apply (framesFrom_sorted rc q frames 0 Hfr)].
  - intros Hq. destruct frames as [|[t d] rest]; [reflexivity|].
    destruct Hfr as (_ & Hlt & _). lra.
  - intros Hq.
    assert (Hne : frames <> []).
    { intros ->. simpl in Hfr. lra. }
    split; [|split].
    + destruct frames as [|[t d] rest]; [congruence|].
      destruct Hfr as (-> & _). eauto.
    + eapply Qle_trans; [|apply (framesFrom_last rc q frames _ 0 Hfr Hne)]. lra.
    + rewrite Hlen.
      assert (Hnz : n <> O) by (intros E; rewrite E in Hlen; destruct frames; [congruence | discriminate]).
      specialize (Hdown Hnz). revert Hup Hdown.
      generalize (inject_Z (Z.of_nat n)). intros k Hup Hdown. split; lra.
Qed.

Lemma render_covers_duration_witness :
  let clips := [place "a1" (sampleVideo "narration" 2) 0 2 a_roll;
                place "b1" (sampleVideo "city" 1) 1 1 b_roll] in
  exists rc frames,
    StrategyA.prepare true clips = inr rc
    /\ StrategyA.render 100 rc 0 = Some frames
    /\ framesWithin rc 2 frames
    /\ (59 <= List.length frames <= 62)%nat.
Proof.
  cbv zeta.
  assert (Hp : exists rc, StrategyA.prepare true
                 [place "a1" (sampleVideo "narration" 2) 0 2 a_roll;
                  place "b1" (sampleVideo "city" 1) 1 1 b_roll] = inr rc)
    by (eexists; reflexivity).
  destruct Hp as [rc Hp].
  destruct (render_covers_duration _ rc Hp) as (q & frames & Hq & _ & Hfuel & Hin & _ & Hpos).
  assert (Eq : q = 2).
  { vm_compute in Hp. injection Hp as <-. simpl in Hq. now injection Hq as <-. }
  subst q. exists rc, frames. split; [exact Hp|]. split; [|split; [exact Hin|]].
  - apply Hfuel. vm_compute. lia.
  - destruct Hpos as (_ & _ & Hlo & Hhi); [reflexivity|].
    assert (H59 : inject_Z 59 <= inject_Z (Z.of_nat (List.length frames))).
    { eapply Qle_trans; [|exact Hlo]. vm_compute. discriminate. }
    assert (H62 : inject_Z (Z.of_nat (List.length frames)) <= inject_Z 62).
    { eapply Qle_trans; [exact Hhi|]. vm_compute. discriminate. }
    rewrite <- Zle_Qle in H59, H62. lia.
Defined.

(** X16: the progress the export reports.  On a timeline of positive total
    duration the percentage passed to [onProgress] is an integer between 0 and
    100, it is 0 at the first frame, and it never decreases from one frame
    time to a later one. *)
Theorem progress_in_range_and_monotone (q t1 t2 : Q) :
  0 < q -> 0 <= t1 -> t1 <= t2 -> t2 < q ->
  0 <= progressAt q t1
  /\ progressAt q t1 <= progressAt q t2
  /\ progressAt q t2 <= 100
  /\ progressAt q 0 == 0
  /\ exists k : Z, progressAt q t1 = inject_Z k.
Proof.
  intros Hq H1 H12 H2. unfold progressAt.
  assert (Hinv : 0 < / q) by now apply Qinv_lt_0_compat.
  assert (Hmono : forall a b, a <= b -> a / q * 100 <= b / q * 100).
  { intros a b Hab. apply Qmult_le_compat_r; [|discriminate].
    unfold Qdiv. apply Qmult_le_compat_r; [exact Hab | lra]. }
  assert (Hq1 : q / q * 100 == 100) by (field; lra).
  assert (H0 : 0 / q * 100 == 0) by (field; lra).
  repeat apply conj.
  - apply Math_round_nonneg. rewrite <- H0. apply Hmono, H1.
  - apply Math_round_mono, Hmono, H12.
  - eapply Qle_trans; [apply Math_round_mono, (Hmono t2 q); lra|].
    rewrite (Math_round_compat _ _ Hq1). discriminate.
  - rewrite (Math_round_compat _ _ H0). reflexivity.
  - unfold Math_round. eauto.
Qed.

Lemma progress_in_range_and_monotone_witness :
  progressAt 10 (1 # 30) <= progressAt 10 (299 # 30) /\ progressAt 10 (299 # 30) == 100.
Proof.
  destruct (progress_in_range_and_monotone 10 (1 # 30) (299 # 30))
    as (_ & Hmono & _); try reflexivity; try discriminate.
  split; [exact Hmono | reflexivity].
Defined.

(** ** Letterbox fitting on the canvas *)

(** X17: [drawVideoToCanvas] draws nothing for a video without a width or
    a height; for any other video it draws one rectangle that keeps the
    video's aspect ratio, lies inside the canvas, is centred on both axes and
    fills the canvas width or the canvas height. *)
Theorem letterbox_fit (vW vH cW cH : Q) :
  0 <= vW -> 0 <= vH -> 0 < cW -> 0 < cH ->
  ((vW == 0 \/ vH == 0) -> StrategyA.drawVideoToCanvas vW vH cW cH = None)
  /\ (0 < vW -> 0 < vH ->
      exists r, StrategyA.drawVideoToCanvas vW vH cW cH = Some r
        /\ StrategyA.drawW r * vH == StrategyA.drawH r * vW
        /\ 0 <= StrategyA.offsetX r /\ 0 <= StrategyA.offsetY r
        /\ StrategyA.offsetX r + StrategyA.drawW r <= cW
        /\ StrategyA.offsetY r + StrategyA.drawH r <= cH
        /\ StrategyA.offsetX r * 2 + StrategyA.drawW r == cW
        /\ StrategyA.offsetY r * 2 + StrategyA.drawH r == cH
        /\ (StrategyA.drawW r == cW \/ StrategyA.drawH r == cH)).
Proof.
  intros HvW HvH HcW HcH. split.
  - intros Hz. unfold StrategyA.drawVideoToCanvas.
    destruct Hz as [Hz | Hz]; apply Qeq_bool_iff in Hz; rewrite Hz;
      [reflexivity | now rewrite orb_true_r].
  - intros Hw Hh.
    destruct (StrategyA.drawVideoToCanvas vW vH cW cH) as [r|] eqn:E.
    + destruct (drawVideoToCanvas_fits vW vH cW cH r Hw Hh HcW HcH E)
        as (Hasp & Hdw & Hdh & Hcx & Hcy & Hfill).
      exists r. split; [reflexivity|]. repeat split; auto; lra.
    + exfalso. unfold StrategyA.drawVideoToCanvas in E.
      destruct (Qeq_bool vW 0) eqn:E1; [apply Qeq_bool_iff in E1; lra|].
      destruct (Qeq_bool vH 0) eqn:E2; [apply Qeq_bool_iff in E2; lra|].
      simpl in E. destruct (Qlt_bool _ _); discriminate.
Qed.

Lemma letterbox_fit_witness :
  StrategyA.drawVideoToCanvas 1920 1080 StrategyA.CANVAS_WIDTH StrategyA.CANVAS_HEIGHT
  <> None
  /\ StrategyA.drawVideoToCanvas 0 1080 StrategyA.CANVAS_WIDTH StrategyA.CANVAS_HEIGHT = None.
Proof.
  destruct (letterbox_fit 1920 1080 StrategyA.CANVAS_WIDTH StrategyA.CANVAS_HEIGHT)
    as [_ Hdraw]; try reflexivity; try discriminate.
  destruct (letterbox_fit 0 1080 StrategyA.CANVAS_WIDTH StrategyA.CANVAS_HEIGHT)
    as [Hnone _]; try reflexivity; try discriminate.
  split.
  - destruct Hdraw as (r & E & _); [reflexivity | reflexivity |]. rewrite E. discriminate.
  - apply Hnone. left. reflexivity.
Defined.

(** ** The encoder's files *)

(** X18: the export writes each distinct source once.  Over any list of
    placements the loop writes one file per distinct source URL, in order of
    first use, under the names [input0.mp4], [input1.mp4], ...; no URL and no
    file name is written twice; every placement finds its source's file in the
    map (never [undefined]); nothing is written that no placement uses; and two
    placements get the same file exactly when they have the same source. *)
Theorem each_source_written_once (clips : list TimelineClip.t) :
  let log := writeFilesLog clips in
  StrategyB.writeFiles clips = log.1
  /\ List.map fst log.2 = List.map inputFile (List.seq O log.1.2)
  /\ List.NoDup (List.map snd log.2)
  /\ List.NoDup (List.map fst log.2)
  /\ (forall c, In c clips ->
        exists k, (k < log.1.2)%nat
          /\ StrategyB.fileOf log.1.1 c = inputFile k
          /\ In (inputFile k, clipUrl c) log.2)
  /\ (forall f u, In (f, u) log.2 -> exists c, In c clips /\ clipUrl c = u)
  /\ (forall c c', In c clips -> In c' clips ->
        (StrategyB.fileOf log.1.1 c = StrategyB.fileOf log.1.1 c' <-> clipUrl c = clipUrl c')).
Proof.
  cbv zeta. unfold writeFilesLog.
  destruct (writeLog_inv clips (∅, O, [])) as (Hnames & Hmap & Hnd).
  { simpl. repeat split; try constructor; try tauto.
    rewrite lookup_empty. discriminate. }
  assert (Hndf : List.NoDup (List.map fst (List.fold_left writeStep clips (∅, O, [])).2)).
  { rewrite Hnames. apply NoDup_map_inj; [apply inputFile_inj | apply List.seq_NoDup]. }
  assert (Hfile : forall c, In c clips ->
            exists k, (k < (List.fold_left writeStep clips (∅, O, [])).1.2)%nat
              /\ (List.fold_left writeStep clips (∅, O, [])).1.1 !! clipUrl c
                 = Some (inputFile k)
              /\ In (inputFile k, clipUrl c) (List.fold_left writeStep clips (∅, O, [])).2).
  { intros c Hc. destruct (writeLog_covers clips (∅, O, []) c Hc) as [f Hf].
    pose proof Hf as Hin. apply Hmap in Hin.
    assert (Hfst : In f (List.map fst (List.fold_left writeStep clips (∅, O, [])).2)).
    { apply in_map_iff. now exists (f, clipUrl c). }
    rewrite Hnames in Hfst. apply in_map_iff in Hfst. destruct Hfst as (k & <- & Hk).
    apply in_seq in Hk. exists k. repeat split; auto. lia. }
  split; [apply writeFiles_log|]. split; [exact Hnames|]. split; [exact Hnd|].
  split; [exact Hndf|]. split; [|split].
  - intros c Hc. destruct (Hfile c Hc) as (k & Hk & Hl & Hin).
    exists k. unfold StrategyB.fileOf. rewrite Hl. auto.
  - intros f u Hin. apply writeLog_sources in Hin. destruct Hin as [[] | H]. exact H.
  - intros c c' Hc Hc'.
    destruct (Hfile c Hc) as (k & _ & Hl & Hin).
    destruct (Hfile c' Hc') as (k' & _ & Hl' & Hin').
    unfold StrategyB.fileOf. rewrite Hl, Hl'. simpl. split.
    + intros E. rewrite <- E in Hin'. eapply NoDup_fst_functional; eauto.
    + intros E. rewrite E in Hl. congruence.
Qed.

Lemma each_source_written_once_witness :
  let city := sampleVideo "city" 5 in
  let clips := [place "b1" city 0 5 b_roll; place "b2" (sampleVideo "sea" 5) 2 5 b_roll;
                place "b3" city 5 5 b_roll] in
  (writeFilesLog clips).2 = [("input0.mp4", "blob:city"); ("input1.mp4", "blob:sea")]%string
  /\ StrategyB.fileOf (writeFilesLog clips).1.1 (place "b1" city 0 5 b_roll)
     = StrategyB.fileOf (writeFilesLog clips).1.1 (place "b3" city 5 5 b_roll).
Proof.
  cbv zeta. split; [vm_compute; reflexivity|].
  destruct (each_source_written_once
              [place "b1" (sampleVideo "city" 5) 0 5 b_roll;
               place "b2" (sampleVideo "sea" 5) 2 5 b_roll;
               place "b3" (sampleVideo "city" 5) 5 5 b_roll])
    as (_ & _ & _ & _ & _ & _ & Hsame).
  apply Hsame; [left; reflexivity | right; right; left; reflexivity | reflexivity].
Defined.

(** ** The overlay graph *)

(** X19: the overlay graph in closed form.  On a timeline with an a-roll
    placement the graph uses the first a-roll placement in start-time order as
    input 0, always the file [input0.mp4], and the b-roll placements in
    start-time order as inputs 1, 2, ...: each is scaled, padded, shifted to
    its start time and overlaid on the output of the one before while
    [between(t, start, start + duration)]; the last overlay writes [out], and
    with no b-roll placement the only label written is [base]. *)
Theorem overlay_graph_closed_form (Number_toString : Q -> string)
    (clips : list TimelineClip.t) (a : TimelineClip.t) :
  In a clips -> TimelineClip.track a = a_roll ->
  let fileMap := (StrategyB.writeFiles (StrategyB.sorted clips)).1 in
  let bs := JSArray.sort StrategyA.byStartTime (List.filter (onTrack b_roll) clips) in
  exists base,
    List.hd_error (StrategyB.aRollClips clips) = Some base
    /\ StrategyB.fileOf fileMap base = "input0.mp4"%string
    /\ StrategyB.buildGraph Number_toString clips
       = spec_overlayGraph Number_toString fileMap base bs
    /\ List.length (StrategyB.inputs (StrategyB.buildGraph Number_toString clips))
       = (2 * S (List.length bs))%nat
    /\ StrategyB.currentOutput (StrategyB.buildGraph Number_toString clips)
       = match bs with [] => "[base]" | _ :: _ => "[out]" end%string.
Proof.
  intros Hin Htr fileMap bs.
  destruct (sorted_head_aRoll clips a Hin Htr) as (base & rest & Hs & Hb & Ha).
  assert (Hbs : StrategyB.bRollClips clips = bs) by apply filter_track_sorted.
  assert (Hg : StrategyB.buildGraph Number_toString clips
               = spec_overlayGraph Number_toString fileMap base bs).
  { unfold StrategyB.buildGraph. rewrite Ha, Hbs. apply overlayGraph_spec. }
  exists base. split; [now rewrite Ha|]. split; [|split; [exact Hg|]].
  - unfold fileMap. rewrite Hs. apply first_file_is_input0.
  - rewrite Hg. unfold spec_overlayGraph.
    cbn [StrategyB.inputs StrategyB.currentOutput]. split.
    + rewrite List.length_app.
      assert (Hflat : forall l : list TimelineClip.t,
                List.length (List.flat_map
                               (fun b => ["-i"; StrategyB.fileOf fileMap b]%string) l)
                = (2 * List.length l)%nat).
      { induction l as [|b l IH]; simpl; [reflexivity | rewrite IH; lia]. }
      rewrite Hflat. simpl. lia.
    + rewrite overlayIn_last. now destruct bs.
Qed.

Lemma overlay_graph_closed_form_witness :
  let clips := [place "b1" (sampleVideo "city" 5) (5 # 2) 5 b_roll;
                place "a1" (sampleVideo "narration" 10) 0 10 a_roll;
                place "b2" (sampleVideo "sea" 5) (1 # 10) 5 b_roll] in
  StrategyB.inputs (StrategyB.buildGraph StrategyB.decimal_toString clips)
  = ["-i"; "input0.mp4"; "-i"; "input1.mp4"; "-i"; "input2.mp4"]%string
  /\ StrategyB.currentOutput (StrategyB.buildGraph StrategyB.decimal_toString clips)
     = "[out]"%string.
Proof.
  cbv zeta.
  destruct (overlay_graph_closed_form StrategyB.decimal_toString
              [place "b1" (sampleVideo "city" 5) (5 # 2) 5 b_roll;
               place "a1" (sampleVideo "narration" 10) 0 10 a_roll;
               place "b2" (sampleVideo "sea" 5) (1 # 10) 5 b_roll]
              (place "a1" (sampleVideo "narration" 10) 0 10 a_roll))
    as (base & Hbase & _ & Hg & _ & Hout); [right; left; reflexivity | reflexivity |].
  vm_compute in Hbase. injection Hbase as <-.
  split; [rewrite Hg; vm_compute; reflexivity | exact Hout].
Defined.

(** X20: a timeline with a-roll placements only.  Strategy B passes one
    input, [input0.mp4], and a filter graph that ends at the label [base];
    the graph nowhere writes the label [out] that the same command selects
    with [-map]. *)
Theorem aRoll_only_export_command (Number_toString : Q -> string)
    (clips : list TimelineClip.t) :
  clips <> [] ->
  (forall c, In c clips -> TimelineClip.track c = a_roll) ->
  StrategyB.handleExport Number_toString true clips
  = StrategyB.Exec
      ["-i"; "input0.mp4"; "-filter_complex";
       "[0:v]scale=1080:1920:force_original_aspect_ratio=decrease,pad=1080:1920:(ow-iw)/2:(oh-ih)/2,setpts=PTS-STARTPTS[base]";
       "-map"; "[out]"; "-c:v"; "libx264"; "-preset"; "medium"; "-crf"; "23";
       "-pix_fmt"; "yuv420p"; "-r"; "30"; "-t";
       Number_toString (StrategyB.totalDuration clips); "output.mp4"]%string
  /\ String.index 0 "[out]"
       (StrategyB.filterComplex (StrategyB.buildGraph Number_toString clips)) = None
  /\ StrategyB.currentOutput (StrategyB.buildGraph Number_toString clips) = "[base]"%string.
Proof.
  intros Hne Hall.
  destruct clips as [|c0 clips0] eqn:Ec; [congruence|]. rewrite <- Ec in *.
  assert (Hc0 : In c0 clips) by (rewrite Ec; now left).
  destruct (sorted_head_aRoll clips c0 Hc0 (Hall c0 Hc0)) as (base & rest & Hs & _ & Ha).
  assert (Hb : StrategyB.bRollClips clips = []).
  { unfold StrategyB.bRollClips. apply filter_none. intros c Hc.
    unfold StrategyB.sorted in Hc.
    apply (proj1 (sort_In StrategyB.byTrackThenStart c clips)) in Hc.
    unfold onTrack. now rewrite (Hall c Hc). }
  assert (Hg : StrategyB.buildGraph Number_toString clips
               = StrategyB.mkGraph ["-i"; "input0.mp4"]%string
                   "[0:v]scale=1080:1920:force_original_aspect_ratio=decrease,pad=1080:1920:(ow-iw)/2:(oh-ih)/2,setpts=PTS-STARTPTS[base]"
                   "[base]").
  { unfold StrategyB.buildGraph. rewrite Ha, Hb, overlayGraph_spec.
    unfold spec_overlayGraph. rewrite Hs, first_file_is_input0. reflexivity. }
  split; [|rewrite Hg; split; reflexivity].
  unfold StrategyB.handleExport. rewrite Ec at 1. rewrite Hg. reflexivity.
Qed.

Lemma aRoll_only_export_command_witness :
  StrategyB.handleExport StrategyB.decimal_toString true
    [place "a1" (sampleVideo "narration" 10) 0 10 a_roll;
     place "a2" (sampleVideo "outro" 5) 10 5 a_roll]
  = StrategyB.Exec
      ["-i"; "input0.mp4"; "-filter_complex";
       "[0:v]scale=1080:1920:force_original_aspect_ratio=decrease,pad=1080:1920:(ow-iw)/2:(oh-ih)/2,setpts=PTS-STARTPTS[base]";
       "-map"; "[out]"; "-c:v"; "libx264"; "-preset"; "medium"; "-crf"; "23";
       "-pix_fmt"; "yuv420p"; "-r"; "30"; "-t"; "15"; "output.mp4"]%string.
Proof.
  destruct (aRoll_only_export_command StrategyB.decimal_toString
              [place "a1" (sampleVideo "narration" 10) 0 10 a_roll;
               place "a2" (sampleVideo "outro" 5) 10 5 a_roll]) as (Hexec & _).
  - discriminate.
  - intros c [<- | [<- | []]]; reflexivity.
  - etransitivity; [exact Hexec|]. vm_compute. reflexivity.
Defined.

(** ** The time display *)

Lemma Qfloor_unique (z : Z) (x : Q) :
  inject_Z z <= x -> x < inject_Z z + 1 -> Qfloor x = z.
Proof.
  intros Hlo Hhi. apply Z.le_antisymm.
  - apply Z.lt_succ_r. rewrite Zlt_Qlt. unfold Z.succ. rewrite inject_Z_plus.
    eapply Qle_lt_trans; [apply Qfloor_le | exact Hhi].
  - rewrite <- (Qfloor_Z z). now apply Qfloor_resp_le.
Qed.

Lemma Qfloor_bounds (x : Q) (zlo zhi : Z) :
  inject_Z zlo <= x -> x < inject_Z zhi -> (zlo <= Qfloor x < zhi)%Z.
Proof.
  intros Hlo Hhi. split.
  - rewrite <- (Qfloor_Z zlo). now apply Qfloor_resp_le.
  - rewrite Zlt_Qlt. eapply Qle_lt_trans; [apply Qfloor_le | exact Hhi].
Qed.

Lemma Qtrunc_nonneg (x : Q) : 0 <= x -> Display.Qtrunc x = Qfloor x.
Proof. intros H. unfold Display.Qtrunc. apply Qle_bool_iff in H. now rewrite H. Qed.

Lemma two_digit_seconds (z : Z) :
  (0 <= z < 60)%Z -> String.length (Display.padStart0 2 (Display.integer_toString z)) = 2%nat.
Proof.
  intros Hz.
  assert (Hall : forallb
            (fun n => Nat.eqb (String.length
                         (Display.padStart0 2 (Display.integer_toString (Z.of_nat n)))) 2)
            (List.seq O 60) = true) by (vm_compute; reflexivity).
  rewrite forallb_forall in Hall. specialize (Hall (Z.to_nat z)).
  rewrite Z2Nat.id in Hall by lia. apply Nat.eqb_eq, Hall, in_seq. lia.
Qed.

Lemma one_digit_tenths (z : Z) :
  (0 <= z < 10)%Z -> String.length (Display.integer_toString z) = 1%nat.
Proof.
  intros Hz.
  assert (Hall : forallb
            (fun n => Nat.eqb (String.length (Display.integer_toString (Z.of_nat n))) 1)
            (List.seq O 10) = true) by (vm_compute; reflexivity).
  rewrite forallb_forall in Hall. specialize (Hall (Z.to_nat z)).
  rewrite Z2Nat.id in Hall by lia. apply Nat.eqb_eq, Hall, in_seq. lia.
Qed.

(** X21: what the clock shows.  For a time that is not negative,
    [formatTime] prints minutes, a colon, a two-digit count of seconds below
    60, a dot and one digit of tenths, and the time it prints is the given
    time cut down to a tenth of a second: not later than the time and less
    than 0.1 s earlier.  Both bounds are stated with a margin of a
    millisecond, which covers the rounding of [(seconds % 1) * 10] in the
    source (there 0.8999999999999999 prints as [0:00.9]). *)
Theorem formatTime_truncates_to_tenths (seconds : Q) :
  0 <= seconds ->
  exists mins secs ms : Z,
    Display.formatTime seconds
    = (Display.integer_toString mins +:+ ":"
       +:+ Display.padStart0 2 (Display.integer_toString secs)
       +:+ "." +:+ Display.integer_toString ms)%string
    /\ (0 <= mins)%Z /\ (0 <= secs < 60)%Z /\ (0 <= ms < 10)%Z
    /\ String.length (Display.padStart0 2 (Display.integer_toString secs)) = 2%nat
    /\ String.length (Display.integer_toString ms) = 1%nat
    /\ inject_Z (mins * 60 + secs) + inject_Z ms / 10 < seconds + (1 # 1000)
    /\ seconds - (1 # 1000) < inject_Z (mins * 60 + secs) + inject_Z ms / 10 + (1 # 10).
Proof.
  intros Hpos. unfold Display.formatTime, Display.timeFields.
  set (mins := Qfloor (seconds / 60)).
  assert (E60 : seconds / 60 == seconds * (1 # 60)) by reflexivity.
  assert (E1 : seconds / 1 == seconds) by (unfold Qdiv; change (/ 1) with 1; ring).
  assert (Hm_lo : inject_Z mins <= seconds * (1 # 60)).
  { rewrite <- E60. apply Qfloor_le. }
  assert (Hm_hi : seconds * (1 # 60) < inject_Z mins + 1).
  { rewrite <- E60. pose proof (Qlt_floor (seconds / 60)) as H.
    rewrite inject_Z_plus in H. exact H. }
  assert (Hmins : (0 <= mins)%Z).
  { unfold mins. rewrite <- (Qfloor_Z 0). apply Qfloor_resp_le. rewrite E60.
    change (inject_Z 0) with 0. lra. }
  assert (R60 : Display.rem seconds 60 == seconds - 60 * inject_Z mins).
  { unfold Display.rem. rewrite Qtrunc_nonneg; [reflexivity|]. rewrite E60. lra. }
  assert (R1 : Display.rem seconds 1 == seconds - inject_Z (Qfloor seconds)).
  { unfold Display.rem. rewrite Qtrunc_nonneg by (rewrite E1; exact Hpos).
    rewrite (Qfloor_comp _ _ E1). ring. }
  set (secs := Qfloor (Display.rem seconds 60)).
  set (ms := Qfloor (Display.rem seconds 1 * 10)).
  assert (Hs_lo : inject_Z secs <= seconds - 60 * inject_Z mins).
  { rewrite <- R60. apply Qfloor_le. }
  assert (Hs_hi : seconds - 60 * inject_Z mins < inject_Z secs + 1).
  { rewrite <- R60. pose proof (Qlt_floor (Display.rem seconds 60)) as H.
    rewrite inject_Z_plus in H. exact H. }
  assert (Hsecs : (0 <= secs < 60)%Z).
  { apply Qfloor_bounds.
    - rewrite R60. change (inject_Z 0) with 0. revert Hm_lo.
      generalize (inject_Z mins). intros m Hm_lo. lra.
    - rewrite R60. change (inject_Z 60) with 60. revert Hm_hi.
      generalize (inject_Z mins). intros m Hm_hi. lra. }
  assert (Hfloor : Qfloor seconds = (mins * 60 + secs)%Z).
  { apply Qfloor_unique; rewrite inject_Z_plus, inject_Z_mult;
      change (inject_Z 60) with 60; revert Hs_lo Hs_hi;
      generalize (inject_Z mins) (inject_Z secs); intros m k Hs_lo Hs_hi; lra. }
  assert (Hf_lo : inject_Z (Qfloor seconds) <= seconds) by apply Qfloor_le.
  assert (Hf_hi : seconds < inject_Z (Qfloor seconds) + 1).
  { pose proof (Qlt_floor seconds) as H. rewrite inject_Z_plus in H. exact H. }
  assert (Hd_lo : inject_Z ms <= (seconds - inject_Z (Qfloor seconds)) * 10).
  { rewrite <- R1. apply Qfloor_le. }
  assert (Hd_hi : (seconds - inject_Z (Qfloor seconds)) * 10 < inject_Z ms + 1).
  { rewrite <- R1. pose proof (Qlt_floor (Display.rem seconds 1 * 10)) as H.
    rewrite inject_Z_plus in H. exact H. }
  assert (Hms : (0 <= ms < 10)%Z).
  { apply Qfloor_bounds.
    - rewrite R1. change (inject_Z 0) with 0. revert Hf_lo.
      generalize (inject_Z (Qfloor seconds)). intros f Hf_lo. lra.
    - rewrite R1. change (inject_Z 10) with 10. revert Hf_hi.
      generalize (inject_Z (Qfloor seconds)). intros f Hf_hi. lra. }
  exists mins, secs, ms. split; [reflexivity|]. split; [exact Hmins|].
  split; [exact Hsecs|]. split; [exact Hms|].
  split; [now apply two_digit_seconds|]. split; [now apply one_digit_tenths|].
  rewrite <- Hfloor. rewrite Qdiv10. split.
  - revert Hd_lo. generalize (inject_Z (Qfloor seconds)) (inject_Z ms). intros f d Hd_lo. lra.
  - revert Hd_hi. generalize (inject_Z (Qfloor seconds)) (inject_Z ms). intros f d Hd_hi. lra.
Qed.

Lemma formatTime_truncates_to_tenths_witness :
  Display.formatTime (151 # 2) = "1:15.5"%string
  /\ exists mins secs ms : Z,
       Display.formatTime (151 # 2)
       = (Display.integer_toString mins +:+ ":"
          +:+ Display.padStart0 2 (Display.integer_toString secs)
          +:+ "." +:+ Display.integer_toString ms)%string
       /\ (151 # 2) - (1 # 1000) < inject_Z (mins * 60 + secs) + inject_Z ms / 10 + (1 # 10).
Proof.
  split; [vm_compute; reflexivity|].
  destruct (formatTime_truncates_to_tenths (151 # 2))
    as (mins & secs & ms & Hf & _ & _ & _ & _ & _ & _ & Hhi); [discriminate|].
  exists mins, secs, ms. split; assumption.
Defined.

(** ** The time ruler *)

(** X22: the ruler reaches the end of the timeline.  Its labels are the
    multiples of 5 seconds from 0 up to the first one at or beyond the total
    duration, so there are always at least ten of them and the last lies less
    than 5 seconds past the total duration. *)
Theorem ruler_covers_timeline (s : EditorState) :
  exists n : nat,
    List.length (rulerMarks s) = S n
    /\ (9 <= n)%nat
    /\ (forall i, (i <= n)%nat ->
          List.nth i (rulerMarks s) 0 = inject_Z (Z.of_nat i) * 5)
    /\ totalDuration (timelineClips s) <= inject_Z (Z.of_nat n) * 5
    /\ inject_Z (Z.of_nat n) * 5 < totalDuration (timelineClips s) + 5.
Proof.
  unfold rulerMarks. set (T := totalDuration (timelineClips s)).
  assert (HT : 45 <= T) by apply Math_max_with_ge_last.
  assert (E5 : T / 5 == T * (1 # 5)) by reflexivity.
  assert (Hc9 : (9 <= Qceiling (T / 5))%Z).
  { rewrite <- (Qceiling_Z 9). apply Qceiling_resp_le. rewrite E5.
    change (inject_Z 9) with 9. lra. }
  exists (Z.to_nat (Qceiling (T / 5))).
  assert (Hn : inject_Z (Z.of_nat (Z.to_nat (Qceiling (T / 5)))) = inject_Z (Qceiling (T / 5))).
  { now rewrite Z2Nat.id by lia. }
  assert (Hlen : Z.to_nat (Qceiling (T / 5) + 1) = S (Z.to_nat (Qceiling (T / 5)))).
  { rewrite Z2Nat.inj_add by lia. simpl. lia. }
  rewrite Hlen, List.length_map, List.length_seq, Hn.
  split; [reflexivity|]. split; [lia|]. split; [|split].
  - intros i Hi.
    change 0 with ((fun i => inject_Z (Z.of_nat i) * 5) O) at 1.
    rewrite List.map_nth, List.seq_nth by lia. reflexivity.
  - pose proof (Qle_ceiling (T / 5)) as H. revert H.
    generalize (inject_Z (Qceiling (T / 5))). intros c H. rewrite E5 in H. lra.
  - pose proof (Qceiling_lt (T / 5)) as H. unfold Z.sub in H.
    rewrite inject_Z_plus in H. change (inject_Z (- (1))) with (- (1)) in H. revert H.
    generalize (inject_Z (Qceiling (T / 5))). intros c H. rewrite E5 in H. lra.
Qed.
